(** * go_router: a shallow embedding of the dispatch pipeline

    The repository holds two packages that share most of their code:

    - package [router]: handlers take a pointer to a struct that the
      dispatcher fills by reflection (the binder, or strict, variant);
    - package [go_router]: handlers take the request parameter map itself
      and the route key carries type tags (the permissive variant).

    Go strings are byte strings and are modelled by [string] (a list of
    8-bit [ascii]); int64 and uint64 are [Z] with the wrap-around written
    out where the code relies on it; float64 is an IEEE 754 binary64 datum
    ([spec_float]); Go maps are [gmap]s.  A Go function returning
    [(T, error)] returns a pair [T * option Error] here. *)

From Stdlib Require Import ZArith Ascii String Lia Bool.
From Stdlib Require Import Floats.SpecFloat.
From stdpp Require Import gmap strings list fin_maps.

Local Open Scope nat_scope.
Local Set Warnings "-register-all".

(** ** Errors, panics and the result of running code that may panic *)

Inductive NumErrKind := ErrSyntax | ErrRange.

Inductive Error :=
| errors_New (msg : string)                         (* errors.New(msg) *)
| NumError (Func Num : string) (Err : NumErrKind)   (* *strconv.NumError *)
| ExternError (msg : string).                       (* net/http, io, encoding/json *)

Inductive PanicValue :=
| RuntimeError (msg : string)    (* index out of range, failed assertion, reflect *)
| PanicError (e : Error).        (* panic(err) *)

(** [Timeout] is the answer of a loop that used up its fuel; the theorems
    below show that it is never the answer of the functions of the router. *)
Inductive exec (A : Type) :=
| Val (a : A)
| Panic (v : PanicValue)
| Timeout.
Arguments Val {A} a.
Arguments Panic {A} v.
Arguments Timeout {A}.

Global Instance exec_ret : MRet exec := fun A a => Val a.
Global Instance exec_bind : MBind exec := fun A B f m =>
  match m with
  | Val a => f a
  | Panic v => Panic v
  | Timeout => Timeout
  end.

(** [s[i]] on a slice: a run-time panic when [i] is out of range. *)
Definition index {A} (s : list A) (i : nat) : exec A :=
  match s !! i with
  | Some x => Val x
  | None => Panic (RuntimeError "index out of range")
  end.

(** ** Package strings and html *)

Definition slash : ascii := "/"%char.
Definition dquote : ascii := "034"%char.

(** [strings.TrimRight(s, cutset)] for a cutset of one ASCII byte. *)
Fixpoint TrimRight (s : string) (c : ascii) : string :=
  match s with
  | EmptyString => EmptyString
  | String a r =>
      match TrimRight r c with
      | EmptyString => if Ascii.eqb a c then EmptyString else String a EmptyString
      | r' => String a r'
      end
  end.

(** [html.EscapeString]: the five replacements of [htmlEscaper]. *)
Definition escape_byte (a : ascii) : string :=
  if Ascii.eqb a "&" then "&amp;"
  else if Ascii.eqb a "'" then "&#39;"
  else if Ascii.eqb a "<" then "&lt;"
  else if Ascii.eqb a ">" then "&gt;"
  else if Ascii.eqb a dquote then "&#34;"
  else String a EmptyString.

Fixpoint EscapeString (s : string) : string :=
  match s with
  | EmptyString => EmptyString
  | String a r => escape_byte a +:+ EscapeString r
  end.

(** [strings.Split(s, sep)] for a separator of one byte: never empty. *)
Fixpoint Split (s : string) (sep : ascii) : list string :=
  match s with
  | EmptyString => [EmptyString]
  | String a r =>
      if Ascii.eqb a sep then EmptyString :: Split r sep
      else match Split r sep with
           | h :: t => String a h :: t
           | [] => [String a EmptyString]
           end
  end.

(** [strings.Join(elems, sep)]. *)
Fixpoint Join (elems : list string) (sep : string) : string :=
  match elems with
  | [] => EmptyString
  | [x] => x
  | x :: rest => x +:+ sep +:+ Join rest sep
  end.

(** ** Package strconv *)

Definition digit_of (c : ascii) : option Z :=
  let n := Z.of_nat (nat_of_ascii c) in
  if ((48 <=? n) && (n <=? 57))%Z then Some (n - 48)%Z else None.

Definition maxUint64 : Z := (2 ^ 64 - 1)%Z.

(** The digit loop of [strconv.ParseUint(s, 10, 64)]: [n] is the uint64
    accumulator; the two overflow tests are those of the library. *)
Fixpoint ParseUint_loop (s : string) (n : Z) : Z * option NumErrKind :=
  match s with
  | EmptyString => (n, None)
  | String c r =>
      match digit_of c with
      | None => (0, Some ErrSyntax)
      | Some d =>
          if (n >=? maxUint64 / 10 + 1)%Z then (maxUint64, Some ErrRange)
          else
            let n10 := (n * 10)%Z in
            let n1 := ((n10 + d) mod 2 ^ 64)%Z in
            if ((n1 <? n10) || (n1 >? maxUint64))%Z then (maxUint64, Some ErrRange)
            else ParseUint_loop r n1
      end
  end%Z.

Definition ParseUint (s : string) : Z * option NumErrKind :=
  match s with
  | EmptyString => (0%Z, Some ErrSyntax)
  | _ => ParseUint_loop s 0
  end.

(** [strconv.ParseInt(s, 10, 64)]. *)
Definition ParseInt (s0 : string) : Z * option Error :=
  match s0 with
  | EmptyString => (0%Z, Some (NumError "ParseInt" s0 ErrSyntax))
  | String c r =>
      let neg := Ascii.eqb c "-" in
      let s := if Ascii.eqb c "+" || neg then r else s0 in
      let cutoff := (2 ^ 63)%Z in
      match ParseUint s with
      | (_, Some ErrSyntax) => (0%Z, Some (NumError "ParseInt" s0 ErrSyntax))
      | (un, _) =>
          if negb neg && (un >=? cutoff)%Z
          then ((cutoff - 1)%Z, Some (NumError "ParseInt" s0 ErrRange))
          else if neg && (un >? cutoff)%Z
          then ((- cutoff)%Z, Some (NumError "ParseInt" s0 ErrRange))
          else ((if neg then - un else un)%Z, None)
      end
  end.

(** [strconv.ParseBool]. *)
Definition ParseBool (str : string) : bool * option Error :=
  if existsb (String.eqb str) ["1"; "t"; "T"; "true"; "TRUE"; "True"]
  then (true, None)
  else if existsb (String.eqb str) ["0"; "f"; "F"; "false"; "FALSE"; "False"]
  then (false, None)
  else (false, Some (NumError "ParseBool" str ErrSyntax)).

(** ** float64 *)

Definition float64 : Type := spec_float.

(** [float64(v)] for an int64 [v]: the nearest binary64, ties to even. *)
Definition float64_of_int64 (v : Z) : float64 :=
  binary_normalize 53 1024 v 0 false.

(** The integer part of a float64, when it has one. *)
Definition float64_trunc (f : float64) : option Z :=
  match f with
  | S754_zero _ => Some 0%Z
  | S754_finite s m e =>
      let a := match e with
               | Zneg k => (Zpos m / 2 ^ Zpos k)%Z
               | _ => (Zpos m * 2 ^ e)%Z
               end in
      Some (if s then (- a)%Z else a)
  | _ => None
  end.

(** ** What the router takes from the Go libraries and the platform

    - [strconv_ParseFloat s] is [strconv.ParseFloat(s, 64)]; the syntax it
      accepts has grown with the Go releases (hexadecimal mantissas, digit
      separators), so the router is modelled over any such function;
    - [utf8_upperFirst s] is [string(unicode.ToUpper(r)) + s[n:]] for the
      first rune [r] (of width [n]) of a string whose first byte is not
      ASCII: it depends on the Unicode tables;
    - [int64_unrepresentable f] is [int64(f)] for a float64 with no int64
      value (NaN, infinities, out of range), which Go leaves to the platform;
    - [json_Unmarshal] and [json_Marshal] are encoding/json, with the decoded
      object of a body and the encoding of a handler's result.

    [iface] is the dynamic value of an [interface{}]: what a path or a form
    stores (a string), what encoding/json decodes to, and int64. *)

Inductive iface :=
| VNil
| VBool (b : bool)
| VInt64 (v : Z)
| VFloat64 (f : float64)
| VString (s : string)
| VSlice (l : list iface)                 (* []interface{} *)
| VMap (m : list (string * iface)).       (* map[string]interface{} *)

Record Extern := {
  strconv_ParseFloat : string -> float64 * option Error;
  utf8_upperFirst : string -> string;
  int64_unrepresentable : float64 -> Z;
  json_Unmarshal : string -> gmap string iface * option Error;
  json_Marshal : iface -> string * option Error
}.

(** [int64(f)] for a float64 [f]. *)
Definition int64_of_float64 (ext : Extern) (f : float64) : Z :=
  match float64_trunc f with
  | Some v => if ((- 2 ^ 63 <=? v) && (v <? 2 ^ 63))%Z then v
              else int64_unrepresentable ext f
  | None => int64_unrepresentable ext f
  end.

(** *** A reference [strconv.ParseFloat]: the decimal syntax

    An optional sign, decimal digits with at most one point, an optional
    decimal exponent, and the special values; the value is rounded to
    nearest even and an overflow is a range error.  It is the instance at
    which the closed examples below are evaluated. *)

Definition lower (c : ascii) : ascii :=
  let n := nat_of_ascii c in
  if (65 <=? n) && (n <=? 90) then ascii_of_nat (n + 32) else c.

Fixpoint lower_string (s : string) : string :=
  match s with
  | EmptyString => EmptyString
  | String c r => String (lower c) (lower_string r)
  end.

Definition special (s : string) : option float64 :=
  match s with
  | EmptyString => None
  | String c r =>
      if Ascii.eqb c "+" || Ascii.eqb c "-" then
        let t := lower_string r in
        if String.eqb t "inf" || String.eqb t "infinity"
        then Some (S754_infinity (Ascii.eqb c "-")) else None
      else
        let t := lower_string s in
        if String.eqb t "inf" || String.eqb t "infinity" then Some (S754_infinity false)
        else if String.eqb t "nan" then Some S754_nan
        else None
  end.

(** Leading decimal digits of [s]: their value on top of [acc], how many
    there are, and what follows them. *)
Fixpoint scan_digits (s : string) (acc : Z) (n : nat) : Z * nat * string :=
  match s with
  | EmptyString => (acc, n, s)
  | String c r =>
      match digit_of c with
      | Some d => scan_digits r (acc * 10 + d)%Z (S n)
      | None => (acc, n, s)
      end
  end.

Definition scan_sign (s : string) : bool * string :=
  match s with
  | String c r =>
      if Ascii.eqb c "+" then (false, r)
      else if Ascii.eqb c "-" then (true, r)
      else (false, s)
  | EmptyString => (false, s)
  end.

(** The sign, the decimal mantissa and the decimal exponent of [s]. *)
Definition readFloat (s : string) : option (bool * Z * Z) :=
  let '(neg, s1) := scan_sign s in
  let '(m1, n1, s2) := scan_digits s1 0 0 in
  let '(m2, n2, s3) :=
    match s2 with
    | String c r => if Ascii.eqb c "." then scan_digits r m1 0 else (m1, 0, s2)
    | EmptyString => (m1, 0, s2)
    end in
  if n1 + n2 =? 0 then None
  else
    match s3 with
    | EmptyString => Some (neg, m2, (- Z.of_nat n2)%Z)
    | String c r =>
        if Ascii.eqb (lower c) "e" then
          let '(eneg, r1) := scan_sign r in
          let '(e, ne, r2) := scan_digits r1 0 0 in
          match ne, r2 with
          | S _, EmptyString =>
              Some (neg, m2, ((if eneg then - e else e) - Z.of_nat n2)%Z)
          | _, _ => None
          end
        else None
    end.

(** [m * 10 ^ e] as a binary64. *)
Definition decimal_to_float64 (neg : bool) (m e : Z) : float64 :=
  match m, e with
  | Zpos p, Zneg k =>
      SFdiv 53 1024 (S754_finite neg p 0) (S754_finite false (10 ^ k)%positive 0)
  | Zpos p, _ => binary_normalize 53 1024 (if neg then - (m * 10 ^ e) else m * 10 ^ e)%Z 0 neg
  | _, _ => S754_zero neg
  end.

Definition decimal_ParseFloat (s : string) : float64 * option Error :=
  match special s with
  | Some f => (f, None)
  | None =>
      match readFloat s with
      | None => (S754_zero false, Some (NumError "ParseFloat" s ErrSyntax))
      | Some (neg, m, e) =>
          match decimal_to_float64 neg m e with
          | S754_infinity sg => (S754_infinity sg, Some (NumError "ParseFloat" s ErrRange))
          | f => (f, None)
          end
      end
  end.

(** ** net/http: the request and the response writer

    A request carries what the transport answers when the dispatcher asks:
    the result of [r.ParseForm()] with the form it leaves in [r.Form], and
    the result of [ioutil.ReadAll(r.Body)]. *)

Record http_Request := {
  Method : string;
  URL_Path : string;
  ParseForm : option Error;
  Form : gmap string (list string);
  Body : string * option Error
}.

(** [status] is [None] until the header has been written. *)
Record ResponseWriter := {
  header : gmap string string;
  status : option nat;
  body : string
}.

Definition new_ResponseWriter : ResponseWriter :=
  {| header := ∅; status := None; body := EmptyString |}.

Definition Header_Set (k v : string) (w : ResponseWriter) : ResponseWriter :=
  {| header := <[k := v]> (header w); status := status w; body := body w |}.

(** A second [WriteHeader] is superfluous and changes nothing. *)
Definition WriteHeader (code : nat) (w : ResponseWriter) : ResponseWriter :=
  match status w with
  | None => {| header := header w; status := Some code; body := body w |}
  | Some _ => w
  end.

(** [Write] sends the header with 200 when none was written. *)
Definition Write (b : string) (w : ResponseWriter) : ResponseWriter :=
  let w1 := WriteHeader 200 w in
  {| header := header w1; status := status w1; body := body w1 +:+ b |}.

Definition StatusNotFound : nat := 404.
Definition StatusInternalServerError : nat := 500.
Definition JSON : string := "application/json".

(** Respond to a request where the controller is not found. *)
Definition notFound (w : ResponseWriter) : ResponseWriter :=
  Write (String.append "Resource Not Found." (String "010" EmptyString))
        (WriteHeader StatusNotFound w).

(** Respond to an unsupported request method. *)
Definition notSupported (w : ResponseWriter) : ResponseWriter :=
  Write (String.append "Request Method  is not supported." (String "010" EmptyString))
        (WriteHeader StatusNotFound w).

(** Respond to a request when something goes wrong. *)
Definition internalError (w : ResponseWriter) : ResponseWriter :=
  Write (String.append "Internal Server Error." (String "010" EmptyString))
        (WriteHeader StatusInternalServerError w).

(** [for k, v := range m]: Go visits every entry of a map once, in an order
    of the runtime's choosing.  [order] is that choice: the entries whose
    keys it lists come first, in its order, and the others follow.  The
    visits are then the permutations of the entries, all of them
    ([range_map_Permutation], [range_map_any_order]). *)
Definition range_map {V} (order : list string) (m : gmap string V) : list (string * V) :=
  omap (fun k => pair k <$> m !! k) (remove_dups order)
  ++ filter (fun kv => kv.1 ∉ order) (map_to_list m).

(** ** Running a request handler

    The body of a handler runs over the response writer and a log of the
    calls it made (the log is an observer: the code does not read it).  It
    ends normally, by a [return] in the middle, or in a panic. *)

Inductive Outcome (A : Type) :=
| Norm (a : A)
| Return_
| Panicking (v : PanicValue)
| OutOfFuel.
Arguments Norm {A} a.
Arguments Return_ {A}.
Arguments Panicking {A} v.
Arguments OutOfFuel {A}.

Record Run (Ev A : Type) := mkRun {
  run : ResponseWriter * list Ev -> Outcome A * (ResponseWriter * list Ev)
}.
Arguments mkRun {Ev A} run.
Arguments run {Ev A} r st.

Global Instance Run_ret {Ev} : MRet (Run Ev) := fun A a => mkRun (fun st => (Norm a, st)).
Global Instance Run_bind {Ev} : MBind (Run Ev) := fun A B f m =>
  mkRun (fun st =>
    match run m st with
    | (Norm a, st') => run (f a) st'
    | (Return_, st') => (Return_, st')
    | (Panicking v, st') => (Panicking v, st')
    | (OutOfFuel, st') => (OutOfFuel, st')
    end).

Definition emit {Ev} (e : Ev) : Run Ev unit :=
  mkRun (fun st => (Norm tt, (st.1, st.2 ++ [e]))).
Definition respond {Ev} (f : ResponseWriter -> ResponseWriter) : Run Ev unit :=
  mkRun (fun st => (Norm tt, (f st.1, st.2))).
Definition return_ {Ev A} : Run Ev A := mkRun (fun st => (Return_, st)).
Definition panic {Ev A} (v : PanicValue) : Run Ev A := mkRun (fun st => (Panicking v, st)).
Definition lift {Ev A} (m : exec A) : Run Ev A :=
  match m with
  | Val a => mret a
  | Panic v => panic v
  | Timeout => mkRun (fun st => (OutOfFuel, st))
  end.

(** ** The registries

    [getNode], [RegisterRoute] and [RegisterFilter] are the same text in
    both packages; they are written once here, over the type [N] of the
    nodes and [F] of the filters.  The registries are the package variables
    [routes] and [filters]: a function that reads one takes it as an
    argument and one that writes it returns the new one. *)

Section Registries.
Context {N F : Type}.

Definition getNode_of (routes : gmap string (gmap string N)) (method path : string)
  : option N * option Error :=
  match routes !! method with
  | Some nodes =>
      match nodes !! path with
      | Some v => (Some v, None)
      | None => (None, Some (errors_New "No Handler Found"))
      end
  | None => (None, Some (errors_New "No Handler Found"))
  end.

Definition RegisterFilter_of (filters : gmap string F) (name : string) (f : F)
  : gmap string F * option Error :=
  match filters !! name with
  | Some _ => (filters, Some (errors_New "Filter name is already registered"))
  | None => (<[name := f]> filters, None)
  end.

Definition RegisterRoute_of (routes : gmap string (gmap string N)) (method path : string) (n : N)
  : gmap string (gmap string N) * option Error :=
  let taken := match routes !! method with
               | Some nodes => bool_decide (is_Some (nodes !! path))
               | None => false
               end in
  if taken then (routes, Some (errors_New "Route path has already been registered"))
  else
    match routes !! method with
    | None => (<[method := <[path := n]> ∅]> routes, None)
    | Some nodes => (<[method := <[path := n]> nodes]> routes, None)
    end.

End Registries.

(** ** Package router: handlers with a typed input container *)

Module router.

Record RequestParam := { Value : iface }.

Abbreviation Request := (gmap string RequestParam).

(** The handler of a route (a [Node]) is a function from a pointer to a
    struct to a result and an error; the registry takes any value, and only
    the nodes of that shape are modelled.  [reflect] sees the struct type as
    its fields, each with a name, a kind and whether it is exported (and so
    can be set); the struct is flat.  The struct itself maps a field name to
    the field's value.  A call returns the two results of the handler, or
    panics. *)
Inductive Kind := Int64 | Float64 | Bool | String_ | OtherKind.

Record StructField := {
  field_Name : string;
  field_Kind : Kind;
  field_exported : bool
}.

Inductive FieldValue :=
| FInt (v : Z)
| FFloat (f : float64)
| FBool (b : bool)
| FString (s : string)
| FZero.                     (* the zero value of a field of another kind *)

Inductive CallResult :=
| Returns (result : iface) (err : option Error)
| CallPanics (v : PanicValue).

Record Node := {
  In0 : list StructField;
  Call : gmap string FieldValue -> CallResult
}.

Inductive HookResult :=
| HookReturns (req : Request) (err : option Error)    (* [req] as the hook leaves it *)
| HookPanics (v : PanicValue).

Record Filter := {
  Name : string;
  PreDispatch : http_Request -> Request -> HookResult;
  PostDispatch : http_Request -> Request -> HookResult
}.

Abbreviation nodeMap := (gmap string Node).
Abbreviation routeMap := (gmap string (gmap string Node)).
Abbreviation filterMap := (gmap string Filter).

(** The orders in which one request ranges over the parameter set (when
    binding) and over the filters (before and after the handler). *)
Record Orders := {
  order_bind : list string;
  order_pre : list string;
  order_post : list string
}.

(** The calls of one dispatch, with what each returned. *)
Inductive Event :=
| EvParseForm (err : option Error)
| EvParseGet (key : string) (err : option Error)
| EvParseBody (err : option Error)
| EvGetNode (method key : string) (err : option Error)
| EvSetInputParam (req : Request) (t : gmap string FieldValue) (err : option Error)
| EvPreDispatch (name : string) (req : Request) (res : HookResult)
| EvCall (t : gmap string FieldValue) (res : CallResult)
| EvPostDispatch (name : string) (req : Request) (res : HookResult)
| EvMarshal (err : option Error)
| EvNotFound
| EvNotSupported
| EvRecover (v : PanicValue).

(** Get the controller associated with the incoming request. *)
Definition getNode (routes : routeMap) (method path : string) : option Node * option Error :=
  getNode_of routes method path.

(** [for i := 4; i < l-1; i += 2 { req[s[i]] = &RequestParam{Value: s[i+1]} }] *)
Fixpoint parseGet_loop (fuel i : nat) (s : list string) (req : Request) : exec Request :=
  match fuel with
  | 0 => Timeout
  | S fuel' =>
      if i <? length s - 1 then
        v ← index s (i + 1);
        k ← index s i;
        parseGet_loop fuel' (i + 2) s (<[k := {| Value := VString v |}]> req)
      else Val req
  end.

(** [s[0:4]] *)
Definition slice_0_4 (s : list string) : exec (list string) :=
  if 4 <=? length s then Val (take 4 s)
  else Panic (RuntimeError "slice bounds out of range").

(** Parse the incoming request url for parameters. *)
Definition parseGet (r : http_Request) (req : Request)
  : exec (Request * (string * option Error)) :=
  let s := Split (EscapeString (TrimRight (URL_Path r) slash)) slash in
  let l := length s in
  if (l <=? 3) || negb (l mod 2 =? 0) then
    Val (req, (EmptyString, Some (errors_New "Not Found")))
  else
    req' ← parseGet_loop l 4 s req;
    key ← slice_0_4 s;
    Val (req', (Join key "/", None)).

(** Parse the request form for query parameters as well as post params.
    The keys of a form are distinct, so the order of the visit does not
    show in the result; [v[0]] panics on an empty slice. *)
Fixpoint parseForm_loop (kvs : list (string * list string)) (req : Request) : exec Request :=
  match kvs with
  | [] => Val req
  | (k, v) :: rest =>
      v0 ← index v 0;
      parseForm_loop rest (<[k := {| Value := VString v0 |}]> req)
  end.

Definition parseForm (r : http_Request) (req : Request) : exec Request :=
  parseForm_loop (map_to_list (Form r)) req.

(** function to get ensure first letter is caps *)
Definition upperFirst (ext : Extern) (s : string) : string :=
  match s with
  | EmptyString => EmptyString
  | String c rest =>
      let n := nat_of_ascii c in
      if n <? 128 then
        String (if (97 <=? n) && (n <=? 122) then ascii_of_nat (n - 32) else c) rest
      else utf8_upperFirst ext s
  end.

Definition FieldByName (p : list StructField) (k : string) : option StructField :=
  List.find (fun sv => String.eqb (field_Name sv) k) p.

Definition zero_of_kind (k : Kind) : FieldValue :=
  match k with
  | Int64 => FInt 0
  | Float64 => FFloat (S754_zero false)
  | Bool => FBool false
  | String_ => FString EmptyString
  | OtherKind => FZero
  end.

(** [reflect.New(p.Elem())]: every field at its zero value. *)
Definition reflect_New (p : list StructField) : gmap string FieldValue :=
  list_to_map ((fun sv => (field_Name sv, zero_of_kind (field_Kind sv))) <$> p).

(** [t.Elem().FieldByName(k).Set...(x)]: panics on an unexported field. *)
Definition reflect_Set (t : gmap string FieldValue) (sv : StructField) (x : FieldValue)
  : exec (gmap string FieldValue) :=
  if field_exported sv then Val (<[field_Name sv := x]> t)
  else Panic (RuntimeError "reflect: value obtained using unexported field").

(** [v.(string)] *)
Definition assert_string (v : iface) : exec string :=
  match v with
  | VString s => Val s
  | _ => Panic (RuntimeError "interface conversion: interface {} is not string")
  end.

Section WithExtern.
Variable ext : Extern.

(** Parse the body for a json parameter. *)
Definition parseBody (r : http_Request) (req : Request) : Request * option Error :=
  match Body r with
  | (_, Some err) => (req, Some err)
  | (body, None) =>
      match json_Unmarshal ext body with
      | (_, Some err) => (req, Some err)
      | (i, None) =>
          (map_fold (fun k v acc => <[k := {| Value := v |}]> acc) req i, None)
      end
  end.

(** Get an interger param *)
Definition RequestParam_int (p : RequestParam) : Z * option Error :=
  match Value p with
  | VString s => ParseInt s
  | VInt64 v => (v, None)
  | VFloat64 f => (int64_of_float64 ext f, None)
  | _ => ((-1)%Z, Some (errors_New "Not Found"))
  end.

(** Get a float param *)
Definition RequestParam_float (p : RequestParam) : float64 * option Error :=
  match Value p with
  | VString s => strconv_ParseFloat ext s
  | VInt64 v => (float64_of_int64 v, None)
  | VFloat64 f => (f, None)
  | _ => (float64_of_int64 (-1), Some (errors_New "Not Found"))
  end.

(** Get a boolean param *)
Definition RequestParam_bool (p : RequestParam) : bool * option Error :=
  match Value p with
  | VString s => ParseBool s
  | VBool b => (b, None)
  | _ => (false, Some (errors_New "Not Found"))
  end.

(** The body of the loop of [setInputParam] over the entries [kvs] of the
    parameter set, in the order of the visit. *)
Fixpoint setInputParam_loop (p : list StructField) (kvs : list (string * RequestParam))
    (t : gmap string FieldValue) : exec (gmap string FieldValue * option Error) :=
  match kvs with
  | [] => Val (t, None)
  | (k0, v) :: rest =>
      let k := upperFirst ext k0 in
      match FieldByName p k with
      | None => Val (t, Some (errors_New "Not Found"))
      | Some sv =>
          match field_Kind sv with
          | Int64 =>
              match RequestParam_int v with
              | (_, Some err) => Val (t, Some err)
              | (value, None) =>
                  t' ← reflect_Set t sv (FInt value); setInputParam_loop p rest t'
              end
          | Float64 =>
              match RequestParam_float v with
              | (_, Some err) => Val (t, Some err)
              | (value, None) =>
                  t' ← reflect_Set t sv (FFloat value); setInputParam_loop p rest t'
              end
          | Bool =>
              match RequestParam_bool v with
              | (_, Some err) => Val (t, Some err)
              | (value, None) =>
                  t' ← reflect_Set t sv (FBool value); setInputParam_loop p rest t'
              end
          | String_ =>
              s ← assert_string (Value v);
              t' ← reflect_Set t sv (FString s); setInputParam_loop p rest t'
          | OtherKind => Val (t, Some (errors_New "Not Found"))
          end
      end
  end.

(** This is responsible for setting up the input parameter of a handler *)
Definition setInputParam (order : list string) (i : Node) (req : Request)
  : exec (gmap string FieldValue * option Error) :=
  let p := In0 i in
  setInputParam_loop p (range_map order req) (reflect_New p).

End WithExtern.

(** Register a filter *)
Definition RegisterFilter (filters : filterMap) (name : string) (f : Filter)
  : filterMap * option Error :=
  RegisterFilter_of filters name f.

(** Register a route. *)
Definition RegisterRoute (routes : routeMap) (method path : string) (n : Node)
  : routeMap * option Error :=
  RegisterRoute_of routes method path n.

(** Run all registered filters predispatch function, in the order [fs] of
    the visit; [req] is the parameter set the hooks share. *)
Fixpoint preDispatch_loop (r : http_Request) (fs : list (string * Filter)) (req : Request)
  : Run Event (Request * option Error) :=
  match fs with
  | [] => mret (req, None)
  | (name, v) :: rest =>
      let res := PreDispatch v r req in
      _ ← emit (EvPreDispatch name req res);
      match res with
      | HookPanics pv => panic pv
      | HookReturns req' (Some err) => mret (req', Some err)
      | HookReturns req' None => preDispatch_loop r rest req'
      end
  end.

Definition preDispatch (filters : filterMap) (order : list string)
    (r : http_Request) (req : Request) : Run Event (Request * option Error) :=
  preDispatch_loop r (range_map order filters) req.

(** Run all registered filters postdispatch function. *)
Fixpoint postDispatch_loop (r : http_Request) (fs : list (string * Filter)) (req : Request)
  : Run Event (Request * option Error) :=
  match fs with
  | [] => mret (req, None)
  | (name, v) :: rest =>
      let res := PostDispatch v r req in
      _ ← emit (EvPostDispatch name req res);
      match res with
      | HookPanics pv => panic pv
      | HookReturns req' (Some err) => mret (req', Some err)
      | HookReturns req' None => postDispatch_loop r rest req'
      end
  end.

Definition postDispatch (filters : filterMap) (order : list string)
    (r : http_Request) (req : Request) : Run Event (Request * option Error) :=
  postDispatch_loop r (range_map order filters) req.

Definition panic_on (err : option Error) : Run Event unit :=
  match err with
  | Some e => panic (PanicError e)
  | None => mret tt
  end.

Section Dispatch.
Variable ext : Extern.
Variable routes : routeMap.
Variable filters : filterMap.
Variable ord : Orders.

(** The body of [Dispatch], from [r.ParseForm()] on. *)
Definition Dispatch_body (r : http_Request) : Run Event unit :=
  let req : Request := ∅ in
  _ ← emit (EvParseForm (ParseForm r));
  _ ← panic_on (ParseForm r);
  '(routeKey, req) ←
    (if String.eqb (Method r) "GET" || String.eqb (Method r) "DELETE" then
       '(req, (routeKey, err)) ← lift (parseGet r req);
       _ ← emit (EvParseGet routeKey err);
       match err with
       | Some _ => _ ← emit EvNotFound; _ ← respond notFound; return_
       | None => mret (routeKey, req)
       end
     else if String.eqb (Method r) "POST" then
       let routeKey := URL_Path r in
       let '(req, err) := parseBody ext r req in
       _ ← emit (EvParseBody err);
       _ ← panic_on err;
       mret (routeKey, req)
     else
       _ ← emit EvNotSupported; _ ← respond notSupported; return_);
  let '(c, err) := getNode routes (Method r) routeKey in
  _ ← emit (EvGetNode (Method r) routeKey err);
  match c, err with
  | Some i, None =>
      '(t, err) ← lift (setInputParam ext (order_bind ord) i req);
      _ ← emit (EvSetInputParam req t err);
      match err with
      | Some _ => _ ← emit EvNotFound; _ ← respond notFound; return_
      | None =>
          req ← lift (parseForm r req);
          '(req, err) ← preDispatch filters (order_pre ord) r req;
          _ ← panic_on err;
          let cont := Call i t in
          _ ← emit (EvCall t cont);
          match cont with
          | CallPanics pv => panic pv
          | Returns result err =>
              _ ← panic_on err;
              '(req, err) ← postDispatch filters (order_post ord) r req;
              _ ← panic_on err;
              let '(data, err) := json_Marshal ext result in
              _ ← emit (EvMarshal err);
              _ ← panic_on err;
              respond (Write data)
          end
      end
  | _, _ => _ ← emit EvNotFound; _ ← respond notFound; return_
  end.

(** Dispatch a Request: the content type is set, the body runs, and the
    deferred function recovers a panic into the internal error response. *)
Definition Dispatch (w : ResponseWriter) (r : http_Request)
  : exec (ResponseWriter * list Event) :=
  match run (Dispatch_body r) (Header_Set "Content-Type" JSON w, []) with
  | (Panicking v, (w', log)) => Val (internalError w', log ++ [EvRecover v])
  | (OutOfFuel, _) => Timeout
  | (_, st) => Val st
  end.

End Dispatch.

End router.

(** ** Package go_router: handlers over the parameter set *)

Module go_router.

Definition INT : string := "{Int}".
Definition FLOAT : string := "{Float}".
Definition BOOL : string := "{Bool}".
Definition STRING : string := "{String}".

Record RequestParam := { Type_ : string; Value : iface }.

Abbreviation Request := (gmap string RequestParam).

Inductive CallResult :=
| Returns (result : iface) (err : option Error)
| CallPanics (v : PanicValue).

(** A [Node] is a function from the parameter set to a result and an error
    (the handlers modelled leave the parameter set as they find it). *)
Record Node := { Call : Request -> CallResult }.

Inductive HookResult :=
| HookReturns (req : Request) (err : option Error)
| HookPanics (v : PanicValue).

Record Filter := {
  Name : string;
  PreDispatch : http_Request -> Request -> HookResult;
  PostDispatch : http_Request -> Request -> HookResult
}.

Abbreviation NodeMap := (gmap string Node).
Abbreviation RouteMap := (gmap string (gmap string Node)).
Abbreviation FilterMap := (gmap string Filter).

Record Orders := {
  order_pre : list string;
  order_post : list string
}.

Inductive Event :=
| EvParseForm (err : option Error)
| EvParseGet (key : string)
| EvParseBody (err : option Error)
| EvPreDispatch (name : string) (req : Request) (res : HookResult)
| EvGetNode (method key : string) (err : option Error)
| EvCall (req : Request) (res : CallResult)
| EvPostDispatch (name : string) (req : Request) (res : HookResult)
| EvMarshal (err : option Error)
| EvNotFound
| EvNotSupported
| EvRecover (v : PanicValue).

(** [v.(string)] *)
Definition assert_string (v : iface) : exec string :=
  match v with
  | VString s => Val s
  | _ => Panic (RuntimeError "interface conversion: interface {} is not string")
  end.

(** Get an interger, a float, a boolean, a string param *)
Definition RequestParam_Int (p : RequestParam) : exec Z :=
  match Value p with
  | VInt64 v => Val v
  | _ => Panic (RuntimeError "interface conversion: interface {} is not int64")
  end.

Definition RequestParam_Float (p : RequestParam) : exec float64 :=
  match Value p with
  | VFloat64 f => Val f
  | _ => Panic (RuntimeError "interface conversion: interface {} is not float64")
  end.

Definition RequestParam_Bool (p : RequestParam) : exec bool :=
  match Value p with
  | VBool b => Val b
  | _ => Panic (RuntimeError "interface conversion: interface {} is not bool")
  end.

Definition RequestParam_String (p : RequestParam) : exec string :=
  assert_string (Value p).

(** Get the controller associated with the incoming request. *)
Definition getNode (routes : RouteMap) (method path : string) : option Node * option Error :=
  getNode_of routes method path.

(** Register a filter. *)
Definition RegisterFilter (filters : FilterMap) (name : string) (f : Filter)
  : FilterMap * option Error :=
  RegisterFilter_of filters name f.

(** Register a route. *)
Definition RegisterRoute (routes : RouteMap) (method path : string) (n : Node)
  : RouteMap * option Error :=
  RegisterRoute_of routes method path n.

Section WithExtern.
Variable ext : Extern.

(** Function returns a request parameter. Accepted types are int64,
    float64, bool and string. *)
Definition toParam (i : iface) : exec RequestParam :=
  s ← assert_string i;
  match ParseInt s with
  | (v, None) => Val {| Value := VInt64 v; Type_ := INT |}
  | (_, Some _) =>
      match strconv_ParseFloat ext s with
      | (v, None) => Val {| Value := VFloat64 v; Type_ := FLOAT |}
      | (_, Some _) =>
          match ParseBool s with
          | (v, None) => Val {| Value := VBool v; Type_ := BOOL |}
          | (_, Some _) => Val {| Value := VString s; Type_ := STRING |}
          end
      end
  end.

(** [for i := 4; i < l; i += 2 { t := toParam(s[i+1]); req[s[i]] = &t; s[i+1] = t.Type }] *)
Fixpoint parseGet_loop (fuel i : nat) (s : list string) (req : Request)
  : exec (list string * Request) :=
  match fuel with
  | 0 => Timeout
  | S fuel' =>
      if i <? length s then
        v ← index s (i + 1);
        t ← toParam (VString v);
        k ← index s i;
        parseGet_loop fuel' (i + 2) (<[i + 1 := Type_ t]> s) (<[k := t]> req)
      else Val (s, req)
  end.

(** Parse the incoming request url for parameters. *)
Definition parseGet (r : http_Request) (req : Request) : exec (Request * string) :=
  let s := Split (EscapeString (TrimRight (URL_Path r) slash)) slash in
  let l := length s in
  '(s', req') ← parseGet_loop l 4 s req;
  Val (req', Join s' "/").

(** Parse the request form for query parameters as well as post params. *)
Fixpoint parseForm_loop (kvs : list (string * list string)) (req : Request) : exec Request :=
  match kvs with
  | [] => Val req
  | (k, v) :: rest =>
      v0 ← index v 0;
      t ← toParam (VString v0);
      parseForm_loop rest (<[k := t]> req)
  end.

Definition parseForm (r : http_Request) (req : Request) : exec Request :=
  parseForm_loop (map_to_list (Form r)) req.

(** Parse the body for a json parameter. *)
Definition parseBody (r : http_Request) (req : Request) : Request * option Error :=
  match Body r with
  | (_, Some err) => (req, Some err)
  | (body, None) =>
      match json_Unmarshal ext body with
      | (_, Some err) => (req, Some err)
      | (i, None) =>
          (map_fold (fun k v acc => <[k := {| Value := v; Type_ := EmptyString |}]> acc) req i,
           None)
      end
  end.

End WithExtern.

(** Run all registered filters predispatch function. *)
Fixpoint preDispatch_loop (r : http_Request) (fs : list (string * Filter)) (req : Request)
  : Run Event (Request * option Error) :=
  match fs with
  | [] => mret (req, None)
  | (name, v) :: rest =>
      let res := PreDispatch v r req in
      _ ← emit (EvPreDispatch name req res);
      match res with
      | HookPanics pv => panic pv
      | HookReturns req' (Some err) => mret (req', Some err)
      | HookReturns req' None => preDispatch_loop r rest req'
      end
  end.

Definition preDispatch (filters : FilterMap) (order : list string)
    (r : http_Request) (req : Request) : Run Event (Request * option Error) :=
  preDispatch_loop r (range_map order filters) req.

(** Run all registered filters postdispatch function. *)
Fixpoint postDispatch_loop (r : http_Request) (fs : list (string * Filter)) (req : Request)
  : Run Event (Request * option Error) :=
  match fs with
  | [] => mret (req, None)
  | (name, v) :: rest =>
      let res := PostDispatch v r req in
      _ ← emit (EvPostDispatch name req res);
      match res with
      | HookPanics pv => panic pv
      | HookReturns req' (Some err) => mret (req', Some err)
      | HookReturns req' None => postDispatch_loop r rest req'
      end
  end.

Definition postDispatch (filters : FilterMap) (order : list string)
    (r : http_Request) (req : Request) : Run Event (Request * option Error) :=
  postDispatch_loop r (range_map order filters) req.

Definition panic_on (err : option Error) : Run Event unit :=
  match err with
  | Some e => panic (PanicError e)
  | None => mret tt
  end.

Section Dispatch.
Variable ext : Extern.
Variable routes : RouteMap.
Variable filters : FilterMap.
Variable ord : Orders.

(** The body of [Dispatch], from [r.ParseForm()] on.  The default case of
    the switch on the method has no [return]. *)
Definition Dispatch_body (r : http_Request) : Run Event unit :=
  let req : Request := ∅ in
  _ ← emit (EvParseForm (ParseForm r));
  _ ← panic_on (ParseForm r);
  '(routeKey, req) ←
    (if String.eqb (Method r) "GET" || String.eqb (Method r) "DELETE" then
       '(req, routeKey) ← lift (parseGet ext r req);
       _ ← emit (EvParseGet routeKey);
       req ← lift (parseForm ext r req);
       mret (routeKey, req)
     else if String.eqb (Method r) "POST" then
       let routeKey := URL_Path r in
       let '(req, err) := parseBody ext r req in
       _ ← emit (EvParseBody err);
       _ ← panic_on err;
       req ← lift (parseForm ext r req);
       mret (routeKey, req)
     else
       _ ← emit EvNotSupported; _ ← respond notSupported;
       mret (EmptyString, req));
  '(req, err) ← preDispatch filters (order_pre ord) r req;
  _ ← panic_on err;
  let '(c, err) := getNode routes (Method r) routeKey in
  _ ← emit (EvGetNode (Method r) routeKey err);
  match c, err with
  | Some c, None =>
      let i := Call c req in
      _ ← emit (EvCall req i);
      match i with
      | CallPanics pv => panic pv
      | Returns result err =>
          _ ← panic_on err;
          '(req, err) ← postDispatch filters (order_post ord) r req;
          _ ← panic_on err;
          let '(data, err) := json_Marshal ext result in
          _ ← emit (EvMarshal err);
          _ ← panic_on err;
          respond (Write data)
      end
  | _, _ => _ ← emit EvNotFound; _ ← respond notFound; return_
  end.

(** Dispatch a Request. *)
Definition Dispatch (w : ResponseWriter) (r : http_Request)
  : exec (ResponseWriter * list Event) :=
  match run (Dispatch_body r) (Header_Set "Content-Type" JSON w, []) with
  | (Panicking v, (w', log)) => Val (internalError w', log ++ [EvRecover v])
  | (OutOfFuel, _) => Timeout
  | (_, st) => Val st
  end.

End Dispatch.

End go_router.

(** ** Vocabulary of the properties *)

(** [n] slashes. *)
Fixpoint slashes (n : nat) : string :=
  match n with
  | 0 => EmptyString
  | S n' => String slash (slashes n')
  end.

Definition with_path (r : http_Request) (path : string) : http_Request :=
  {| Method := Method r; URL_Path := path; ParseForm := ParseForm r;
     Form := Form r; Body := Body r |}.

Definition GET (path : string) : http_Request :=
  {| Method := "GET"; URL_Path := path; ParseForm := None; Form := ∅;
     Body := (EmptyString, None) |}.

(** [j] is the index of a parameter name when the loop starts at [i]. *)
Definition param_index (s : list string) (i j : nat) : Prop :=
  (exists n, j = i + 2 * n) /\ j + 1 < length s.

(** The segments of a path as the specification describes them: the path
    is escaped, its trailing slashes are trimmed, and it is split. *)
Definition specified_segments (path : string) : list string :=
  Split (TrimRight (EscapeString path) slash) slash.

(** [r] is a result without an error. *)
Definition succeeds {A} (r : A * option Error) : Prop := r.2 = None.

(** An instance of the libraries for the closed examples: the reference
    decimal [ParseFloat], strings that start with a non-ASCII byte left as
    they are by [upperFirst], the amd64 answer for a float64 without an
    int64 value, every body decoded to [decoded], and every result encoded
    as [null]. *)
Definition example_extern (decoded : gmap string iface) : Extern :=
  {| strconv_ParseFloat := decimal_ParseFloat;
     utf8_upperFirst := fun s => s;
     int64_unrepresentable := fun _ => (- 2 ^ 63)%Z;
     json_Unmarshal := fun _ => (decoded, None);
     json_Marshal := fun _ => ("null", None) |}.

(** The node registered for a method and a path key, if any. *)
Definition lookup_route {N} (routes : gmap string (gmap string N)) (m p : string) : option N :=
  match routes !! m with
  | Some nodes => nodes !! p
  | None => None
  end.

(** A sequence of calls of a registration function [reg], with the error
    each call returned. *)
Fixpoint register_all {N} (reg : gmap string (gmap string N) -> string -> string -> N ->
                                 gmap string (gmap string N) * option Error)
    (routes : gmap string (gmap string N)) (calls : list (string * string * N))
  : gmap string (gmap string N) * list (option Error) :=
  match calls with
  | [] => (routes, [])
  | (m, p, n) :: rest =>
      let '(routes', err) := reg routes m p n in
      let '(final, errs) := register_all reg routes' rest in
      (final, err :: errs)
  end.

Definition same_route {N} (m p : string) (c : string * string * N) : bool :=
  String.eqb c.1.1 m && String.eqb c.1.2 p.

(** The node of the first call for a method and a path. *)
Definition first_call {N} (calls : list (string * string * N)) (m p : string) : option N :=
  snd <$> List.find (same_route m p) calls.

(** How many calls for a method and a path returned no error. *)
Fixpoint successes {N} (m p : string) (calls : list (string * string * N))
    (errs : list (option Error)) : nat :=
  match calls, errs with
  | c :: cs, None :: es => (if same_route m p c then 1 else 0) + successes m p cs es
  | _ :: cs, Some _ :: es => successes m p cs es
  | _, _ => 0
  end.

Definition duplicate_route : Error := errors_New "Route path has already been registered".

(** *** The runs of [router.Dispatch]

    The relations below describe, stage by stage, how a dispatch of
    package router can go, with the log each course leaves; that
    [router.Dispatch] follows one of them is proved in the properties. *)

Module lifecycle.
Import router.

Section Lifecycle.
Variable ext : Extern.
Variable routes : routeMap.
Variable filters : filterMap.
Variable ord : Orders.
Variable r : http_Request.

(** The pre-dispatch hooks of [fs] run in turn from the parameter set
    [req]: what the loop answers and the calls it logs. *)
Inductive pre_ran : list (string * Filter) -> Request ->
                    Outcome (Request * option Error) -> list Event -> Prop :=
| pre_done req : pre_ran [] req (Norm (req, None)) []
| pre_next n f fs req req' out evs :
    PreDispatch f r req = HookReturns req' None ->
    pre_ran fs req' out evs ->
    pre_ran ((n, f) :: fs) req out (EvPreDispatch n req (HookReturns req' None) :: evs)
| pre_failed n f fs req req' e :
    PreDispatch f r req = HookReturns req' (Some e) ->
    pre_ran ((n, f) :: fs) req (Norm (req', Some e))
            [EvPreDispatch n req (HookReturns req' (Some e))]
| pre_panicked n f fs req v :
    PreDispatch f r req = HookPanics v ->
    pre_ran ((n, f) :: fs) req (Panicking v) [EvPreDispatch n req (HookPanics v)].

Inductive post_ran : list (string * Filter) -> Request ->
                     Outcome (Request * option Error) -> list Event -> Prop :=
| post_done req : post_ran [] req (Norm (req, None)) []
| post_next n f fs req req' out evs :
    PostDispatch f r req = HookReturns req' None ->
    post_ran fs req' out evs ->
    post_ran ((n, f) :: fs) req out (EvPostDispatch n req (HookReturns req' None) :: evs)
| post_failed n f fs req req' e :
    PostDispatch f r req = HookReturns req' (Some e) ->
    post_ran ((n, f) :: fs) req (Norm (req', Some e))
             [EvPostDispatch n req (HookReturns req' (Some e))]
| post_panicked n f fs req v :
    PostDispatch f r req = HookPanics v ->
    post_ran ((n, f) :: fs) req (Panicking v) [EvPostDispatch n req (HookPanics v)].

Definition supported (m : string) : Prop := m = "GET" \/ m = "DELETE" \/ m = "POST".

(** The form is parsed and the path or the body gave the route key [key]
    and the parameter set [req]. *)
Inductive parsed : string -> Request -> list Event -> Prop :=
| parsed_path key req :
    ParseForm r = None ->
    Method r = "GET" \/ Method r = "DELETE" ->
    parseGet r ∅ = Val (req, (key, None)) ->
    parsed key req [EvParseForm None; EvParseGet key None]
| parsed_body req :
    ParseForm r = None ->
    Method r = "POST" ->
    parseBody ext r ∅ = (req, None) ->
    parsed (URL_Path r) req [EvParseForm None; EvParseBody None].

(** The route has the handler [i] and the parameters [req] of the path or
    the body are bound into its input [t]. *)
Inductive bound : Node -> Request -> gmap string FieldValue -> list Event -> Prop :=
| bound_intro key req log i t :
    parsed key req log ->
    getNode routes (Method r) key = (Some i, None) ->
    setInputParam ext (order_bind ord) i req = Val (t, None) ->
    bound i req t (log ++ [EvGetNode (Method r) key None; EvSetInputParam req t None]).

(** The form is merged into the parameter set and every pre-dispatch hook
    passed, leaving the parameter set [req2]. *)
Inductive prefiltered : Node -> gmap string FieldValue -> Request -> list Event -> Prop :=
| prefiltered_intro i req t log req1 req2 evs :
    bound i req t log ->
    parseForm r req = Val req1 ->
    pre_ran (range_map (order_pre ord) filters) req1 (Norm (req2, None)) evs ->
    prefiltered i t req2 (log ++ evs).

(** The handler returned [result] and every post-dispatch hook passed. *)
Inductive postfiltered : iface -> list Event -> Prop :=
| postfiltered_intro i t req2 log result req3 evs :
    prefiltered i t req2 log ->
    Call i t = Returns result None ->
    post_ran (range_map (order_post ord) filters) req2 (Norm (req3, None)) evs ->
    postfiltered result (log ++ EvCall t (Returns result None) :: evs).

(** The body of [Dispatch] panics with [v] after the calls of [log]. *)
Inductive panics : PanicValue -> list Event -> Prop :=
| panics_form e :
    ParseForm r = Some e ->
    panics (PanicError e) [EvParseForm (Some e)]
| panics_body req e :
    ParseForm r = None ->
    Method r = "POST" ->
    parseBody ext r ∅ = (req, Some e) ->
    panics (PanicError e) [EvParseForm None; EvParseBody (Some e)]
| panics_bind key req log i v :
    parsed key req log ->
    getNode routes (Method r) key = (Some i, None) ->
    setInputParam ext (order_bind ord) i req = Panic v ->
    panics v (log ++ [EvGetNode (Method r) key None])
| panics_merge i req t log v :
    bound i req t log ->
    parseForm r req = Panic v ->
    panics v log
| panics_pre_failed i req t log req1 req2 e evs :
    bound i req t log ->
    parseForm r req = Val req1 ->
    pre_ran (range_map (order_pre ord) filters) req1 (Norm (req2, Some e)) evs ->
    panics (PanicError e) (log ++ evs)
| panics_pre_panicked i req t log req1 v evs :
    bound i req t log ->
    parseForm r req = Val req1 ->
    pre_ran (range_map (order_pre ord) filters) req1 (Panicking v) evs ->
    panics v (log ++ evs)
| panics_call_failed i t req2 log result e :
    prefiltered i t req2 log ->
    Call i t = Returns result (Some e) ->
    panics (PanicError e) (log ++ [EvCall t (Returns result (Some e))])
| panics_call_panicked i t req2 log v :
    prefiltered i t req2 log ->
    Call i t = CallPanics v ->
    panics v (log ++ [EvCall t (CallPanics v)])
| panics_post_failed i t req2 log result req3 e evs :
    prefiltered i t req2 log ->
    Call i t = Returns result None ->
    post_ran (range_map (order_post ord) filters) req2 (Norm (req3, Some e)) evs ->
    panics (PanicError e) (log ++ EvCall t (Returns result None) :: evs)
| panics_post_panicked i t req2 log result v evs :
    prefiltered i t req2 log ->
    Call i t = Returns result None ->
    post_ran (range_map (order_post ord) filters) req2 (Panicking v) evs ->
    panics v (log ++ EvCall t (Returns result None) :: evs)
| panics_marshal result log data e :
    postfiltered result log ->
    json_Marshal ext result = (data, Some e) ->
    panics (PanicError e) (log ++ [EvMarshal (Some e)]).

(** The body of [Dispatch] writes the resource-not-found response and
    returns after the calls of [log]. *)
Inductive not_found : list Event -> Prop :=
| not_found_path req key e :
    ParseForm r = None ->
    Method r = "GET" \/ Method r = "DELETE" ->
    parseGet r ∅ = Val (req, (key, Some e)) ->
    not_found [EvParseForm None; EvParseGet key (Some e); EvNotFound]
| not_found_route key req log e :
    parsed key req log ->
    getNode routes (Method r) key = (None, Some e) ->
    not_found (log ++ [EvGetNode (Method r) key (Some e); EvNotFound])
| not_found_bind key req log i t e :
    parsed key req log ->
    getNode routes (Method r) key = (Some i, None) ->
    setInputParam ext (order_bind ord) i req = Val (t, Some e) ->
    not_found (log ++ [EvGetNode (Method r) key None; EvSetInputParam req t (Some e);
                       EvNotFound]).

(** The courses of [Dispatch] from the response writer [w]: the response
    written and the log. *)
Inductive dispatched (w : ResponseWriter) : ResponseWriter -> list Event -> Prop :=
| dispatched_fatal v log :
    panics v log ->
    dispatched w (internalError (Header_Set "Content-Type" JSON w)) (log ++ [EvRecover v])
| dispatched_not_found log :
    not_found log ->
    dispatched w (notFound (Header_Set "Content-Type" JSON w)) log
| dispatched_not_supported :
    ParseForm r = None ->
    ~ supported (Method r) ->
    dispatched w (notSupported (Header_Set "Content-Type" JSON w))
               [EvParseForm None; EvNotSupported]
| dispatched_ok result log data :
    postfiltered result log ->
    json_Marshal ext result = (data, None) ->
    dispatched w (Write data (Header_Set "Content-Type" JSON w)) (log ++ [EvMarshal None]).

(** Every binding in the log read the parameters of the path or the body. *)
Definition binds_parsed (log : list Event) : Prop :=
  forall req t err, EvSetInputParam req t err ∈ log ->
    exists key log0 i,
      parsed key req log0 /\
      getNode routes (Method r) key = (Some i, None) /\
      setInputParam ext (order_bind ord) i req = Val (t, err).

End Lifecycle.
End lifecycle.

(** The stage of the dispatch a logged call belongs to, in the order of the
    code: the form, the path or the body, the route, the binding, the
    pre-dispatch hooks, the handler, the post-dispatch hooks, the encoding,
    and then the marks of the response written outside the success path. *)
Definition stage (e : router.Event) : nat :=
  match e with
  | router.EvParseForm _ => 1
  | router.EvParseGet _ _ | router.EvParseBody _ => 2
  | router.EvGetNode _ _ _ => 3
  | router.EvSetInputParam _ _ _ => 4
  | router.EvPreDispatch _ _ _ => 5
  | router.EvCall _ _ => 6
  | router.EvPostDispatch _ _ _ => 7
  | router.EvMarshal _ => 8
  | router.EvNotFound | router.EvNotSupported | router.EvRecover _ => 9
  end.

(** What a logged call means for the request, as the specification classes
    the failures: the call passed; it failed in the not-found class (the
    path, the route, the binding); it failed fatally (the form, the body of
    a POST, a hook, the handler, the encoding), with the value a panic for
    it carries; or it is a mark of the response. *)
Inductive Verdict :=
| Passed
| Missing
| Fatal (v : PanicValue)
| Mark.

Definition verdict_of_error (err : option Error) : Verdict :=
  match err with
  | None => Passed
  | Some e => Fatal (PanicError e)
  end.

Definition verdict_of_missing (err : option Error) : Verdict :=
  match err with
  | None => Passed
  | Some _ => Missing
  end.

Definition verdict (e : router.Event) : Verdict :=
  match e with
  | router.EvParseForm err => verdict_of_error err
  | router.EvParseGet _ err => verdict_of_missing err
  | router.EvParseBody err => verdict_of_error err
  | router.EvGetNode _ _ err => verdict_of_missing err
  | router.EvSetInputParam _ _ err => verdict_of_missing err
  | router.EvPreDispatch _ _ (router.HookReturns _ err) => verdict_of_error err
  | router.EvPreDispatch _ _ (router.HookPanics v) => Fatal v
  | router.EvCall _ (router.Returns _ err) => verdict_of_error err
  | router.EvCall _ (router.CallPanics v) => Fatal v
  | router.EvPostDispatch _ _ (router.HookReturns _ err) => verdict_of_error err
  | router.EvPostDispatch _ _ (router.HookPanics v) => Fatal v
  | router.EvMarshal err => verdict_of_error err
  | router.EvNotFound | router.EvNotSupported | router.EvRecover _ => Mark
  end.

Definition passed_upto (n : nat) (e : router.Event) : Prop :=
  verdict e = Passed /\ stage e <= n.

(** The response writer [Dispatch] works on, for a fresh one. *)
Definition fresh_writer : ResponseWriter :=
  Header_Set "Content-Type" JSON new_ResponseWriter.

(** Every value of the form is in the parameter set, under its key. *)
Definition form_merged (r : http_Request) (req : router.Request) : Prop :=
  forall k v, Form r !! k = Some v ->
    exists v0, v !! 0 = Some v0 /\ req !! k = Some {| router.Value := VString v0 |}.

(** The part of a log that follows the pre-dispatch hooks: every call of
    the handler in it has the input [t]. *)
Definition after_hooks (t : gmap string router.FieldValue) (e : router.Event) : Prop :=
  6 <= stage e /\ forall t' res, e = router.EvCall t' res -> t' = t.

(** The panic a loop over the hooks ends the dispatch with, if any: the
    error a hook returned, with which [Dispatch] panics, or the panic of the
    hook itself. *)
Definition hook_failure {A} (out : Outcome (A * option Error)) : option PanicValue :=
  match out with
  | Norm (_, Some e) => Some (PanicError e)
  | Panicking v => Some v
  | _ => None
  end.

(** The same for the call of the handler. *)
Definition call_failure (res : router.CallResult) : option PanicValue :=
  match res with
  | router.Returns _ (Some e) => Some (PanicError e)
  | router.CallPanics v => Some v
  | router.Returns _ None => None
  end.

(** [Dispatch], on a fresh response writer, recovers the panic [v] after the
    calls of [plog] and answers with the internal error. *)
Definition recovered (ext : Extern) (routes : router.routeMap) (filters : router.filterMap)
    (ord : router.Orders) (r : http_Request) (v : PanicValue) (plog : list router.Event)
  : Prop :=
  router.Dispatch ext routes filters ord new_ResponseWriter r
  = Val (internalError fresh_writer, plog ++ [router.EvRecover v]).

(** *** The objects of the closed examples *)

Definition user_struct : list router.StructField :=
  [ {| router.field_Name := "Id"; router.field_Kind := router.Int64;
       router.field_exported := true |};
    {| router.field_Name := "Name"; router.field_Kind := router.String_;
       router.field_exported := true |} ].

Definition GetUser : router.Node :=
  {| router.In0 := user_struct;
     router.Call := fun _ => router.Returns (VString "user") None |}.

Definition example_routes : router.routeMap :=
  (router.RegisterRoute
     (router.RegisterRoute ∅ "GET" "/v1/test/retrieve" GetUser).1
     "POST" "/v1/test/save" GetUser).1.

Definition deny : router.Filter :=
  {| router.Name := "auth";
     router.PreDispatch := fun _ req => router.HookReturns req (Some (errors_New "denied"));
     router.PostDispatch := fun _ req => router.HookReturns req None |}.

Definition example_filters : router.filterMap := (router.RegisterFilter ∅ "auth" deny).1.

Definition example_orders : router.Orders :=
  {| router.order_bind := ["id"; "name"];
     router.order_pre := ["auth"];
     router.order_post := ["auth"] |}.

Definition PUT_bad_form : http_Request :=
  {| Method := "PUT"; URL_Path := "/v1/test/retrieve";
     ParseForm := Some (ExternError "invalid URL escape"); Form := ∅;
     Body := (EmptyString, None) |}.

Definition PUT_ok : http_Request :=
  {| Method := "PUT"; URL_Path := "/v1/test/retrieve";
     ParseForm := None; Form := ∅; Body := (EmptyString, None) |}.

Definition string_or_number (v : iface) : Prop :=
  match v with
  | VString _ | VInt64 _ | VFloat64 _ => True
  | _ => False
  end.

(** An accessor [acc], whose strings are parsed by [parse], fails on a
    string, an int64 or a float64 only when the string does not parse. *)
Definition fails_only_on_unparsable {A} (acc : router.RequestParam -> A * option Error)
    (parse : string -> A * option Error) : Prop :=
  forall p, string_or_number (router.Value p) -> ~ succeeds (acc p) ->
    exists s, router.Value p = VString s /\ ~ succeeds (parse s).

Definition not_found_error : Error := errors_New "Not Found".

Definition GET_with_form : http_Request :=
  {| Method := "GET"; URL_Path := "/v1/test/retrieve"; ParseForm := None;
     Form := {[ "id" := ["42"] ]}; Body := (EmptyString, None) |}.

(** The float64 5, as encoding/json decodes the number 5. *)
Definition five : float64 := S754_finite false 5629499534213120 (-50).

Definition POST_name_5 : http_Request :=
  {| Method := "POST"; URL_Path := "/v1/test/save"; ParseForm := None; Form := ∅;
     Body := (String.append "{" (String dquote (String.append "name"
                (String dquote ": 5}"))), None) |}.

(** encoding/json for that request: the body decodes to the object with the
    number 5 under name. *)
Definition name_5_extern : Extern := example_extern {[ "name" := VFloat64 five ]}.

Definition pass : go_router.Filter :=
  {| go_router.Name := "auth";
     go_router.PreDispatch := fun _ req => go_router.HookReturns req None;
     go_router.PostDispatch := fun _ req => go_router.HookReturns req None |}.

Definition go_example_filters : go_router.FilterMap :=
  (go_router.RegisterFilter ∅ "auth" pass).1.

Definition go_example_orders : go_router.Orders :=
  {| go_router.order_pre := ["auth"]; go_router.order_post := ["auth"] |}.

(** The names of the filters whose pre-dispatch hook was called, in the
    order of the calls. *)
Definition pre_names (log : list router.Event) : list string :=
  omap (fun e => match e with
                 | router.EvPreDispatch n _ _ => Some n
                 | _ => None
                 end) log.

(** *** Segments, typed values and characters *)

(** The segments of a path as the code makes them: the path is trimmed of
    its trailing slashes, escaped, and split. *)
Definition segments (path : string) : list string :=
  Split (EscapeString (TrimRight path slash)) slash.

(** The parameter [toParam] makes of a string (it does not panic on one). *)
Definition typed (ext : Extern) (v : string) : go_router.RequestParam :=
  match go_router.toParam ext (VString v) with
  | Val t => t
  | _ => {| go_router.Type_ := go_router.STRING; go_router.Value := VString v |}
  end.

(** The panic of [s[i]] out of range. *)
Definition index_panic : PanicValue := RuntimeError "index out of range".

(** The byte [c] occurs in [s]. *)
Fixpoint occurs (c : ascii) (s : string) : bool :=
  match s with
  | EmptyString => false
  | String a r => Ascii.eqb a c || occurs c r
  end.

(** The characters [html.EscapeString] replaces, the ampersand apart (it
    occurs in what replaces them). *)
Definition html_special : list ascii := ["<"; ">"; "'"; dquote]%char.

Definition returns {A} (m : exec A) : Prop := exists a, m = Val a.
Definition panicking {A} (m : exec A) : Prop := exists v, m = Panic v.

(** The parameter [parseBody] of package go_router makes of a decoded
    value: it has no type tag. *)
Definition body_param (v : iface) : go_router.RequestParam :=
  {| go_router.Type_ := EmptyString; go_router.Value := v |}.

(** *** Sequences of filter registrations *)

(** A sequence of calls of a registration function [reg], with the error
    each call returned. *)
Fixpoint register_filters {F} (reg : gmap string F -> string -> F -> gmap string F * option Error)
    (filters : gmap string F) (calls : list (string * F)) : gmap string F * list (option Error) :=
  match calls with
  | [] => (filters, [])
  | (name, f) :: rest =>
      let '(filters', err) := reg filters name f in
      let '(final, errs) := register_filters reg filters' rest in
      (final, err :: errs)
  end.

(** The filter of the first call for a name. *)
Definition first_filter {F} (calls : list (string * F)) (name : string) : option F :=
  snd <$> List.find (fun c => String.eqb c.1 name) calls.

Definition duplicate_filter : Error := errors_New "Filter name is already registered".

(** *** What the binding does with one parameter *)

(** The value a parameter gives to a field of a kind, when it converts:
    the accessor of the kind returns no error, and a string field takes a
    string. *)
Definition convert (ext : Extern) (kind : router.Kind) (v : router.RequestParam)
  : option router.FieldValue :=
  match kind with
  | router.Int64 =>
      match router.RequestParam_int ext v with
      | (x, None) => Some (router.FInt x)
      | _ => None
      end
  | router.Float64 =>
      match router.RequestParam_float ext v with
      | (x, None) => Some (router.FFloat x)
      | _ => None
      end
  | router.Bool =>
      match router.RequestParam_bool v with
      | (x, None) => Some (router.FBool x)
      | _ => None
      end
  | router.String_ =>
      match router.Value v with
      | VString s => Some (router.FString s)
      | _ => None
      end
  | router.OtherKind => None
  end.

(** The parameter [k], of value [v], names an exported field of the struct
    [p] and converts to its kind, giving [x]. *)
Definition bindable (ext : Extern) (p : list router.StructField)
    (k : string) (v : router.RequestParam) (x : router.FieldValue) : Prop :=
  exists sv, router.FieldByName p (router.upperFirst ext k) = Some sv /\
             router.field_exported sv = true /\
             convert ext (router.field_Kind sv) v = Some x.

(** No two parameters of the set name the same field. *)
Definition distinct_fields (ext : Extern) (req : router.Request) : Prop :=
  forall k k', is_Some (req !! k) -> is_Some (req !! k') ->
    router.upperFirst ext k = router.upperFirst ext k' -> k = k'.

(** The zero value of the field [fn] of the struct [p], if it has one. *)
Definition zero_field (p : list router.StructField) (fn : string) : option router.FieldValue :=
  (fun sv => router.zero_of_kind (router.field_Kind sv)) <$> router.FieldByName p fn.

(** The names of the filters whose post-dispatch hook was called, in the
    order of the calls. *)
Definition post_names (log : list router.Event) : list string :=
  omap (fun e => match e with
                 | router.EvPostDispatch n _ _ => Some n
                 | _ => None
                 end) log.

(** *** The runs of [go_router.Dispatch]

    As for package router, the relations below describe how a dispatch of
    package go_router can go, with the log each course leaves; that
    [go_router.Dispatch] follows one of them is proved in the properties.
    The hooks come before the lookup of the route here, and the default case
    of the switch on the method goes on to them. *)

Module go_lifecycle.
Import go_router.

Section Lifecycle.
Variable ext : Extern.
Variable routes : RouteMap.
Variable filters : FilterMap.
Variable ord : Orders.
Variable r : http_Request.

Inductive pre_ran : list (string * Filter) -> Request ->
                    Outcome (Request * option Error) -> list Event -> Prop :=
| pre_done req : pre_ran [] req (Norm (req, None)) []
| pre_next n f fs req req' out evs :
    PreDispatch f r req = HookReturns req' None ->
    pre_ran fs req' out evs ->
    pre_ran ((n, f) :: fs) req out (EvPreDispatch n req (HookReturns req' None) :: evs)
| pre_failed n f fs req req' e :
    PreDispatch f r req = HookReturns req' (Some e) ->
    pre_ran ((n, f) :: fs) req (Norm (req', Some e))
            [EvPreDispatch n req (HookReturns req' (Some e))]
| pre_panicked n f fs req v :
    PreDispatch f r req = HookPanics v ->
    pre_ran ((n, f) :: fs) req (Panicking v) [EvPreDispatch n req (HookPanics v)].

Inductive post_ran : list (string * Filter) -> Request ->
                     Outcome (Request * option Error) -> list Event -> Prop :=
| post_done req : post_ran [] req (Norm (req, None)) []
| post_next n f fs req req' out evs :
    PostDispatch f r req = HookReturns req' None ->
    post_ran fs req' out evs ->
    post_ran ((n, f) :: fs) req out (EvPostDispatch n req (HookReturns req' None) :: evs)
| post_failed n f fs req req' e :
    PostDispatch f r req = HookReturns req' (Some e) ->
    post_ran ((n, f) :: fs) req (Norm (req', Some e))
             [EvPostDispatch n req (HookReturns req' (Some e))]
| post_panicked n f fs req v :
    PostDispatch f r req = HookPanics v ->
    post_ran ((n, f) :: fs) req (Panicking v) [EvPostDispatch n req (HookPanics v)].

(** The switch on the method gave the route key [key] and the parameter
    set [req]; [answer] is what it wrote to the response: nothing, or the
    method-not-supported response of the default case, which goes on. *)
Inductive parsed : string -> Request -> (ResponseWriter -> ResponseWriter) ->
                   list Event -> Prop :=
| parsed_path key req0 req :
    ParseForm r = None ->
    Method r = "GET" \/ Method r = "DELETE" ->
    parseGet ext r ∅ = Val (req0, key) ->
    parseForm ext r req0 = Val req ->
    parsed key req id [EvParseForm None; EvParseGet key]
| parsed_body req0 req :
    ParseForm r = None ->
    Method r = "POST" ->
    parseBody ext r ∅ = (req0, None) ->
    parseForm ext r req0 = Val req ->
    parsed (URL_Path r) req id [EvParseForm None; EvParseBody None]
| parsed_unsupported :
    ParseForm r = None ->
    ~ lifecycle.supported (Method r) ->
    parsed EmptyString ∅ notSupported [EvParseForm None; EvNotSupported].

(** Every pre-dispatch hook passed, leaving the parameter set [req']. *)
Inductive prefiltered : string -> Request -> (ResponseWriter -> ResponseWriter) ->
                        list Event -> Prop :=
| prefiltered_intro key req answer log req' evs :
    parsed key req answer log ->
    pre_ran (range_map (order_pre ord) filters) req (Norm (req', None)) evs ->
    prefiltered key req' answer (log ++ evs).

(** The route has a handler, it returned [result], and every post-dispatch
    hook passed. *)
Inductive postfiltered : iface -> (ResponseWriter -> ResponseWriter) -> list Event -> Prop :=
| postfiltered_intro key req answer log c result req' evs :
    prefiltered key req answer log ->
    getNode routes (Method r) key = (Some c, None) ->
    Call c req = Returns result None ->
    post_ran (range_map (order_post ord) filters) req (Norm (req', None)) evs ->
    postfiltered result answer
      (log ++ EvGetNode (Method r) key None :: EvCall req (Returns result None) :: evs).

(** The body of [Dispatch] panics with [v] after the calls of [log]. *)
Inductive panics : PanicValue -> (ResponseWriter -> ResponseWriter) -> list Event -> Prop :=
| panics_form e :
    ParseForm r = Some e ->
    panics (PanicError e) id [EvParseForm (Some e)]
| panics_path v :
    ParseForm r = None ->
    Method r = "GET" \/ Method r = "DELETE" ->
    parseGet ext r ∅ = Panic v ->
    panics v id [EvParseForm None]
| panics_path_form req0 key v :
    ParseForm r = None ->
    Method r = "GET" \/ Method r = "DELETE" ->
    parseGet ext r ∅ = Val (req0, key) ->
    parseForm ext r req0 = Panic v ->
    panics v id [EvParseForm None; EvParseGet key]
| panics_body req0 e :
    ParseForm r = None ->
    Method r = "POST" ->
    parseBody ext r ∅ = (req0, Some e) ->
    panics (PanicError e) id [EvParseForm None; EvParseBody (Some e)]
| panics_body_form req0 v :
    ParseForm r = None ->
    Method r = "POST" ->
    parseBody ext r ∅ = (req0, None) ->
    parseForm ext r req0 = Panic v ->
    panics v id [EvParseForm None; EvParseBody None]
| panics_pre_failed key req answer log req' e evs :
    parsed key req answer log ->
    pre_ran (range_map (order_pre ord) filters) req (Norm (req', Some e)) evs ->
    panics (PanicError e) answer (log ++ evs)
| panics_pre_panicked key req answer log v evs :
    parsed key req answer log ->
    pre_ran (range_map (order_pre ord) filters) req (Panicking v) evs ->
    panics v answer (log ++ evs)
| panics_call_failed key req answer log c result e :
    prefiltered key req answer log ->
    getNode routes (Method r) key = (Some c, None) ->
    Call c req = Returns result (Some e) ->
    panics (PanicError e) answer
      (log ++ [EvGetNode (Method r) key None; EvCall req (Returns result (Some e))])
| panics_call_panicked key req answer log c v :
    prefiltered key req answer log ->
    getNode routes (Method r) key = (Some c, None) ->
    Call c req = CallPanics v ->
    panics v answer (log ++ [EvGetNode (Method r) key None; EvCall req (CallPanics v)])
| panics_post_failed key req answer log c result req' e evs :
    prefiltered key req answer log ->
    getNode routes (Method r) key = (Some c, None) ->
    Call c req = Returns result None ->
    post_ran (range_map (order_post ord) filters) req (Norm (req', Some e)) evs ->
    panics (PanicError e) answer
      (log ++ EvGetNode (Method r) key None :: EvCall req (Returns result None) :: evs)
| panics_post_panicked key req answer log c result v evs :
    prefiltered key req answer log ->
    getNode routes (Method r) key = (Some c, None) ->
    Call c req = Returns result None ->
    post_ran (range_map (order_post ord) filters) req (Panicking v) evs ->
    panics v answer
      (log ++ EvGetNode (Method r) key None :: EvCall req (Returns result None) :: evs)
| panics_marshal result answer log data e :
    postfiltered result answer log ->
    json_Marshal ext result = (data, Some e) ->
    panics (PanicError e) answer (log ++ [EvMarshal (Some e)]).

(** The courses of [Dispatch] from the response writer [w]. *)
Inductive dispatched (w : ResponseWriter) : ResponseWriter -> list Event -> Prop :=
| dispatched_fatal v answer log :
    panics v answer log ->
    dispatched w (internalError (answer (Header_Set "Content-Type" JSON w)))
               (log ++ [EvRecover v])
| dispatched_not_found key req answer log e :
    prefiltered key req answer log ->
    getNode routes (Method r) key = (None, Some e) ->
    dispatched w (notFound (answer (Header_Set "Content-Type" JSON w)))
               (log ++ [EvGetNode (Method r) key (Some e); EvNotFound])
| dispatched_ok result answer log data :
    postfiltered result answer log ->
    json_Marshal ext result = (data, None) ->
    dispatched w (Write data (answer (Header_Set "Content-Type" JSON w)))
               (log ++ [EvMarshal None]).

End Lifecycle.
End go_lifecycle.

(** The stage of the dispatch of package go_router a logged call belongs
    to, in the order of the code: the form, the switch on the method, the
    pre-dispatch hooks, the route, the handler, the post-dispatch hooks, the
    encoding, and the marks of the not-found response and of the
    recovery. *)
Definition go_stage (e : go_router.Event) : nat :=
  match e with
  | go_router.EvParseForm _ => 1
  | go_router.EvParseGet _ | go_router.EvParseBody _ | go_router.EvNotSupported => 2
  | go_router.EvPreDispatch _ _ _ => 3
  | go_router.EvGetNode _ _ _ => 4
  | go_router.EvCall _ _ => 5
  | go_router.EvPostDispatch _ _ _ => 6
  | go_router.EvMarshal _ => 7
  | go_router.EvNotFound | go_router.EvRecover _ => 8
  end.

Definition go_pre_names (log : list go_router.Event) : list string :=
  omap (fun e => match e with
                 | go_router.EvPreDispatch n _ _ => Some n
                 | _ => None
                 end) log.

Definition go_post_names (log : list go_router.Event) : list string :=
  omap (fun e => match e with
                 | go_router.EvPostDispatch n _ _ => Some n
                 | _ => None
                 end) log.

Definition not_supported_body : string :=
  String.append "Request Method  is not supported." (String "010" EmptyString).

(** *** More objects of the closed examples *)

(** The parameters id and Id name the same field. *)
Definition id_twice : router.Request :=
  {[ "id" := {| router.Value := VString "1" |}; "Id" := {| router.Value := VString "2" |} ]}.

Definition id_42_bob : router.Request :=
  {[ "id" := {| router.Value := VString "42" |};
     "name" := {| router.Value := VString "bob" |} ]}.

(** A filter whose hooks pass. *)
Definition allow : router.Filter :=
  {| router.Name := "log";
     router.PreDispatch := fun _ req => router.HookReturns req None;
     router.PostDispatch := fun _ req => router.HookReturns req None |}.

Definition allow_filters : router.filterMap := (router.RegisterFilter ∅ "log" allow).1.

Definition allow_orders : router.Orders :=
  {| router.order_bind := ["id"; "name"];
     router.order_pre := ["log"];
     router.order_post := ["log"] |}.

(** A filter whose post-dispatch hook fails. *)
Definition audit : router.Filter :=
  {| router.Name := "audit";
     router.PreDispatch := fun _ req => router.HookReturns req None;
     router.PostDispatch :=
       fun _ req => router.HookReturns req (Some (errors_New "audit failed")) |}.

Definition audit_filters : router.filterMap := (router.RegisterFilter ∅ "audit" audit).1.

(** A POST whose body cannot be read. *)
Definition POST_unread : http_Request :=
  {| Method := "POST"; URL_Path := "/v1/test/save"; ParseForm := None; Form := ∅;
     Body := (EmptyString, Some (ExternError "unexpected EOF")) |}.

(** A handler that returns an error, and its route. *)
Definition Broken : router.Node :=
  {| router.In0 := user_struct;
     router.Call := fun _ => router.Returns VNil (Some (errors_New "no such user")) |}.

Definition broken_routes : router.routeMap :=
  (router.RegisterRoute ∅ "GET" "/v1/test/retrieve" Broken).1.

(** encoding/json when the result of the handler cannot be encoded. *)
Definition no_json (decoded : gmap string iface) : Extern :=
  {| strconv_ParseFloat := decimal_ParseFloat;
     utf8_upperFirst := fun s => s;
     int64_unrepresentable := fun _ => (- 2 ^ 63)%Z;
     json_Unmarshal := fun _ => (decoded, None);
     json_Marshal := fun _ => (EmptyString, Some (ExternError "json: unsupported type")) |}.

(** The controller and the route of the README. *)
Definition Retrieve : go_router.Node :=
  {| go_router.Call := fun _ => go_router.Returns (VString "test") None |}.

Definition go_example_routes : go_router.RouteMap :=
  (go_router.RegisterRoute ∅ "GET" "/v1/test/retrieve/id/{Int}" Retrieve).1.

(** * Properties *)

Example ParseInt_42 : ParseInt "42" = (42%Z, None).
Proof. reflexivity. Qed.

Example ParseInt_min : ParseInt "-9223372036854775808" = ((- 2 ^ 63)%Z, None).
Proof. reflexivity. Qed.

Example ParseInt_over :
  ParseInt "9223372036854775808"
  = ((2 ^ 63 - 1)%Z, Some (NumError "ParseInt" "9223372036854775808" ErrRange)).
Proof. reflexivity. Qed.


(** ** Strings *)

Lemma append_String a r t : String a r +:+ t = String a (r +:+ t).
Proof. reflexivity. Qed.

Lemma append_Empty t : EmptyString +:+ t = t.
Proof. reflexivity. Qed.

Lemma TrimRight_cons_ne a r c :
  a <> c -> TrimRight (String a r) c = String a (TrimRight r c).
Proof.
  intros Hne. simpl. destruct (TrimRight r c); [|reflexivity].
  destruct (Ascii.eqb_spec a c); [contradiction|reflexivity].
Qed.

Lemma TrimRight_cons_eq c r :
  TrimRight (String c r) c
  = match TrimRight r c with
    | EmptyString => EmptyString
    | r' => String c r'
    end.
Proof. simpl. destruct (TrimRight r c); [|reflexivity]. by rewrite Ascii.eqb_refl. Qed.

Lemma escape_byte_slash : escape_byte slash = String slash EmptyString.
Proof. reflexivity. Qed.

(** Escaping a byte other than the slash gives bytes other than the slash. *)
Lemma TrimRight_escape_byte a t :
  a <> slash ->
  TrimRight (escape_byte a +:+ t) slash = escape_byte a +:+ TrimRight t slash.
Proof.
  intros Hne. unfold escape_byte.
  repeat match goal with
  | |- context [Ascii.eqb ?x ?y] => destruct (Ascii.eqb_spec x y); subst
  end;
  rewrite ?append_String, ?append_Empty, ?TrimRight_cons_ne;
  try done; unfold slash; discriminate.
Qed.

Lemma EscapeString_empty s : EscapeString s = EmptyString -> s = EmptyString.
Proof.
  destruct s as [|a r]; [done|]. simpl. unfold escape_byte.
  repeat match goal with
  | |- context [Ascii.eqb ?x ?y] => destruct (Ascii.eqb x y)
  end; discriminate.
Qed.

(** Trimming the trailing slashes and escaping commute. *)
Lemma EscapeString_TrimRight s :
  EscapeString (TrimRight s slash) = TrimRight (EscapeString s) slash.
Proof.
  induction s as [|a r IH]; [reflexivity|].
  destruct (decide (a = slash)) as [->|Hne].
  - rewrite TrimRight_cons_eq.
    cbn [EscapeString]. rewrite escape_byte_slash, append_String, append_Empty.
    rewrite TrimRight_cons_eq, <- IH.
    destruct (TrimRight r slash) as [|b r'] eqn:E; [reflexivity|].
    destruct (EscapeString (String b r')) eqn:E'.
    + apply EscapeString_empty in E'. discriminate.
    + cbn [EscapeString]. rewrite escape_byte_slash, append_String, append_Empty.
      by rewrite <- E'.
  - rewrite TrimRight_cons_ne by done. cbn [EscapeString].
    rewrite TrimRight_escape_byte by done. by rewrite IH.
Qed.

Lemma TrimRight_slashes n : TrimRight (slashes n) slash = EmptyString.
Proof. induction n as [|n IH]; [reflexivity|]. simpl. by rewrite IH. Qed.

Lemma TrimRight_app_slashes s n :
  TrimRight (s +:+ slashes n) slash = TrimRight s slash.
Proof.
  induction s as [|a r IH].
  - simpl. apply TrimRight_slashes.
  - rewrite append_String. simpl. by rewrite IH.
Qed.

Lemma Split_length_pos s c : 0 < length (Split s c).
Proof.
  induction s as [|a r IH]; simpl; [lia|].
  destruct (Ascii.eqb a c); simpl; [lia|].
  destruct (Split r c); simpl; lia.
Qed.

(** ** The path parser of package router *)

Example parseGet_id_42 :
  router.parseGet (GET "/v1/test/retrieve/id/42") ∅
  = Val ({[ "id" := {| router.Value := VString "42" |} ]}, ("/v1/test/retrieve", None)).
Proof. vm_compute. reflexivity. Qed.

Example parseGet_odd :
  router.parseGet (GET "/v1/test/retrieve/id/42/extra") ∅
  = Val (∅, (EmptyString, Some (errors_New "Not Found"))).
Proof. vm_compute. reflexivity. Qed.

Lemma index_lookup {A} (s : list A) i x : s !! i = Some x -> index s i = Val x.
Proof. unfold index. by intros ->. Qed.

Lemma parseGet_loop_spec (s : list string) :
  forall fuel i (req : router.Request),
    0 < fuel -> length s < i + 2 * fuel ->
    exists req' : router.Request,
      router.parseGet_loop fuel i s req = Val req' /\
      (forall k, (forall j, param_index s i j -> s !! j <> Some k) ->
                 req' !! k = req !! k) /\
      (forall j k v,
         param_index s i j -> s !! j = Some k -> s !! (j + 1) = Some v ->
         (forall j', param_index s i j' -> j < j' -> s !! j' <> Some k) ->
         req' !! k = Some {| router.Value := VString v |}).
Proof.
  induction fuel as [|fuel IH]; intros i req Hpos Hfuel; [lia|].
  cbn [router.parseGet_loop].
  destruct (Nat.ltb_spec i (length s - 1)) as [Hlt|Hge].
  - destruct (lookup_lt_is_Some_2 s i) as [k0 Hk0]; [lia|].
    destruct (lookup_lt_is_Some_2 s (i + 1)) as [v0 Hv0]; [lia|].
    rewrite (index_lookup _ _ _ Hv0), (index_lookup _ _ _ Hk0). cbn [mbind exec_bind].
    destruct (IH (i + 2) (<[k0 := {| router.Value := VString v0 |}]> req))
      as (req' & Hrun & Hkeep & Hset); [lia|lia|].
    assert (Hshift : forall j, param_index s (i + 2) j -> param_index s i j).
    { intros j [[n ->] Hj]. split; [exists (S n); lia|done]. }
    assert (Hfirst : param_index s i i).
    { split; [exists 0; lia|lia]. }
    exists req'. split; [done|]. split.
    + intros k Hnone. rewrite Hkeep by (intros j Hj; apply Hnone, Hshift, Hj).
      apply lookup_insert_ne. intros ->. by apply (Hnone i).
    + intros j k v Hj Hk Hv Hlast.
      destruct Hj as [[n ->] Hj]. destruct n as [|n].
      * replace (i + 2 * 0) with i in * by lia.
        rewrite Hkeep.
        -- assert (k0 = k) as -> by congruence. assert (v0 = v) as -> by congruence.
           apply lookup_insert_eq.
        -- intros j' Hj'. apply Hlast; [by apply Hshift|].
           destruct Hj' as [[m ->] _]. lia.
      * apply (Hset (i + 2 * S n)); [|done|done|].
        -- split; [exists n; lia|done].
        -- intros j' Hj' Hlt'. apply Hlast; [by apply Hshift|done].
  - exists req. split; [done|]. split; [done|].
    intros j k v [[n ->] Hj]. lia.
Qed.

Lemma odd_mod2 n : negb (n mod 2 =? 0) = true <-> Nat.Odd n.
Proof.
  rewrite negb_true_iff, Nat.eqb_neq. split.
  - intros H. exists (n / 2).
    pose proof (Nat.div_mod_eq n 2). pose proof (Nat.mod_upper_bound n 2). lia.
  - intros [m ->]. rewrite Nat.add_comm, Nat.mul_comm, Nat.Div0.mod_add. done.
Qed.

(** C1: the strict path parser fails with Not Found exactly when the
    number [L] of segments is at most 3 or odd.  Otherwise it returns the
    first four segments joined by a slash and the parameter set in which,
    for [i = 4, 6, ...], the name [s[i]] is bound to the string [s[i+1]]:
    a name that is no [s[i]] keeps its binding, and a name that occurs
    several times is bound to the value after its last occurrence. *)
Theorem parseGet_strict_spec (r : http_Request) (req : router.Request) :
  let s := specified_segments (URL_Path r) in
  let L := length s in
  ((exists req' key, router.parseGet r req
                     = Val (req', (key, Some (errors_New "Not Found"))))
   <-> L <= 3 \/ Nat.Odd L) /\
  (L <= 3 \/ Nat.Odd L ->
   router.parseGet r req = Val (req, (EmptyString, Some (errors_New "Not Found")))) /\
  (~ (L <= 3 \/ Nat.Odd L) ->
   exists req' : router.Request,
     router.parseGet r req = Val (req', (Join (take 4 s) "/", None)) /\
     (forall k, (forall i, param_index s 4 i -> s !! i <> Some k) ->
                req' !! k = req !! k) /\
     (forall i k v,
        param_index s 4 i -> s !! i = Some k -> s !! (i + 1) = Some v ->
        (forall j, param_index s 4 j -> i < j -> s !! j <> Some k) ->
        req' !! k = Some {| router.Value := VString v |})).
Proof.
  intros s L. subst L s. unfold specified_segments.
  rewrite <- EscapeString_TrimRight.
  unfold router.parseGet.
  set (s := Split (EscapeString (TrimRight (URL_Path r) slash)) slash).
  assert (Hbad : (length s <=? 3) || negb (length s mod 2 =? 0) = true
                 <-> length s <= 3 \/ Nat.Odd (length s)).
  { rewrite orb_true_iff, Nat.leb_le, odd_mod2. done. }
  destruct ((length s <=? 3) || negb (length s mod 2 =? 0)) eqn:E.
  - split; [|split].
    + split; [intros _; by apply Hbad|]. intros _. by eexists _, _.
    + done.
    + intros Hgood. exfalso. by apply Hgood, Hbad.
  - assert (Hgood : ~ (length s <= 3 \/ Nat.Odd (length s))).
    { intros H. apply Hbad in H. discriminate. }
    destruct (parseGet_loop_spec s (length s) 4 req) as (req' & Hrun & Hkeep & Hset);
      [lia|lia|].
    assert (Hslice : router.slice_0_4 s = Val (take 4 s)).
    { unfold router.slice_0_4. destruct (Nat.leb_spec 4 (length s)); [done|lia]. }
    rewrite Hrun, Hslice. cbn [mbind exec_bind].
    split; [|split].
    + split; [|done]. intros (req'' & key & Heq). discriminate.
    + done.
    + intros _. exists req'. done.
Qed.


(** ** Type inference in package go_router *)

Lemma toParam_cases (ext : Extern) (s : string) :
  exists t, go_router.toParam ext (VString s) = Val t /\
    ((succeeds (ParseInt s) /\
      t = {| go_router.Type_ := go_router.INT; go_router.Value := VInt64 (ParseInt s).1 |}) \/
     (~ succeeds (ParseInt s) /\ succeeds (strconv_ParseFloat ext s) /\
      t = {| go_router.Type_ := go_router.FLOAT;
             go_router.Value := VFloat64 (strconv_ParseFloat ext s).1 |}) \/
     (~ succeeds (ParseInt s) /\ ~ succeeds (strconv_ParseFloat ext s) /\
      succeeds (ParseBool s) /\
      t = {| go_router.Type_ := go_router.BOOL; go_router.Value := VBool (ParseBool s).1 |}) \/
     (~ succeeds (ParseInt s) /\ ~ succeeds (strconv_ParseFloat ext s) /\
      ~ succeeds (ParseBool s) /\
      t = {| go_router.Type_ := go_router.STRING; go_router.Value := VString s |})).
Proof.
  unfold go_router.toParam, succeeds. cbn [go_router.assert_string mbind exec_bind].
  destruct (ParseInt s) as [vi [ei|]]; cbn [fst snd]; [|eexists; split; [done|by left]].
  destruct (strconv_ParseFloat ext s) as [vf [ef|]]; cbn [fst snd];
    [|eexists; split; [done|right; left; done]].
  destruct (ParseBool s) as [vb [eb|]]; cbn [fst snd];
    eexists; (split; [done|]); right; right; [right|left]; done.
Qed.

(** C2: [toParam] tries the signed 64-bit integer, then the 64-bit float,
    then the boolean, and keeps the string otherwise; the first parse that
    succeeds gives the type tag and the value.  So 7 and 1 are integers
    whatever the float parser accepts, and with the decimal float syntax 7.5
    is a float, true a boolean and hello a string. *)
Theorem toParam_first_success_wins :
  (forall (ext : Extern) (s : string),
     exists t, go_router.toParam ext (VString s) = Val t /\
       (go_router.Type_ t = go_router.INT <-> succeeds (ParseInt s)) /\
       (go_router.Type_ t = go_router.FLOAT <->
          ~ succeeds (ParseInt s) /\ succeeds (strconv_ParseFloat ext s)) /\
       (go_router.Type_ t = go_router.BOOL <->
          ~ succeeds (ParseInt s) /\ ~ succeeds (strconv_ParseFloat ext s) /\
          succeeds (ParseBool s)) /\
       (go_router.Type_ t = go_router.STRING <->
          ~ succeeds (ParseInt s) /\ ~ succeeds (strconv_ParseFloat ext s) /\
          ~ succeeds (ParseBool s)) /\
       (succeeds (ParseInt s) -> go_router.Value t = VInt64 (ParseInt s).1) /\
       (go_router.Type_ t = go_router.FLOAT ->
          go_router.Value t = VFloat64 (strconv_ParseFloat ext s).1) /\
       (go_router.Type_ t = go_router.BOOL -> go_router.Value t = VBool (ParseBool s).1) /\
       (go_router.Type_ t = go_router.STRING -> go_router.Value t = VString s)) /\
  (forall ext : Extern,
     go_router.toParam ext (VString "7")
     = Val {| go_router.Type_ := go_router.INT; go_router.Value := VInt64 7 |} /\
     go_router.toParam ext (VString "1")
     = Val {| go_router.Type_ := go_router.INT; go_router.Value := VInt64 1 |}) /\
  (let ext := example_extern ∅ in
   go_router.toParam ext (VString "7.5")
   = Val {| go_router.Type_ := go_router.FLOAT;
            go_router.Value := VFloat64 (S754_finite false 8444249301319680 (-50)) |} /\
   go_router.toParam ext (VString "true")
   = Val {| go_router.Type_ := go_router.BOOL; go_router.Value := VBool true |} /\
   go_router.toParam ext (VString "hello")
   = Val {| go_router.Type_ := go_router.STRING; go_router.Value := VString "hello" |}).
Proof.
  split; [|split].
  - intros ext s.
    destruct (toParam_cases ext s) as (t & Hrun & Hcases). exists t. split; [done|].
    destruct Hcases as [(Hi & ->)|[(Hi & Hf & ->)|[(Hi & Hf & Hb & ->)|(Hi & Hf & Hb & ->)]]];
      cbn [go_router.Type_ go_router.Value];
      unfold go_router.INT, go_router.FLOAT, go_router.BOOL, go_router.STRING;
      repeat split; intros; try done; try tauto.
  - intros ext. split; reflexivity.
  - cbv zeta. repeat split; vm_compute; reflexivity.
Qed.

(** ** Trailing slashes *)

Lemma parseGet_total (r : http_Request) (req : router.Request) :
  exists req' key err, router.parseGet r req = Val (req', (key, err)).
Proof.
  unfold router.parseGet.
  set (s := Split (EscapeString (TrimRight (URL_Path r) slash)) slash).
  destruct ((length s <=? 3) || negb (length s mod 2 =? 0)) eqn:E; [by eexists _, _, _|].
  apply orb_false_iff in E as [E _]. apply Nat.leb_gt in E.
  destruct (parseGet_loop_spec s (length s) 4 req) as (req' & Hrun & _); [lia|lia|].
  rewrite Hrun. unfold router.slice_0_4.
  destruct (Nat.leb_spec 4 (length s)); [|lia]. by eexists _, _, _.
Qed.

Lemma go_parseGet_loop_total ext (fuel : nat) :
  forall i s req, 0 < fuel -> length s < i + 2 * fuel ->
    go_router.parseGet_loop ext fuel i s req <> Timeout.
Proof.
  induction fuel as [|fuel IH]; intros i s req Hpos Hfuel; [lia|].
  cbn [go_router.parseGet_loop].
  destruct (Nat.ltb_spec i (length s)) as [Hlt|Hge]. 2:{ intros H; discriminate H. }
  destruct (s !! (i + 1)) as [v|] eqn:Hv.
  - rewrite (index_lookup _ _ _ Hv). cbn [mbind exec_bind].
    destruct (toParam_cases ext v) as (t & -> & _). cbn [mbind exec_bind].
    destruct (lookup_lt_is_Some_2 s i Hlt) as [k Hk].
    rewrite (index_lookup _ _ _ Hk). cbn [mbind exec_bind].
    apply lookup_lt_Some in Hv.
    apply IH; [lia|]. rewrite length_insert. lia.
  - unfold index. rewrite Hv. cbn [mbind exec_bind]. intros H; discriminate H.
Qed.

Lemma go_parseGet_total ext r req : go_router.parseGet ext r req <> Timeout.
Proof.
  unfold go_router.parseGet.
  set (s := Split (EscapeString (TrimRight (URL_Path r) slash)) slash).
  pose proof (Split_length_pos (EscapeString (TrimRight (URL_Path r) slash)) slash) as Hpos.
  fold s in Hpos.
  pose proof (go_parseGet_loop_total ext (length s) 4 s req Hpos ltac:(lia)) as Hloop.
  destruct (go_router.parseGet_loop ext (length s) 4 s req) as [[s' req']| |];
    [intros H; discriminate H|intros H; discriminate H|done].
Qed.

(** C10: trailing slashes appended to a path change neither the route key
    nor the parameter set the path parser produces, in both packages; the
    parser of package router always returns, and that of package go_router
    returns or panics on an index out of range, the same for both paths. *)
Theorem parseGet_trailing_slashes (r : http_Request) (n : nat) :
  let r' := with_path r (URL_Path r +:+ slashes (S n)) in
  (forall req, router.parseGet r' req = router.parseGet r req /\
               exists req' key err, router.parseGet r req = Val (req', (key, err))) /\
  (forall ext req, go_router.parseGet ext r' req = go_router.parseGet ext r req /\
                   go_router.parseGet ext r req <> Timeout).
Proof.
  intros r'. subst r'. split; intros; (split; [|first [apply parseGet_total|apply go_parseGet_total]]);
    unfold router.parseGet, go_router.parseGet, with_path; cbn [URL_Path];
    by rewrite TrimRight_app_slashes.
Qed.

(** ** The route registry *)

Section RegistryFacts.
Context {N : Type}.
Implicit Types routes : gmap string (gmap string N).

Lemma getNode_of_lookup routes m p :
  getNode_of routes m p
  = match lookup_route routes m p with
    | Some n => (Some n, None)
    | None => (None, Some (errors_New "No Handler Found"))
    end.
Proof.
  unfold getNode_of, lookup_route.
  destruct (routes !! m) as [nodes|]; [|done]. by destruct (nodes !! p).
Qed.

Lemma RegisterRoute_of_taken routes m p (n : N) :
  is_Some (lookup_route routes m p) ->
  RegisterRoute_of routes m p n = (routes, Some duplicate_route).
Proof.
  unfold RegisterRoute_of, lookup_route. intros Hsome.
  destruct (routes !! m) as [nodes|]; [|by destruct Hsome].
  by rewrite bool_decide_eq_true_2.
Qed.

Lemma RegisterRoute_of_free routes m p (n : N) :
  lookup_route routes m p = None ->
  exists routes',
    RegisterRoute_of routes m p n = (routes', None) /\
    lookup_route routes' m p = Some n /\
    forall m' p', (m', p') <> (m, p) ->
                  lookup_route routes' m' p' = lookup_route routes m' p'.
Proof.
  unfold RegisterRoute_of, lookup_route. intros Hnone.
  destruct (routes !! m) as [nodes|] eqn:Hm.
  - rewrite bool_decide_eq_false_2 by (rewrite Hnone; by intros [? ?]).
    eexists. split; [done|]. split.
    + by rewrite !lookup_insert_eq.
    + intros m' p' Hne. destruct (decide (m' = m)) as [->|Hmm].
      * rewrite lookup_insert_eq, Hm, lookup_insert_ne; [done|congruence].
      * by rewrite lookup_insert_ne.
  - eexists. split; [done|]. split.
    + by rewrite !lookup_insert_eq.
    + intros m' p' Hne. destruct (decide (m' = m)) as [->|Hmm].
      * rewrite lookup_insert_eq, Hm, lookup_insert_ne, lookup_empty; [done|congruence].
      * by rewrite lookup_insert_ne.
Qed.

Lemma same_route_true m p (c : string * string * N) :
  same_route m p c = true <-> (c.1.1, c.1.2) = (m, p).
Proof.
  unfold same_route. rewrite andb_true_iff, !String.eqb_eq.
  split; [intros [-> ->]; done|]. intros [= -> ->]. done.
Qed.

Lemma register_all_of_spec (calls : list (string * string * N)) :
  forall routes m p,
    let '(final, errs) := register_all RegisterRoute_of routes calls in
    length errs = length calls /\
    lookup_route final m p
    = match lookup_route routes m p with
      | Some n => Some n
      | None => first_call calls m p
      end /\
    successes m p calls errs
    <= match lookup_route routes m p with Some _ => 0 | None => 1 end.
Proof.
  induction calls as [|[[m0 p0] n0] rest IH]; intros routes m p.
  - cbn. destruct (lookup_route routes m p); auto.
  - cbn [register_all].
    destruct (lookup_route routes m0 p0) as [old|] eqn:Hold.
    + rewrite RegisterRoute_of_taken by (rewrite Hold; eauto).
      specialize (IH routes m p).
      destruct (register_all RegisterRoute_of routes rest) as [final errs].
      destruct IH as (Hlen & Hlook & Hcount).
      split; [cbn; lia|]. split; [|done].
      rewrite Hlook. destruct (lookup_route routes m p) eqn:Hmp; [done|].
      unfold first_call. cbn [List.find].
      destruct (same_route m p (m0, p0, n0)) eqn:Hsame; [|done].
      apply same_route_true in Hsame. cbn in Hsame. congruence.
    + destruct (RegisterRoute_of_free routes m0 p0 n0 Hold) as (routes' & -> & Hnew & Hother).
      specialize (IH routes' m p).
      destruct (register_all RegisterRoute_of routes' rest) as [final errs].
      destruct IH as (Hlen & Hlook & Hcount).
      split; [cbn; lia|].
      unfold first_call. cbn [List.find successes].
      destruct (same_route m p (m0, p0, n0)) eqn:Hsame.
      * apply same_route_true in Hsame. cbn in Hsame.
        injection Hsame as -> ->. rewrite Hnew in Hlook, Hcount. rewrite Hold.
        split; [done|]. lia.
      * assert (Hne : (m, p) <> (m0, p0)).
        { intros [= -> ->]. rewrite <- not_true_iff_false in Hsame.
          apply Hsame, same_route_true. done. }
        rewrite (Hother _ _ Hne) in Hlook, Hcount. split; [done|].
        destruct (lookup_route routes m p); lia.
Qed.

Lemma RegisterRoute_of_unique :
  (forall routes m p (n n' : N),
     let routes1 := (RegisterRoute_of routes m p n).1 in
     RegisterRoute_of routes1 m p n' = (routes1, Some duplicate_route)) /\
  (forall routes m m' p (n n' : N),
     m <> m' -> lookup_route routes m' p = None ->
     let routes1 := (RegisterRoute_of routes m p n).1 in
     exists routes2,
       RegisterRoute_of routes1 m' p n' = (routes2, None) /\
       lookup_route routes2 m' p = Some n' /\
       lookup_route routes2 m p = lookup_route routes1 m p) /\
  (forall (calls : list (string * string * N)) m p,
     let '(final, errs) := register_all RegisterRoute_of ∅ calls in
     length errs = length calls /\
     successes m p calls errs <= 1 /\
     lookup_route final m p = first_call calls m p /\
     getNode_of final m p
     = match first_call calls m p with
       | Some n => (Some n, None)
       | None => (None, Some (errors_New "No Handler Found"))
       end).
Proof.
  split; [|split].
  - intros routes m p n n' routes1. subst routes1.
    apply RegisterRoute_of_taken.
    destruct (lookup_route routes m p) as [old|] eqn:Hold.
    + rewrite RegisterRoute_of_taken by (rewrite Hold; eauto). cbn. rewrite Hold. eauto.
    + destruct (RegisterRoute_of_free routes m p n Hold) as (routes' & -> & Hnew & _).
      cbn. rewrite Hnew. eauto.
  - intros routes m m' p n n' Hne Hfree routes1.
    assert (Hfree1 : lookup_route routes1 m' p = None).
    { subst routes1. destruct (lookup_route routes m p) as [old|] eqn:Hold.
      - rewrite RegisterRoute_of_taken by (rewrite Hold; eauto). done.
      - destruct (RegisterRoute_of_free routes m p n Hold) as (routes' & -> & _ & Hother).
        cbn. rewrite Hother; [done|congruence]. }
    destruct (RegisterRoute_of_free routes1 m' p n' Hfree1) as (routes2 & Hreg & Hnew & Hother).
    exists routes2. split; [done|]. split; [done|]. apply Hother. congruence.
  - intros calls m p.
    pose proof (register_all_of_spec calls ∅ m p) as H.
    destruct (register_all RegisterRoute_of ∅ calls) as [final errs].
    destruct H as (Hlen & Hlook & Hcount).
    assert (Hempty : lookup_route (∅ : gmap string (gmap string N)) m p = None) by done.
    rewrite Hempty in Hlook, Hcount.
    rewrite getNode_of_lookup, Hlook. done.
Qed.

End RegistryFacts.

(** C9: in both packages, a second [RegisterRoute] for the same method and
    path fails (and leaves the registry as it was), the same path under
    another method for which it is free is registered, and after any
    sequence of registrations from the empty registry at most one call per
    method and path has succeeded: the node found for them is that of the
    first call. *)
Theorem RegisterRoute_unique :
  (forall routes m p n n',
     let routes1 := (router.RegisterRoute routes m p n).1 in
     router.RegisterRoute routes1 m p n' = (routes1, Some duplicate_route)) /\
  (forall routes m m' p n n',
     m <> m' -> lookup_route routes m' p = None ->
     let routes1 := (router.RegisterRoute routes m p n).1 in
     exists routes2,
       router.RegisterRoute routes1 m' p n' = (routes2, None) /\
       lookup_route routes2 m' p = Some n' /\
       lookup_route routes2 m p = lookup_route routes1 m p) /\
  (forall calls m p,
     let '(final, errs) := register_all router.RegisterRoute ∅ calls in
     length errs = length calls /\
     successes m p calls errs <= 1 /\
     lookup_route final m p = first_call calls m p /\
     router.getNode final m p
     = match first_call calls m p with
       | Some n => (Some n, None)
       | None => (None, Some (errors_New "No Handler Found"))
       end) /\
  (forall routes m p n n',
     let routes1 := (go_router.RegisterRoute routes m p n).1 in
     go_router.RegisterRoute routes1 m p n' = (routes1, Some duplicate_route)) /\
  (forall routes m m' p n n',
     m <> m' -> lookup_route routes m' p = None ->
     let routes1 := (go_router.RegisterRoute routes m p n).1 in
     exists routes2,
       go_router.RegisterRoute routes1 m' p n' = (routes2, None) /\
       lookup_route routes2 m' p = Some n' /\
       lookup_route routes2 m p = lookup_route routes1 m p) /\
  (forall calls m p,
     let '(final, errs) := register_all go_router.RegisterRoute ∅ calls in
     length errs = length calls /\
     successes m p calls errs <= 1 /\
     lookup_route final m p = first_call calls m p /\
     go_router.getNode final m p
     = match first_call calls m p with
       | Some n => (Some n, None)
       | None => (None, Some (errors_New "No Handler Found"))
       end).
Proof.
  pose proof (@RegisterRoute_of_unique router.Node) as (H1 & H2 & H3).
  pose proof (@RegisterRoute_of_unique go_router.Node) as (G1 & G2 & G3).
  repeat split; first [exact H1 | exact H2 | exact H3 | exact G1 | exact G2 | exact G3].
Qed.


(** ** The courses of a dispatch in package router *)

Section DispatchFacts.
Import lifecycle.
Variable ext : Extern.
Variable routes : router.routeMap.
Variable filters : router.filterMap.
Variable ord : router.Orders.
Variable r : http_Request.

Lemma preDispatch_loop_ran fs : forall req w log,
  exists out evs,
    run (router.preDispatch_loop r fs req) (w, log) = (out, (w, log ++ evs)) /\
    pre_ran r fs req out evs.
Proof.
  induction fs as [|[n f] fs IH]; intros req w log.
  - exists (Norm (req, None)), []. rewrite app_nil_r. split; [done|constructor].
  - cbn [router.preDispatch_loop].
    destruct (router.PreDispatch f r req) as [req' [e|]|v] eqn:Hhook.
    + eexists _, _. split; [reflexivity|]. by constructor.
    + destruct (IH req' w (log ++ [router.EvPreDispatch n req (router.HookReturns req' None)]))
        as (out & evs & Hrun & Hran).
      exists out, (router.EvPreDispatch n req (router.HookReturns req' None) :: evs).
      split; [|by constructor].
      cbn. cbn in Hrun. rewrite Hrun. by rewrite <- app_assoc.
    + eexists _, _. split; [reflexivity|]. by constructor.
Qed.


Lemma postDispatch_loop_ran fs : forall req w log,
  exists out evs,
    run (router.postDispatch_loop r fs req) (w, log) = (out, (w, log ++ evs)) /\
    post_ran r fs req out evs.
Proof.
  induction fs as [|[n f] fs IH]; intros req w log.
  - exists (Norm (req, None)), []. rewrite app_nil_r. split; [done|constructor].
  - cbn [router.postDispatch_loop].
    destruct (router.PostDispatch f r req) as [req' [e|]|v] eqn:Hhook.
    + eexists _, _. split; [reflexivity|]. by constructor.
    + destruct (IH req' w (log ++ [router.EvPostDispatch n req (router.HookReturns req' None)]))
        as (out & evs & Hrun & Hran).
      exists out, (router.EvPostDispatch n req (router.HookReturns req' None) :: evs).
      split; [|by constructor].
      cbn. cbn in Hrun. rewrite Hrun. by rewrite <- app_assoc.
    + eexists _, _. split; [reflexivity|]. by constructor.
Qed.

Lemma pre_ran_outcome fs req out evs :
  pre_ran r fs req out evs ->
  (exists req', out = Norm (req', None)) \/
  (exists req' e, out = Norm (req', Some e)) \/
  (exists v, out = Panicking v).
Proof. induction 1; eauto. Qed.

Lemma post_ran_outcome fs req out evs :
  post_ran r fs req out evs ->
  (exists req', out = Norm (req', None)) \/
  (exists req' e, out = Norm (req', Some e)) \/
  (exists v, out = Panicking v).
Proof. induction 1; eauto. Qed.

Lemma getNode_cases m k :
  (exists i, router.getNode routes m k = (Some i, None)) \/
  (exists e, router.getNode routes m k = (None, Some e)).
Proof.
  unfold router.getNode, getNode_of.
  destruct (routes !! m) as [nodes|]; [|eauto].
  destruct (nodes !! k); eauto.
Qed.

Lemma setInputParam_loop_cases p kvs : forall t,
  (exists t' err, router.setInputParam_loop ext p kvs t = Val (t', err)) \/
  (exists v, router.setInputParam_loop ext p kvs t = Panic v).
Proof.
  induction kvs as [|[k0 v] rest IH]; intros t; cbn [router.setInputParam_loop]; [eauto|].
  destruct (router.FieldByName p (router.upperFirst ext k0)) as [sv|]; [|eauto].
  unfold router.reflect_Set.
  destruct (router.field_Kind sv).
  - destruct (router.RequestParam_int ext v) as [value [e|]]; [eauto|].
    destruct (router.field_exported sv); cbn; eauto.
  - destruct (router.RequestParam_float ext v) as [value [e|]]; [eauto|].
    destruct (router.field_exported sv); cbn; eauto.
  - destruct (router.RequestParam_bool v) as [value [e|]]; [eauto|].
    destruct (router.field_exported sv); cbn; eauto.
  - unfold router.assert_string.
    destruct (router.Value v); cbn; eauto; destruct (router.field_exported sv); cbn; eauto.
  - eauto.
Qed.

Lemma parseForm_loop_cases kvs : forall req,
  (exists req', router.parseForm_loop kvs req = Val req') \/
  (exists v, router.parseForm_loop kvs req = Panic v).
Proof.
  induction kvs as [|[k v] rest IH]; intros req; cbn [router.parseForm_loop]; [eauto|].
  unfold index. destruct (v !! 0); cbn; eauto.
Qed.


Lemma run_bind {Ev A B} (m : Run Ev A) (f : A -> Run Ev B) st :
  run (m ≫= f) st
  = match run m st with
    | (Norm a, st') => run (f a) st'
    | (Return_, st') => (Return_, st')
    | (Panicking v, st') => (Panicking v, st')
    | (OutOfFuel, st') => (OutOfFuel, st')
    end.
Proof. reflexivity. Qed.

Ltac norm_log := rewrite <- ?app_assoc; cbn [app].

Ltac fatal c :=
  eexists _, _; split; [reflexivity|];
  apply dispatched_fatal; norm_log; eapply c; eauto.

Ltac missing c :=
  eexists _, _; split; [reflexivity|];
  apply dispatched_not_found; norm_log; eapply c; eauto.

Ltac step :=
  cbn [run mbind Run_bind emit respond return_ panic lift router.panic_on
       mret Run_ret fst snd app].

Lemma Dispatch_dispatched w :
  exists w' log, router.Dispatch ext routes filters ord w r = Val (w', log) /\
                 dispatched ext routes filters ord r w w' log.
Proof.
  unfold router.Dispatch, router.Dispatch_body.
  set (w0 := Header_Set "Content-Type" JSON w).
  destruct (ParseForm r) as [e|] eqn:Hform.
  { step. eexists _, _. split; [reflexivity|].
    apply (dispatched_fatal _ _ _ _ _ _ (PanicError e) [router.EvParseForm (Some e)]).
    by constructor. }
  step.
  assert (Htail : forall key req log0,
    parsed ext r key req log0 ->
    exists w' log,
      (let (o, st) :=
         run (let '(c, err) := router.getNode routes (Method r) key in
              _ ← emit (router.EvGetNode (Method r) key err);
              match c, err with
              | Some i, None =>
                  '(t, err) ← lift (router.setInputParam ext (router.order_bind ord) i req);
                  _ ← emit (router.EvSetInputParam req t err);
                  match err with
                  | Some _ => _ ← emit router.EvNotFound; _ ← respond notFound; return_
                  | None =>
                      req ← lift (router.parseForm r req);
                      '(req, err) ← router.preDispatch filters (router.order_pre ord) r req;
                      _ ← router.panic_on err;
                      let cont := router.Call i t in
                      _ ← emit (router.EvCall t cont);
                      match cont with
                      | router.CallPanics pv => panic pv
                      | router.Returns result err =>
                          _ ← router.panic_on err;
                          '(req, err) ← router.postDispatch filters (router.order_post ord) r req;
                          _ ← router.panic_on err;
                          let '(data, err) := json_Marshal ext result in
                          _ ← emit (router.EvMarshal err);
                          _ ← router.panic_on err;
                          respond (Write data)
                      end
                  end
              | _, _ => _ ← emit router.EvNotFound; _ ← respond notFound; return_
              end) (w0, log0) in
       match o with
       | Panicking v => let (w', log) := st in Val (internalError w', log ++ [router.EvRecover v])
       | OutOfFuel => Timeout
       | _ => Val st
       end) = Val (w', log) /\
      dispatched ext routes filters ord r w w' log).
  { intros key req log0 Hparsed.
    destruct (getNode_cases (Method r) key) as [[i Hnode]|[e Hnode]]; rewrite Hnode; step.
    2:{ missing not_found_route. }
    unfold router.setInputParam.
    destruct (setInputParam_loop_cases (router.In0 i)
                (range_map (router.order_bind ord) req) (router.reflect_New (router.In0 i)))
      as [(t & err & Hbind)|(v & Hbind)]; rewrite Hbind; step.
    2:{ fatal panics_bind. }
    destruct err as [e|]; step.
    { missing not_found_bind. }
    assert (Hbound : bound ext routes ord r i req t
              (log0 ++ [router.EvGetNode (Method r) key None; router.EvSetInputParam req t None])).
    { econstructor; eauto. }
    norm_log. set (log1 := log0 ++ _) in *. clearbody log1.
    unfold router.parseForm.
    destruct (parseForm_loop_cases (map_to_list (Form r)) req) as [(req1 & Hmerge)|(v & Hmerge)];
      rewrite Hmerge; step.
    2:{ fatal panics_merge. }
    unfold router.preDispatch.
    destruct (preDispatch_loop_ran (range_map (router.order_pre ord) filters) req1 w0 log1)
      as (out & evs & Hrun & Hpre). rewrite run_bind, Hrun. clear Hrun.
    destruct (pre_ran_outcome _ _ _ _ Hpre) as [(req2 & ->)|[(req2 & e & ->)|(v & ->)]]; step.
    2:{ fatal panics_pre_failed. }
    2:{ fatal panics_pre_panicked. }
    assert (Hpref : prefiltered ext routes filters ord r i t req2 (log1 ++ evs)).
    { econstructor; eauto. }
    set (log2 := log1 ++ evs) in *. clearbody log2.
    destruct (router.Call i t) as [result [e|]|v] eqn:Hcall; step.
    { fatal panics_call_failed. }
    2:{ fatal panics_call_panicked. }
    unfold router.postDispatch.
    destruct (postDispatch_loop_ran (range_map (router.order_post ord) filters) req2 w0
                (log2 ++ [router.EvCall t (router.Returns result None)]))
      as (out & evs' & Hrun' & Hpost). rewrite run_bind, Hrun'. clear Hrun'.
    norm_log.
    destruct (post_ran_outcome _ _ _ _ Hpost) as [(req3 & ->)|[(req3 & e & ->)|(v & ->)]]; step.
    2:{ fatal panics_post_failed. }
    2:{ fatal panics_post_panicked. }
    assert (Hpostf : postfiltered ext routes filters ord r result
                       (log2 ++ router.EvCall t (router.Returns result None) :: evs')).
    { econstructor; eauto. }
    set (log3 := log2 ++ router.EvCall _ _ :: evs') in *. clearbody log3.
    destruct (json_Marshal ext result) as [data [e|]] eqn:Hm; step.
    { fatal panics_marshal. }
    eexists _, _. split; [reflexivity|].
    eapply dispatched_ok; eauto. }
  destruct (String.eqb_spec (Method r) "GET") as [Hget|Hget];
    [|destruct (String.eqb_spec (Method r) "DELETE") as [Hdel|Hdel]]; cbn [orb].
  3: destruct (String.eqb_spec (Method r) "POST") as [Hpost|Hpost].
  1,2: rewrite run_bind; destruct (parseGet_total r ∅) as (req & key & [e|] & Hpg);
       rewrite Hpg; step;
       [missing not_found_path
       |exact (Htail key req [router.EvParseForm None; router.EvParseGet key None]
                 (parsed_path ext r key req Hform ltac:(tauto) Hpg))].
  - destruct (router.parseBody ext r ∅) as [req [e|]] eqn:Hbody; step.
    + eexists _, _. split; [reflexivity|].
      apply (dispatched_fatal _ _ _ _ _ _ (PanicError e)
               [router.EvParseForm None; router.EvParseBody (Some e)]).
      eapply panics_body; eauto.
    + exact (Htail (URL_Path r) req [router.EvParseForm None; router.EvParseBody None]
               (parsed_body ext r req Hform Hpost Hbody)).
  - step. eexists _, _. split; [reflexivity|].
    apply dispatched_not_supported; [done|]. unfold supported. tauto.
Qed.
End DispatchFacts.

(** ** The log of a dispatch is in the order of the stages *)

Section LogFacts.
Import lifecycle.
Variable ext : Extern.
Variable routes : router.routeMap.
Variable filters : router.filterMap.
Variable ord : router.Orders.
Variable r : http_Request.

Lemma passed_upto_mono n m e : n <= m -> passed_upto n e -> passed_upto m e.
Proof. intros Hle [Hv Hs]. split; [done|lia]. Qed.

Lemma Forall_passed_upto_mono n m log :
  n <= m -> Forall (passed_upto n) log -> Forall (passed_upto m) log.
Proof.
  intros Hle H. eapply Forall_impl; [exact H|]. intros e. by apply passed_upto_mono.
Qed.

Lemma parsed_log key req log :
  parsed ext r key req log -> Forall (passed_upto 2) log.
Proof. destruct 1; repeat constructor. Qed.

Lemma bound_log i req t log :
  bound ext routes ord r i req t log -> Forall (passed_upto 4) log.
Proof.
  destruct 1 as [key req log i t Hparsed _ _]. apply Forall_app. split.
  - eapply Forall_passed_upto_mono; [|by eapply parsed_log]. lia.
  - repeat constructor.
Qed.

Lemma pre_ran_log fs req out evs :
  pre_ran r fs req out evs ->
  exists qs, Forall (passed_upto 5) qs /\
    ((exists req', out = Norm (req', None) /\ evs = qs) \/
     (exists last v, evs = qs ++ [last] /\ verdict last = Fatal v /\ stage last = 5 /\
        ((exists req' e, out = Norm (req', Some e) /\ v = PanicError e) \/
         out = Panicking v))).
Proof.
  induction 1 as [req|n f fs req req' out evs Hhook Hran IH|n f fs req req' e Hhook|n f fs req v Hhook].
  - exists []. split; [constructor|]. left. eauto.
  - destruct IH as (qs & Hqs & Hcases).
    exists (router.EvPreDispatch n req (router.HookReturns req' None) :: qs).
    split; [constructor; [split; [done|cbn; lia]|done]|].
    destruct Hcases as [(req'' & -> & ->)|(last & v & -> & Hv & Hs & Hout)]; [left; eauto|].
    right. exists last, v. eauto.
  - exists []. split; [constructor|]. right. eexists _, _. split; [done|]. cbn. eauto 10.
  - exists []. split; [constructor|]. right. eexists _, _. split; [done|]. cbn. eauto 10.
Qed.

Lemma post_ran_log fs req out evs :
  post_ran r fs req out evs ->
  exists qs, Forall (passed_upto 7) qs /\
    ((exists req', out = Norm (req', None) /\ evs = qs) \/
     (exists last v, evs = qs ++ [last] /\ verdict last = Fatal v /\ stage last = 7 /\
        ((exists req' e, out = Norm (req', Some e) /\ v = PanicError e) \/
         out = Panicking v))).
Proof.
  induction 1 as [req|n f fs req req' out evs Hhook Hran IH|n f fs req req' e Hhook|n f fs req v Hhook].
  - exists []. split; [constructor|]. left. eauto.
  - destruct IH as (qs & Hqs & Hcases).
    exists (router.EvPostDispatch n req (router.HookReturns req' None) :: qs).
    split; [constructor; [split; [done|cbn; lia]|done]|].
    destruct Hcases as [(req'' & -> & ->)|(last & v & -> & Hv & Hs & Hout)]; [left; eauto|].
    right. exists last, v. eauto.
  - exists []. split; [constructor|]. right. eexists _, _. split; [done|]. cbn. eauto 10.
  - exists []. split; [constructor|]. right. eexists _, _. split; [done|]. cbn. eauto 10.
Qed.

Lemma pre_ran_passed fs req req' evs :
  pre_ran r fs req (Norm (req', None)) evs -> Forall (passed_upto 5) evs.
Proof.
  intros H. destruct (pre_ran_log _ _ _ _ H) as (qs & Hqs & [(? & _ & ->)|Hbad]); [done|].
  destruct Hbad as (? & ? & _ & _ & _ & [(? & ? & [=] & _)|[=]]).
Qed.

Lemma post_ran_passed fs req req' evs :
  post_ran r fs req (Norm (req', None)) evs -> Forall (passed_upto 7) evs.
Proof.
  intros H. destruct (post_ran_log _ _ _ _ H) as (qs & Hqs & [(? & _ & ->)|Hbad]); [done|].
  destruct Hbad as (? & ? & _ & _ & _ & [(? & ? & [=] & _)|[=]]).
Qed.

Lemma prefiltered_log i t req2 log :
  prefiltered ext routes filters ord r i t req2 log -> Forall (passed_upto 5) log.
Proof.
  destruct 1 as [i req t log req1 req2 evs Hbound _ Hpre]. apply Forall_app. split.
  - eapply Forall_passed_upto_mono; [|by eapply bound_log]. lia.
  - by eapply pre_ran_passed.
Qed.

Lemma postfiltered_log result log :
  postfiltered ext routes filters ord r result log -> Forall (passed_upto 7) log.
Proof.
  destruct 1 as [i t req2 log result req3 evs Hpre Hcall Hpost]. apply Forall_app. split.
  - eapply Forall_passed_upto_mono; [|by eapply prefiltered_log]. lia.
  - constructor; [split; [done|cbn; lia]|]. by eapply post_ran_passed.
Qed.

(** A panic of the body comes after calls that all passed, and but for a
    panic inside the binding or the merge of the form it comes from the last
    call, which no call of a later stage precedes. *)
Lemma pre_ran_fatal fs req out evs v :
  pre_ran r fs req out evs ->
  (exists req' e, out = Norm (req', Some e) /\ v = PanicError e) \/ out = Panicking v ->
  exists qs last, evs = qs ++ [last] /\ Forall (passed_upto 5) qs /\
                  verdict last = Fatal v /\ stage last = 5.
Proof.
  intros H Hout.
  destruct (pre_ran_log _ _ _ _ H) as (qs & Hqs & [(req' & -> & _)|Hlast]).
  - destruct Hout as [(? & ? & [=] & _)|[=]].
  - destruct Hlast as (last & v' & -> & Hv & Hs & Hout').
    exists qs, last. repeat split; try done. rewrite Hv. f_equal.
    destruct Hout as [(rq1 & e1 & Ho1 & Hv1)|Ho1];
      destruct Hout' as [(rq2 & e2 & Ho2 & Hv2)|Ho2]; congruence.
Qed.

Lemma post_ran_fatal fs req out evs v :
  post_ran r fs req out evs ->
  (exists req' e, out = Norm (req', Some e) /\ v = PanicError e) \/ out = Panicking v ->
  exists qs last, evs = qs ++ [last] /\ Forall (passed_upto 7) qs /\
                  verdict last = Fatal v /\ stage last = 7.
Proof.
  intros H Hout.
  destruct (post_ran_log _ _ _ _ H) as (qs & Hqs & [(req' & -> & _)|Hlast]).
  - destruct Hout as [(? & ? & [=] & _)|[=]].
  - destruct Hlast as (last & v' & -> & Hv & Hs & Hout').
    exists qs, last. repeat split; try done. rewrite Hv. f_equal.
    destruct Hout as [(rq1 & e1 & Ho1 & Hv1)|Ho1];
      destruct Hout' as [(rq2 & e2 & Ho2 & Hv2)|Ho2]; congruence.
Qed.

(** A panic of the body comes after calls that all passed.  It comes from
    the last call logged, which no call of a later stage precedes, unless it
    arises inside the binding or the merge of the form, before the hooks. *)
Lemma panics_log v plog :
  panics ext routes filters ord r v plog ->
  (Forall (passed_upto 4) plog) \/
  (exists qs last, plog = qs ++ [last] /\ verdict last = Fatal v /\
                   Forall (passed_upto (stage last)) qs).
Proof.
  destruct 1 as [e He|req e Hf Hm Hb|key req log i v Hp Hn Hb|i req t log v Hb Hm
                |i req t log req1 req2 e evs Hb Hm Hpre|i req t log req1 v evs Hb Hm Hpre
                |i t req2 log result e Hpre Hc|i t req2 log v Hpre Hc
                |i t req2 log result req3 e evs Hpre Hc Hpost
                |i t req2 log result v evs Hpre Hc Hpost
                |result log data e Hpost Hm].
  - right. exists [], (router.EvParseForm (Some e)). by repeat split.
  - right. exists [router.EvParseForm None], (router.EvParseBody (Some e)).
    repeat split; repeat constructor.
  - left. apply Forall_app. split; [|repeat constructor].
    eapply Forall_passed_upto_mono; [|by eapply parsed_log]. lia.
  - left. by eapply bound_log.
  - right. destruct (pre_ran_fatal _ _ _ _ (PanicError e) Hpre) as (qs & last & -> & Hqs & Hv & Hs);
      [left; eauto|].
    exists (log ++ qs), last. rewrite app_assoc. repeat split; [done|]. rewrite Hs.
    apply Forall_app. split; [|done].
    eapply Forall_passed_upto_mono; [|by eapply bound_log]. lia.
  - right. destruct (pre_ran_fatal _ _ _ _ v Hpre) as (qs & last & -> & Hqs & Hv & Hs);
      [by right|].
    exists (log ++ qs), last. rewrite app_assoc. repeat split; [done|]. rewrite Hs.
    apply Forall_app. split; [|done].
    eapply Forall_passed_upto_mono; [|by eapply bound_log]. lia.
  - right. eexists log, _. repeat split.
    eapply Forall_passed_upto_mono; [|by eapply prefiltered_log]. cbn. lia.
  - right. eexists log, _. repeat split.
    eapply Forall_passed_upto_mono; [|by eapply prefiltered_log]. cbn. lia.
  - right. destruct (post_ran_fatal _ _ _ _ (PanicError e) Hpost) as (qs & last & -> & Hqs & Hv & Hs);
      [left; eauto|].
    exists (log ++ router.EvCall t (router.Returns result None) :: qs), last.
    rewrite <- app_assoc. repeat split; [done|]. rewrite Hs.
    apply Forall_app. split; [|constructor; [split; [done|cbn; lia]|done]].
    eapply Forall_passed_upto_mono; [|by eapply prefiltered_log]. lia.
  - right. destruct (post_ran_fatal _ _ _ _ v Hpost) as (qs & last & -> & Hqs & Hv & Hs);
      [by right|].
    exists (log ++ router.EvCall t (router.Returns result None) :: qs), last.
    rewrite <- app_assoc. repeat split; [done|]. rewrite Hs.
    apply Forall_app. split; [|constructor; [split; [done|cbn; lia]|done]].
    eapply Forall_passed_upto_mono; [|by eapply prefiltered_log]. lia.
  - right. eexists log, _. repeat split.
    eapply Forall_passed_upto_mono; [|by eapply postfiltered_log]. cbn. lia.
Qed.

(** The not-found response comes after calls that all passed but the last,
    and before any hook or handler. *)
Lemma not_found_log log :
  not_found ext routes ord r log ->
  exists qs last, log = qs ++ [last; router.EvNotFound] /\
                  Forall (passed_upto 3) qs /\ verdict last = Missing /\ stage last <= 4.
Proof.
  destruct 1 as [req key e Hf Hm Hp|key req log e Hp Hn|key req log i t e Hp Hn Hb].
  - exists [router.EvParseForm None], (router.EvParseGet key (Some e)).
    repeat split; [repeat constructor|cbn; lia].
  - exists log, (router.EvGetNode (Method r) key (Some e)). repeat split; [|cbn; lia].
    eapply Forall_passed_upto_mono; [|by eapply parsed_log]. lia.
  - exists (log ++ [router.EvGetNode (Method r) key None]),
           (router.EvSetInputParam req t (Some e)).
    rewrite <- app_assoc. repeat split; [|cbn; lia].
    apply Forall_app. split; [|repeat constructor].
    eapply Forall_passed_upto_mono; [|by eapply parsed_log]. lia.
Qed.
End LogFacts.

(** ** What a dispatch leaves, by the way it ended *)

Import lifecycle.

Lemma passed_elem n log ev :
  Forall (passed_upto n) log -> ev ∈ log -> verdict ev = Passed /\ stage ev <= n.
Proof. intros H Hin. by apply (proj1 (Forall_forall _ _) H). Qed.

(** What a dispatch on a fresh response writer leaves, by the way it ended. *)
Lemma dispatched_log ext routes filters ord r w' log :
  dispatched ext routes filters ord r new_ResponseWriter w' log ->
  (exists v plog, w' = internalError fresh_writer /\ log = plog ++ [router.EvRecover v] /\
     (Forall (passed_upto 4) plog \/
      exists qs last, plog = qs ++ [last] /\ verdict last = Fatal v /\
                      Forall (passed_upto (stage last)) qs)) \/
  (exists qs last, w' = notFound fresh_writer /\ log = qs ++ [last; router.EvNotFound] /\
     Forall (passed_upto 3) qs /\ verdict last = Missing /\ stage last <= 4) \/
  (w' = notSupported fresh_writer /\ log = [router.EvParseForm None; router.EvNotSupported] /\
   ParseForm r = None /\ ~ supported (Method r)) \/
  (exists data, w' = Write data fresh_writer /\ Forall (passed_upto 8) log).
Proof.
  destruct 1 as [v plog Hp|log Hn|Hf Hm|result plog data Hp Hm].
  - left. exists v, plog. split; [reflexivity|]. split; [reflexivity|].
    by eapply panics_log.
  - right. left. destruct (not_found_log _ _ _ _ _ Hn) as (qs & last & -> & H).
    exists qs, last. split; [reflexivity|]. split; [reflexivity|]. done.
  - right. right. left. split; [reflexivity|]. split; [reflexivity|]. done.
  - right. right. right. exists data. split; [reflexivity|].
    apply Forall_app. split; [|repeat constructor].
    eapply Forall_passed_upto_mono; [|by eapply postfiltered_log]. lia.
Qed.

Lemma Dispatch_log ext routes filters ord r :
  exists w' log,
    router.Dispatch ext routes filters ord new_ResponseWriter r = Val (w', log) /\
    dispatched ext routes filters ord r new_ResponseWriter w' log.
Proof. apply Dispatch_dispatched. Qed.

Ltac elem_cases H :=
  repeat first
    [ apply elem_of_app in H as [H|H]
    | apply elem_of_cons in H as [H|H]
    | apply elem_of_nil in H; destruct H ].


(** Read from the log: every dispatch ends with a response; a logged
    failure is the last call before the recovery, and the response is then
    the internal error; the marks of the two 404 responses fix the response,
    with nothing recovered. *)
Lemma recovery_follows_failure ext routes filters ord r :
  exists w' log,
    router.Dispatch ext routes filters ord new_ResponseWriter r = Val (w', log) /\
    (forall ev v, ev ∈ log -> verdict ev = Fatal v ->
       w' = internalError fresh_writer /\ status w' = Some 500 /\
       exists log0, log = log0 ++ [ev; router.EvRecover v]) /\
    (forall v, router.EvRecover v ∈ log ->
       w' = internalError fresh_writer /\ status w' = Some 500) /\
    (router.EvNotFound ∈ log ->
       w' = notFound fresh_writer /\ status w' = Some 404 /\
       forall v, router.EvRecover v ∉ log) /\
    (router.EvNotSupported ∈ log ->
       w' = notSupported fresh_writer /\ status w' = Some 404 /\
       forall v, router.EvRecover v ∉ log).
Proof.
  destruct (Dispatch_log ext routes filters ord r) as (w' & log & Hrun & Hd).
  exists w', log. split; [done|].
  apply dispatched_log in Hd
    as [(v & plog & -> & -> & Hp)|[(qs & last & -> & -> & Hqs & Hv & Hs)
       |[(-> & -> & _)|(data & -> & Hall)]]].
  - split; [|split; [|split]].
    + intros ev v' Hin Hev. split; [done|]. split; [done|].
      elem_cases Hin; [|subst ev; discriminate].
      destruct Hp as [Hall|(qs & last & -> & Hv & Hqs)].
      * destruct (passed_elem _ _ _ Hall Hin). congruence.
      * elem_cases Hin.
        -- destruct (passed_elem _ _ _ Hqs Hin). congruence.
        -- subst last. assert (v' = v) as -> by congruence.
           exists qs. by rewrite <- app_assoc.
    + done.
    + intros Hin. exfalso. elem_cases Hin; [|discriminate].
      destruct Hp as [Hall|(qs & last & -> & Hv & Hqs)].
      * by destruct (passed_elem _ _ _ Hall Hin).
      * elem_cases Hin; [by destruct (passed_elem _ _ _ Hqs Hin)|by subst last].
    + intros Hin. exfalso. elem_cases Hin; [|discriminate].
      destruct Hp as [Hall|(qs & last & -> & Hv & Hqs)].
      * by destruct (passed_elem _ _ _ Hall Hin).
      * elem_cases Hin; [by destruct (passed_elem _ _ _ Hqs Hin)|by subst last].
  - assert (Hnorec : forall v, router.EvRecover v ∉ qs ++ [last; router.EvNotFound]).
    { intros v Hin. elem_cases Hin; try discriminate.
      - by destruct (passed_elem _ _ _ Hqs Hin).
      - by subst last. }
    split; [|split; [|split]].
    + intros ev v Hin Hev. exfalso. elem_cases Hin; try (subst ev; discriminate).
      * destruct (passed_elem _ _ _ Hqs Hin). congruence.
      * congruence.
    + intros v Hin. by destruct (Hnorec v).
    + done.
    + intros Hin. exfalso. elem_cases Hin; try discriminate.
      * by destruct (passed_elem _ _ _ Hqs Hin).
      * by subst last.
  - split; [|split; [|split]].
    + intros ev v Hin Hev. exfalso. elem_cases Hin; subst ev; discriminate.
    + intros v Hin. exfalso. elem_cases Hin; discriminate.
    + intros Hin. exfalso. elem_cases Hin; discriminate.
    + intros _. split; [done|]. split; [done|].
      intros v Hin. elem_cases Hin; discriminate.
  - split; [|split; [|split]].
    + intros ev v Hin Hev. destruct (passed_elem _ _ _ Hall Hin). congruence.
    + intros v Hin. by destruct (passed_elem _ _ _ Hall Hin).
    + intros Hin. by destruct (passed_elem _ _ _ Hall Hin).
    + intros Hin. by destruct (passed_elem _ _ _ Hall Hin).
Qed.

(** *** A dispatch takes one course

    The courses exclude one another, and each fixes the response and the
    log: what happens at every stage decides what [Dispatch] returns. *)

Section OneCourse.
Variable ext : Extern.
Variable routes : router.routeMap.
Variable filters : router.filterMap.
Variable ord : router.Orders.
Variable r : http_Request.

Lemma pre_ran_fun fs req out1 evs1 out2 evs2 :
  pre_ran r fs req out1 evs1 -> pre_ran r fs req out2 evs2 -> out1 = out2 /\ evs1 = evs2.
Proof.
  intros H1. revert out2 evs2.
  induction H1 as [req|n f fs req req' out evs Hf H1 IH|n f fs req req' e Hf|n f fs req v Hf];
    intros out2 evs2 H2; inversion H2; subst; try congruence; try done.
  - assert (req'0 = req') as -> by congruence.
    destruct (IH _ _ ltac:(eassumption)) as [-> ->]. done.
  - split; congruence.
  - split; congruence.
Qed.

Lemma post_ran_fun fs req out1 evs1 out2 evs2 :
  post_ran r fs req out1 evs1 -> post_ran r fs req out2 evs2 -> out1 = out2 /\ evs1 = evs2.
Proof.
  intros H1. revert out2 evs2.
  induction H1 as [req|n f fs req req' out evs Hf H1 IH|n f fs req req' e Hf|n f fs req v Hf];
    intros out2 evs2 H2; inversion H2; subst; try congruence; try done.
  - assert (req'0 = req') as -> by congruence.
    destruct (IH _ _ ltac:(eassumption)) as [-> ->]. done.
  - split; congruence.
  - split; congruence.
Qed.

Ltac lower :=
  repeat match goal with
  | H : postfiltered _ _ _ _ _ _ _ |- _ => inversion H; subst; clear H
  | H : prefiltered _ _ _ _ _ _ _ _ _ |- _ => inversion H; subst; clear H
  | H : bound _ _ _ _ _ _ _ _ |- _ => inversion H; subst; clear H
  | H : parsed _ _ _ _ _ |- _ => inversion H; subst; clear H
  end.

Ltac same_result :=
  match goal with
  | H1 : Method r = "POST", H2 : Method r = "GET" \/ Method r = "DELETE" |- _ =>
      exfalso; rewrite H1 in H2; destruct H2; discriminate
  | H1 : ?P, H2 : ?P |- _ => clear H2
  | H1 : ?f = ?a, H2 : ?f = ?b |- _ => rewrite H1 in H2; simplify_eq
  | H1 : pre_ran _ ?fs ?q _ _, H2 : pre_ran _ ?fs ?q _ _ |- _ =>
      destruct (pre_ran_fun _ _ _ _ _ _ H1 H2); clear H2; simplify_eq
  | H1 : post_ran _ ?fs ?q _ _, H2 : post_ran _ ?fs ?q _ _ |- _ =>
      destruct (post_ran_fun _ _ _ _ _ _ H1 H2); clear H2; simplify_eq
  end.

Ltac one_course := lower; repeat same_result; try done.

Lemma dispatched_fun w w1 log1 w2 log2 :
  dispatched ext routes filters ord r w w1 log1 ->
  dispatched ext routes filters ord r w w2 log2 ->
  w1 = w2 /\ log1 = log2.
Proof.
  unfold supported.
  destruct 1 as [v plog Hp|lg Hn|Hf Hm|result plog data Hp Hm];
  destruct 1 as [v' plog' Hp'|lg' Hn'|Hf' Hm'|result' plog' data' Hp' Hm'];
  try destruct Hp; try destruct Hn; try destruct Hp'; try destruct Hn'.
  all: one_course.
  all: unfold supported in *; tauto.
Qed.

End OneCourse.

Lemma Dispatch_course ext routes filters ord r w w' log :
  dispatched ext routes filters ord r w w' log ->
  router.Dispatch ext routes filters ord w r = Val (w', log).
Proof.
  intros Hd. destruct (Dispatch_dispatched ext routes filters ord r w) as (w1 & log1 & -> & Hd1).
  by destruct (dispatched_fun _ _ _ _ _ _ _ _ _ _ Hd1 Hd) as [-> ->].
Qed.

Lemma panics_recovered ext routes filters ord r v plog :
  panics ext routes filters ord r v plog -> recovered ext routes filters ord r v plog.
Proof. intros Hp. apply Dispatch_course. by constructor. Qed.

(** C8: a fatal failure at any stage of a dispatch is recovered, and the
    response is the internal error, 500.  Stage by stage, on a fresh
    response writer: a form that does not parse; a body of a POST that
    cannot be read or decoded; a panic of the binding or of the merge of the
    form; a pre-dispatch hook that returns an error or panics; a handler
    that returns an error or panics; a post-dispatch hook that does; a
    result that cannot be encoded.  In each case [Dispatch] returns, so the
    failure does not escape; the failing call is the last one logged before
    the recovery, and nothing runs after it.  A failure of the not-found
    class and a method that is not supported get their 404 response, with
    nothing recovered.  Conversely, in the log of any dispatch a failure is
    followed by the recovery and the 500 response, and a recovery or the
    mark of a 404 response fixes the response. *)
Theorem fatal_failures_are_recovered ext routes filters ord r :
  status (internalError fresh_writer) = Some 500 /\
  (forall e, ParseForm r = Some e ->
     recovered ext routes filters ord r (PanicError e) [router.EvParseForm (Some e)]) /\
  (forall req e,
     ParseForm r = None -> Method r = "POST" -> router.parseBody ext r ∅ = (req, Some e) ->
     recovered ext routes filters ord r (PanicError e)
       [router.EvParseForm None; router.EvParseBody (Some e)]) /\
  (forall key req log i v,
     parsed ext r key req log ->
     router.getNode routes (Method r) key = (Some i, None) ->
     router.setInputParam ext (router.order_bind ord) i req = Panic v ->
     recovered ext routes filters ord r v (log ++ [router.EvGetNode (Method r) key None])) /\
  (forall i req t log v,
     bound ext routes ord r i req t log -> router.parseForm r req = Panic v ->
     recovered ext routes filters ord r v log) /\
  (forall i req t log req1 out evs v,
     bound ext routes ord r i req t log -> router.parseForm r req = Val req1 ->
     pre_ran r (range_map (router.order_pre ord) filters) req1 out evs ->
     hook_failure out = Some v ->
     recovered ext routes filters ord r v (log ++ evs)) /\
  (forall i t req2 log v,
     prefiltered ext routes filters ord r i t req2 log ->
     call_failure (router.Call i t) = Some v ->
     recovered ext routes filters ord r v (log ++ [router.EvCall t (router.Call i t)])) /\
  (forall i t req2 log result out evs v,
     prefiltered ext routes filters ord r i t req2 log ->
     router.Call i t = router.Returns result None ->
     post_ran r (range_map (router.order_post ord) filters) req2 out evs ->
     hook_failure out = Some v ->
     recovered ext routes filters ord r v
       (log ++ router.EvCall t (router.Returns result None) :: evs)) /\
  (forall result log data e,
     postfiltered ext routes filters ord r result log ->
     json_Marshal ext result = (data, Some e) ->
     recovered ext routes filters ord r (PanicError e) (log ++ [router.EvMarshal (Some e)])) /\
  (forall log,
     not_found ext routes ord r log ->
     router.Dispatch ext routes filters ord new_ResponseWriter r
     = Val (notFound fresh_writer, log) /\
     status (notFound fresh_writer) = Some 404 /\
     forall v, router.EvRecover v ∉ log) /\
  (ParseForm r = None -> ~ supported (Method r) ->
     router.Dispatch ext routes filters ord new_ResponseWriter r
     = Val (notSupported fresh_writer, [router.EvParseForm None; router.EvNotSupported]) /\
     status (notSupported fresh_writer) = Some 404) /\
  exists w' log,
    router.Dispatch ext routes filters ord new_ResponseWriter r = Val (w', log) /\
    (forall ev v, ev ∈ log -> verdict ev = Fatal v ->
       w' = internalError fresh_writer /\ status w' = Some 500 /\
       exists log0, log = log0 ++ [ev; router.EvRecover v]) /\
    (forall v, router.EvRecover v ∈ log ->
       w' = internalError fresh_writer /\ status w' = Some 500) /\
    (router.EvNotFound ∈ log ->
       w' = notFound fresh_writer /\ status w' = Some 404 /\
       forall v, router.EvRecover v ∉ log) /\
    (router.EvNotSupported ∈ log ->
       w' = notSupported fresh_writer /\ status w' = Some 404 /\
       forall v, router.EvRecover v ∉ log).
Proof.
  split; [reflexivity|].
  split. { intros e He. apply panics_recovered. by constructor. }
  split. { intros req e Hf Hm Hb. apply panics_recovered. by econstructor. }
  split. { intros key req log i v Hp Hn Hb. apply panics_recovered. by econstructor. }
  split. { intros i req t log v Hb Hm. apply panics_recovered. by econstructor. }
  split.
  { intros i req t log req1 out evs v Hb Hm Hpre Hv. apply panics_recovered.
    destruct out as [[req2 [e|]]| |v'|]; try discriminate Hv; injection Hv as <-.
    - by eapply panics_pre_failed.
    - by eapply panics_pre_panicked. }
  split.
  { intros i t req2 log v Hp Hv. apply panics_recovered.
    destruct (router.Call i t) as [result [e|]|v'] eqn:Hc; try discriminate Hv;
      injection Hv as <-.
    - by eapply panics_call_failed.
    - by eapply panics_call_panicked. }
  split.
  { intros i t req2 log result out evs v Hp Hc Hpost Hv. apply panics_recovered.
    destruct out as [[req3 [e|]]| |v'|]; try discriminate Hv; injection Hv as <-.
    - by eapply panics_post_failed.
    - by eapply panics_post_panicked. }
  split. { intros result log data e Hp Hm. apply panics_recovered. by econstructor. }
  split.
  { intros log Hn. split; [apply Dispatch_course; by constructor|]. split; [reflexivity|].
    intros v Hin. destruct (not_found_log _ _ _ _ _ Hn) as (qs & last & -> & Hqs & Hv & Hs).
    elem_cases Hin; try discriminate.
    - by destruct (passed_elem _ _ _ Hqs Hin).
    - by subst last. }
  split.
  { intros Hf Hm. split; [|reflexivity]. apply Dispatch_course. by constructor. }
  apply recovery_follows_failure.
Qed.

Ltac by_running := vm_compute; reflexivity.

Ltac get_bound :=
  eapply bound_intro;
    [apply parsed_path; [reflexivity|left; reflexivity|by_running]|by_running|by_running].

Ltac hooks_ran :=
  repeat first
    [ apply pre_done | apply post_done
    | eapply pre_failed; by_running | eapply post_failed; by_running
    | eapply pre_next; [by_running|] | eapply post_next; [by_running|] ].

(** One request for each stage: an unparsable form, an unreadable body, a
    pre-dispatch hook that denies, a handler that returns an error, a
    post-dispatch hook that fails, and an encoder that fails. *)
Lemma fatal_failures_are_recovered_witness :
  (exists log, recovered (example_extern ∅) example_routes example_filters example_orders
     PUT_bad_form (PanicError (ExternError "invalid URL escape")) log) /\
  (exists log, recovered (example_extern ∅) example_routes example_filters example_orders
     POST_unread (PanicError (ExternError "unexpected EOF")) log) /\
  (exists log, recovered (example_extern ∅) example_routes example_filters example_orders
     (GET "/v1/test/retrieve/id/42") (PanicError (errors_New "denied")) log) /\
  (exists log, recovered (example_extern ∅) broken_routes allow_filters allow_orders
     (GET "/v1/test/retrieve/id/42") (PanicError (errors_New "no such user")) log) /\
  (exists log, recovered (example_extern ∅) example_routes audit_filters example_orders
     (GET "/v1/test/retrieve/id/42") (PanicError (errors_New "audit failed")) log) /\
  (exists log, recovered (no_json ∅) example_routes allow_filters allow_orders
     (GET "/v1/test/retrieve/id/42") (PanicError (ExternError "json: unsupported type")) log).
Proof.
  split.
  { destruct (fatal_failures_are_recovered (example_extern ∅) example_routes example_filters
                example_orders PUT_bad_form) as (_ & Hform & _).
    eexists. apply Hform. reflexivity. }
  split.
  { destruct (fatal_failures_are_recovered (example_extern ∅) example_routes example_filters
                example_orders POST_unread) as (_ & _ & Hbody & _).
    eexists. eapply Hbody; reflexivity. }
  split.
  { destruct (fatal_failures_are_recovered (example_extern ∅) example_routes example_filters
                example_orders (GET "/v1/test/retrieve/id/42"))
      as (_ & _ & _ & _ & _ & Hpre & _).
    eexists. eapply Hpre; [get_bound|by_running| |].
    - change (range_map (router.order_pre example_orders) example_filters)
        with [("auth", deny)]. hooks_ran.
    - reflexivity. }
  split.
  { destruct (fatal_failures_are_recovered (example_extern ∅) broken_routes allow_filters
                allow_orders (GET "/v1/test/retrieve/id/42"))
      as (_ & _ & _ & _ & _ & _ & Hcall & _).
    eexists. eapply Hcall.
    - eapply prefiltered_intro; [get_bound|by_running|].
      change (range_map (router.order_pre allow_orders) allow_filters) with [("log", allow)].
      hooks_ran.
    - reflexivity. }
  split.
  { destruct (fatal_failures_are_recovered (example_extern ∅) example_routes audit_filters
                example_orders (GET "/v1/test/retrieve/id/42"))
      as (_ & _ & _ & _ & _ & _ & _ & Hpost & _).
    eexists. eapply Hpost.
    - eapply prefiltered_intro; [get_bound|by_running|].
      change (range_map (router.order_pre example_orders) audit_filters) with [("audit", audit)].
      hooks_ran.
    - reflexivity.
    - change (range_map (router.order_post example_orders) audit_filters) with [("audit", audit)].
      hooks_ran.
    - reflexivity. }
  destruct (fatal_failures_are_recovered (no_json ∅) example_routes allow_filters
              allow_orders (GET "/v1/test/retrieve/id/42"))
    as (_ & _ & _ & _ & _ & _ & _ & _ & Hjson & _).
  eexists. eapply Hjson.
  - eapply postfiltered_intro.
    + eapply prefiltered_intro; [get_bound|by_running|].
      change (range_map (router.order_pre allow_orders) allow_filters) with [("log", allow)].
      hooks_ran.
    + reflexivity.
    + change (range_map (router.order_post allow_orders) allow_filters) with [("log", allow)].
      hooks_ran.
  - reflexivity.
Defined.

Section Supported.
Variable ext : Extern.
Variable routes : router.routeMap.
Variable filters : router.filterMap.
Variable ord : router.Orders.
Variable r : http_Request.

Lemma parsed_supported key req log :
  parsed ext r key req log -> ParseForm r = None /\ supported (Method r).
Proof. unfold supported. destruct 1; split; tauto. Qed.

Lemma bound_supported i req t log :
  bound ext routes ord r i req t log -> ParseForm r = None /\ supported (Method r).
Proof. destruct 1. by eapply parsed_supported. Qed.

Lemma prefiltered_supported i t req2 log :
  prefiltered ext routes filters ord r i t req2 log ->
  ParseForm r = None /\ supported (Method r).
Proof. destruct 1. by eapply bound_supported. Qed.

Lemma postfiltered_supported result log :
  postfiltered ext routes filters ord r result log ->
  ParseForm r = None /\ supported (Method r).
Proof. destruct 1. by eapply prefiltered_supported. Qed.

Lemma panics_supported v plog :
  panics ext routes filters ord r v plog ->
  ParseForm r <> None \/ supported (Method r).
Proof.
  destruct 1;
    first [ left; congruence
          | right; unfold supported; tauto
          | right; eapply parsed_supported; eassumption
          | right; eapply bound_supported; eassumption
          | right; eapply prefiltered_supported; eassumption
          | right; eapply postfiltered_supported; eassumption ].
Qed.

Lemma not_found_supported log :
  not_found ext routes ord r log -> supported (Method r).
Proof.
  destruct 1; first [ unfold supported; tauto | eapply parsed_supported; eassumption ].
Qed.

End Supported.

(** The default case of package router, for a form that parses: a request
    whose method is not GET, POST or DELETE gets the method-not-supported
    response, 404, and the dispatch returns at once; its log is the parse of
    the form and the response, so no route is looked up, no hook runs and no
    handler is called. *)
Lemma unsupported_method_not_supported ext routes filters ord r :
  ParseForm r = None ->
  ~ supported (Method r) ->
  router.Dispatch ext routes filters ord new_ResponseWriter r
  = Val (notSupported fresh_writer, [router.EvParseForm None; router.EvNotSupported]) /\
  status (notSupported fresh_writer) = Some 404 /\
  body (notSupported fresh_writer)
  = String.append "Request Method  is not supported." (String "010" EmptyString).
Proof.
  intros Hform Hns. split; [|done].
  destruct (Dispatch_log ext routes filters ord r) as (w' & log & Hrun & Hd).
  rewrite Hrun. f_equal.
  destruct Hd as [v plog Hp|log Hn|Hf Hm|result plog data Hp Hm]; [| |done|]; exfalso.
  - destruct (panics_supported _ _ _ _ _ _ _ Hp); done.
  - by apply Hns, (not_found_supported _ _ _ _ _ Hn).
  - by apply Hns, (postfiltered_supported _ _ _ _ _ _ _ Hp).
Qed.


(** *** The form is merged after the binding *)

Lemma parseForm_loop_merged kvs : forall (req req1 : router.Request),
  NoDup kvs.*1 ->
  router.parseForm_loop kvs req = Val req1 ->
  (forall k v, (k, v) ∈ kvs ->
     exists v0, v !! 0 = Some v0 /\ req1 !! k = Some {| router.Value := VString v0 |}) /\
  (forall k, k ∉ kvs.*1 -> req1 !! k = req !! k).
Proof.
  induction kvs as [|[k v] rest IH]; intros req req1 Hnd Hrun.
  - injection Hrun as <-. split; [|done]. intros k v Hin. by apply elem_of_nil in Hin.
  - cbn [router.parseForm_loop] in Hrun. unfold index in Hrun.
    destruct (v !! 0) as [v0|] eqn:Hv0; [|discriminate]. cbn in Hrun.
    apply NoDup_cons in Hnd as [Hk Hnd].
    destruct (IH _ _ Hnd Hrun) as [Hin Hout]. split.
    + intros k' v' Hin'. apply elem_of_cons in Hin' as [[= -> ->]|Hin'].
      * exists v0. split; [done|]. rewrite (Hout k Hk). apply lookup_insert_eq.
      * by apply Hin.
    + intros k' Hk'. cbn in Hk'. apply not_elem_of_cons in Hk' as [Hne Hk'].
      rewrite (Hout k' Hk'). by apply lookup_insert_ne.
Qed.

Lemma parseForm_merged r (req req1 : router.Request) :
  router.parseForm r req = Val req1 ->
  form_merged r req1 /\ forall k, Form r !! k = None -> req1 !! k = req !! k.
Proof.
  unfold router.parseForm. intros Hrun.
  destruct (parseForm_loop_merged _ _ _ (NoDup_fst_map_to_list (Form r)) Hrun) as [Hin Hout].
  split.
  - intros k v Hk. apply Hin. by apply elem_of_map_to_list.
  - intros k Hk. apply Hout. intros Hin'.
    apply list_elem_of_fmap in Hin' as ([k' v] & -> & Hin').
    apply elem_of_map_to_list in Hin'. cbn in Hk. congruence.
Qed.

Section AfterBinding.
Variable ext : Extern.
Variable routes : router.routeMap.
Variable filters : router.filterMap.
Variable ord : router.Orders.
Variable r : http_Request.

Lemma pre_ran_head fs req out n rq res evs :
  pre_ran r fs req out (router.EvPreDispatch n rq res :: evs) -> rq = req.
Proof. inversion 1; done. Qed.

Lemma pre_ran_stage fs req out evs :
  pre_ran r fs req out evs -> Forall (fun e => stage e = 5) evs.
Proof. induction 1; repeat constructor; done. Qed.

Lemma post_ran_stage fs req out evs :
  post_ran r fs req out evs -> Forall (fun e => stage e = 7) evs.
Proof. induction 1; repeat constructor; done. Qed.

Lemma after_hooks_stage t e : 6 <= stage e -> stage e <> 6 -> after_hooks t e.
Proof. intros H6 Hne. split; [done|]. intros t' res ->. done. Qed.

Lemma after_hooks_call t res : after_hooks t (router.EvCall t res).
Proof. split; [cbn; lia|]. by intros ? ? [= ->]. Qed.

Lemma after_hooks_recover t v : after_hooks t (router.EvRecover v).
Proof. apply after_hooks_stage; cbn; lia. Qed.

Lemma after_hooks_marshal t err : after_hooks t (router.EvMarshal err).
Proof. apply after_hooks_stage; cbn; lia. Qed.

Lemma after_hooks_post t fs req out evs :
  post_ran r fs req out evs -> Forall (after_hooks t) evs.
Proof.
  intros H. eapply Forall_impl; [exact (post_ran_stage _ _ _ _ H)|].
  intros e He. cbn beta in He. apply after_hooks_stage; lia.
Qed.

Ltac after_tail :=
  repeat first
    [ apply Forall_nil_2
    | apply Forall_cons_2
    | apply after_hooks_call
    | apply after_hooks_recover
    | apply after_hooks_marshal
    | apply Forall_app_2
    | eapply after_hooks_post; eassumption ].

Ltac early :=
  repeat first
    [ apply Forall_nil_2
    | apply Forall_cons_2; [cbn; lia|]
    | apply Forall_app_2 ].

Lemma dispatched_hooks w' final :
  dispatched ext routes filters ord r new_ResponseWriter w' final ->
  Forall (fun e => stage e <= 4 \/ stage e = 9) final \/
  exists i req t log0 req1 out evs tail,
    bound ext routes ord r i req t log0 /\
    router.parseForm r req = Val req1 /\
    pre_ran r (range_map (router.order_pre ord) filters) req1 out evs /\
    final = log0 ++ evs ++ tail /\
    Forall (after_hooks t) tail.
Proof.
  assert (Hearly : forall n log, n <= 4 -> Forall (passed_upto n) log ->
                     Forall (fun e => stage e <= 4 \/ stage e = 9) log).
  { intros n log Hn H. eapply Forall_impl; [exact H|]. intros e [_ He]. left. lia. }
  assert (Hpre : forall i t req2 log,
            prefiltered ext routes filters ord r i t req2 log ->
            forall tail, Forall (after_hooks t) tail ->
            exists i req t0 log0 req1 out evs tail0,
              bound ext routes ord r i req t0 log0 /\
              router.parseForm r req = Val req1 /\
              pre_ran r (range_map (router.order_pre ord) filters) req1 out evs /\
              log ++ tail = log0 ++ evs ++ tail0 /\
              Forall (after_hooks t0) tail0).
  { intros i t req2 log [i' req t' log0 req1 req2' evs Hb Hm Hp] tail Htail.
    exists i', req, t', log0, req1, (Norm (req2', None)), evs, tail.
    rewrite <- app_assoc. done. }
  assert (Hpost : forall result log,
            postfiltered ext routes filters ord r result log ->
            forall tail, Forall (fun e => 6 <= stage e /\ stage e <> 6) tail ->
            exists i req t0 log0 req1 out evs tail0,
              bound ext routes ord r i req t0 log0 /\
              router.parseForm r req = Val req1 /\
              pre_ran r (range_map (router.order_pre ord) filters) req1 out evs /\
              log ++ tail = log0 ++ evs ++ tail0 /\
              Forall (after_hooks t0) tail0).
  { intros result log [i t req2 log' result' req3 evs' Hp Hc Hpost] tail Htail.
    rewrite <- app_assoc. eapply Hpre; [exact Hp|].
    cbn [app]. after_tail.
    eapply Forall_impl; [exact Htail|]. intros e [? ?]. by apply after_hooks_stage. }
  destruct 1 as [v plog Hp|lg Hn|Hf Hm|result plog data Hp Hm].
  - destruct Hp as [e He|req e Hf Hm Hb|key req log i v Hp Hn Hb|i req t log v Hb Hm
                |i req t log req1 req2 e evs Hb Hm Hpre'|i req t log req1 v evs Hb Hm Hpre'
                |i t req2 log result e Hpre' Hc|i t req2 log v Hpre' Hc
                |i t req2 log result req3 e evs Hpre' Hc Hpost'
                |i t req2 log result v evs Hpre' Hc Hpost'
                |result log data e Hpost' Hm].
    + left. early.
    + left. early.
    + left. early. eapply (Hearly 2); [lia|by eapply parsed_log].
    + left. early. eapply (Hearly 4); [lia|by eapply bound_log].
    + right. exists i, req, t, log, req1, (Norm (req2, Some e)), evs, [router.EvRecover (PanicError e)].
      rewrite <- app_assoc. do 4 (split; [done|]). after_tail.
    + right. exists i, req, t, log, req1, (Panicking v), evs, [router.EvRecover v].
      rewrite <- app_assoc. do 4 (split; [done|]). after_tail.
    + right. rewrite <- app_assoc. eapply Hpre; [exact Hpre'|]. cbn [app]. after_tail.
    + right. rewrite <- app_assoc. eapply Hpre; [exact Hpre'|]. cbn [app]. after_tail.
    + right. rewrite <- app_assoc. eapply Hpre; [exact Hpre'|]. cbn [app]. after_tail.
    + right. rewrite <- app_assoc. eapply Hpre; [exact Hpre'|]. cbn [app]. after_tail.
    + right. rewrite <- app_assoc. eapply Hpost; [exact Hpost'|].
      cbn [app]. repeat (apply Forall_cons_2; [cbn; lia|]). apply Forall_nil_2.
  - left. destruct (not_found_log _ _ _ _ _ Hn) as (qs & last & -> & Hqs & Hv & Hs).
    early. eapply (Hearly 3); [lia|done].
  - left. early.
  - right. eapply Hpost; [exact Hp|].
    repeat (apply Forall_cons_2; [cbn; lia|]). apply Forall_nil_2.
Qed.

End AfterBinding.

Section Binding.
Variable ext : Extern.
Variable routes : router.routeMap.
Variable filters : router.filterMap.
Variable ord : router.Orders.
Variable r : http_Request.

Local Abbreviation binds_parsed := (lifecycle.binds_parsed ext routes ord r).

Lemma binds_parsed_app l1 l2 : binds_parsed l1 -> binds_parsed l2 -> binds_parsed (l1 ++ l2).
Proof. intros H1 H2 req t err Hin. apply elem_of_app in Hin as [Hin|Hin]; eauto. Qed.

Lemma binds_parsed_other log : Forall (fun e => stage e <> 4) log -> binds_parsed log.
Proof.
  intros H req t err Hin. exfalso.
  apply (proj1 (Forall_forall _ _) H) in Hin. by apply Hin.
Qed.

Lemma binds_parsed_upto n log : n < 4 -> Forall (passed_upto n) log -> binds_parsed log.
Proof.
  intros Hn H. apply binds_parsed_other.
  eapply Forall_impl; [exact H|]. intros e [_ He]. lia.
Qed.

Lemma binds_parsed_stage n log : n <> 4 -> Forall (fun e => stage e = n) log -> binds_parsed log.
Proof.
  intros Hn H. apply binds_parsed_other.
  eapply Forall_impl; [exact H|]. intros e He. cbn beta in He. lia.
Qed.

Ltac other_events :=
  apply binds_parsed_other; repeat (apply Forall_cons_2; [by cbn|]); apply Forall_nil_2.

Lemma bound_binds i req t log :
  bound ext routes ord r i req t log -> binds_parsed log.
Proof.
  destruct 1 as [key req log i t Hp Hn Hb]. apply binds_parsed_app.
  - eapply (binds_parsed_upto 2); [lia|by eapply parsed_log].
  - intros req' t' err Hin. elem_cases Hin; try discriminate.
    injection Hin as -> -> ->. by exists key, log, i.
Qed.

Lemma prefiltered_binds i t req2 log :
  prefiltered ext routes filters ord r i t req2 log -> binds_parsed log.
Proof.
  destruct 1 as [i req t log req1 req2 evs Hb Hm Hp]. apply binds_parsed_app.
  - by eapply bound_binds.
  - eapply (binds_parsed_stage 5); [lia|by eapply pre_ran_stage].
Qed.

Lemma postfiltered_binds result log :
  postfiltered ext routes filters ord r result log -> binds_parsed log.
Proof.
  destruct 1 as [i t req2 log result req3 evs Hp Hc Hpost]. apply binds_parsed_app.
  - by eapply prefiltered_binds.
  - apply (binds_parsed_app [_]); [other_events|].
    eapply (binds_parsed_stage 7); [lia|by eapply post_ran_stage].
Qed.

Lemma dispatched_binds w' final :
  dispatched ext routes filters ord r new_ResponseWriter w' final -> binds_parsed final.
Proof.
  destruct 1 as [v plog Hp|lg Hn|Hf Hm|result plog data Hp Hm].
  - apply binds_parsed_app; [|other_events].
    destruct Hp as [e He|req e Hf Hm Hb|key req log i v Hp Hn Hb|i req t log v Hb Hm
                |i req t log req1 req2 e evs Hb Hm Hpre'|i req t log req1 v evs Hb Hm Hpre'
                |i t req2 log result e Hpre' Hc|i t req2 log v Hpre' Hc
                |i t req2 log result req3 e evs Hpre' Hc Hpost'
                |i t req2 log result v evs Hpre' Hc Hpost'
                |result log data e Hpost' Hm].
    + other_events.
    + other_events.
    + apply binds_parsed_app; [|other_events].
      eapply (binds_parsed_upto 2); [lia|by eapply parsed_log].
    + by eapply bound_binds.
    + apply binds_parsed_app; [by eapply bound_binds|].
      eapply (binds_parsed_stage 5); [lia|by eapply pre_ran_stage].
    + apply binds_parsed_app; [by eapply bound_binds|].
      eapply (binds_parsed_stage 5); [lia|by eapply pre_ran_stage].
    + apply binds_parsed_app; [by eapply prefiltered_binds|other_events].
    + apply binds_parsed_app; [by eapply prefiltered_binds|other_events].
    + apply binds_parsed_app; [by eapply prefiltered_binds|].
      apply (binds_parsed_app [_]); [other_events|].
      eapply (binds_parsed_stage 7); [lia|by eapply post_ran_stage].
    + apply binds_parsed_app; [by eapply prefiltered_binds|].
      apply (binds_parsed_app [_]); [other_events|].
      eapply (binds_parsed_stage 7); [lia|by eapply post_ran_stage].
    + apply binds_parsed_app; [by eapply postfiltered_binds|other_events].
  - destruct Hn as [req key e Hf Hm Hp|key req log e Hp Hn|key req log i t e Hp Hn Hb].
    + other_events.
    + apply binds_parsed_app; [|other_events].
      eapply (binds_parsed_upto 2); [lia|by eapply parsed_log].
    + apply binds_parsed_app; [eapply (binds_parsed_upto 2); [lia|by eapply parsed_log]|].
      intros req' t' err Hin. elem_cases Hin; try discriminate.
      injection Hin as -> -> ->. by exists key, log, i.
  - other_events.
  - apply binds_parsed_app; [by eapply postfiltered_binds|other_events].
Qed.

End Binding.

(** C4, as the code orders the steps: the binding reads the parameter set
    of the path or of the body alone; where a hook, the handler or the
    encoding is reached, the binding has succeeded before, the form is merged
    into that set after it, the first pre-dispatch hook sees the merged set,
    and the handler is called with the input bound before the merge. *)
Theorem form_merged_after_binding ext routes filters ord r w' log :
  router.Dispatch ext routes filters ord new_ResponseWriter r = Val (w', log) ->
  (forall req t err, router.EvSetInputParam req t err ∈ log ->
     exists key log0 i,
       parsed ext r key req log0 /\
       router.getNode routes (Method r) key = (Some i, None) /\
       router.setInputParam ext (router.order_bind ord) i req = Val (t, err)) /\
  (forall ev, ev ∈ log -> 5 <= stage ev <= 8 ->
     exists i req t log0 req1 rest,
       bound ext routes ord r i req t log0 /\
       log = log0 ++ rest /\
       router.parseForm r req = Val req1 /\
       form_merged r req1 /\
       (forall k, Form r !! k = None -> req1 !! k = req !! k) /\
       (forall n rq res, head rest = Some (router.EvPreDispatch n rq res) -> rq = req1) /\
       (forall t' res, router.EvCall t' res ∈ log -> t' = t)).
Proof.
  intros Hrun.
  destruct (Dispatch_log ext routes filters ord r) as (w1 & log1 & Hrun1 & Hd).
  rewrite Hrun in Hrun1. injection Hrun1 as <- <-.
  split; [by eapply dispatched_binds|].
  intros ev Hin Hstage.
  destruct (dispatched_hooks _ _ _ _ _ _ _ Hd)
    as [Hearly|(i & req & t & log0 & req1 & out & evs & tail & Hb & Hm & Hpre & -> & Htail)].
  { apply (proj1 (Forall_forall _ _) Hearly) in Hin. lia. }
  destruct (parseForm_merged _ _ _ Hm) as [Hmerged Hkeep].
  exists i, req, t, log0, req1, (evs ++ tail).
  do 5 (split; [done|]). split.
  - intros n rq res Hhead. destruct evs as [|e0 evs'].
    + destruct tail as [|e0 tail']; [done|]. injection Hhead as ->.
      apply Forall_cons in Htail as [[Hst _] _]. cbn in Hst. lia.
    + injection Hhead as ->. by eapply pre_ran_head.
  - intros t' res Hc. elem_cases Hc.
    + destruct (passed_elem _ _ _ (bound_log _ _ _ _ _ _ _ _ Hb) Hc) as [_ Hst]. cbn in Hst. lia.
    + apply (proj1 (Forall_forall _ _) (pre_ran_stage _ _ _ _ _ Hpre)) in Hc. done.
    + apply (proj1 (Forall_forall _ _) Htail) in Hc as [_ Ht]. by eapply Ht.
Qed.


(** ** The form and the binding: examples *)

(** C4 fails as stated: the form of this request has the parameter id, the
    set that is bound is the empty set of the path, and the handler is
    called with the field Id at zero; had the form been merged before the
    binding, the field would hold 42. *)
Lemma form_values_are_not_bound :
  exists w' log t t42 merged,
    router.Dispatch (example_extern ∅) example_routes ∅ example_orders
      new_ResponseWriter GET_with_form = Val (w', log) /\
    router.EvSetInputParam ∅ t None ∈ log /\
    ~ form_merged GET_with_form ∅ /\
    t !! "Id" = Some (router.FInt 0) /\
    router.EvCall t (router.Returns (VString "user") None) ∈ log /\
    router.parseForm GET_with_form ∅ = Val merged /\
    router.setInputParam (example_extern ∅) (router.order_bind example_orders) GetUser merged
    = Val (t42, None) /\
    t42 !! "Id" = Some (router.FInt 42).
Proof.
  eexists _, _, _, _, _.
  split; [vm_compute; reflexivity|].
  split; [repeat first [apply list_elem_of_here | apply list_elem_of_further]|].
  split.
  { intros H. destruct (H "id" ["42"]) as (v0 & _ & Hlook); [vm_compute; reflexivity|].
    rewrite lookup_empty in Hlook. discriminate. }
  split; [vm_compute; reflexivity|].
  split; [repeat first [apply list_elem_of_here | apply list_elem_of_further]|].
  split; [vm_compute; reflexivity|].
  split; vm_compute; reflexivity.
Qed.

Lemma form_merged_after_binding_witness :
  exists w' log,
    router.Dispatch (example_extern ∅) example_routes ∅ example_orders
      new_ResponseWriter GET_with_form = Val (w', log) /\
    forall req t err, router.EvSetInputParam req t err ∈ log ->
      exists key log0 i,
        parsed (example_extern ∅) GET_with_form key req log0 /\
        router.getNode example_routes (Method GET_with_form) key = (Some i, None) /\
        router.setInputParam (example_extern ∅) (router.order_bind example_orders) i req
        = Val (t, err).
Proof.
  eexists _, _. split; [vm_compute; reflexivity|].
  edestruct (form_merged_after_binding (example_extern ∅) example_routes ∅ example_orders
               GET_with_form) as [Hbind _]; [vm_compute; reflexivity|].
  exact Hbind.
Defined.

(** ** The accessors of a parameter value *)

Ltac storage_cases :=
  intros;
  repeat match goal with
         | H : _ \/ _ |- _ => destruct H
         | H : exists _, _ |- _ => destruct H
         | H : _ /\ _ |- _ => destruct H
         end;
  simplify_eq; try done; eauto 6.

Lemma RequestParam_int_succeeds ext p :
  succeeds (router.RequestParam_int ext p) <->
  (exists s, router.Value p = VString s /\ succeeds (ParseInt s)) \/
  (exists v, router.Value p = VInt64 v) \/
  (exists f, router.Value p = VFloat64 f).
Proof.
  unfold succeeds, router.RequestParam_int.
  destruct p as [[| | | | | |]]; cbn [router.Value fst snd]; split; storage_cases.
Qed.

Lemma RequestParam_float_succeeds ext p :
  succeeds (router.RequestParam_float ext p) <->
  (exists s, router.Value p = VString s /\ succeeds (strconv_ParseFloat ext s)) \/
  (exists v, router.Value p = VInt64 v) \/
  (exists f, router.Value p = VFloat64 f).
Proof.
  unfold succeeds, router.RequestParam_float.
  destruct p as [[| | | | | |]]; cbn [router.Value fst snd]; split; storage_cases.
Qed.

Lemma RequestParam_bool_succeeds p :
  succeeds (router.RequestParam_bool p) <->
  (exists s, router.Value p = VString s /\ succeeds (ParseBool s)) \/
  (exists b, router.Value p = VBool b).
Proof.
  unfold succeeds, router.RequestParam_bool.
  destruct p as [[| | | | | |]]; cbn [router.Value fst snd]; split; storage_cases.
Qed.

(** C6, as the accessors are written: the integer and the float accessor
    succeed on an int64, on a float64, and on a string that parses, and
    fail with Not Found on any other storage; the boolean accessor succeeds
    on a bool and on a string that parses, and fails with Not Found on any
    other storage, an int64 and a float64 included. *)
Theorem accessors_by_storage (ext : Extern) :
  (forall p, succeeds (router.RequestParam_int ext p) <->
     (exists s, router.Value p = VString s /\ succeeds (ParseInt s)) \/
     (exists v, router.Value p = VInt64 v) \/
     (exists f, router.Value p = VFloat64 f)) /\
  (forall p, succeeds (router.RequestParam_float ext p) <->
     (exists s, router.Value p = VString s /\ succeeds (strconv_ParseFloat ext s)) \/
     (exists v, router.Value p = VInt64 v) \/
     (exists f, router.Value p = VFloat64 f)) /\
  (forall p, succeeds (router.RequestParam_bool p) <->
     (exists s, router.Value p = VString s /\ succeeds (ParseBool s)) \/
     (exists b, router.Value p = VBool b)) /\
  fails_only_on_unparsable (router.RequestParam_int ext) ParseInt /\
  fails_only_on_unparsable (router.RequestParam_float ext) (strconv_ParseFloat ext) /\
  (forall p, ~ string_or_number (router.Value p) ->
     (router.RequestParam_int ext p).2 = Some not_found_error /\
     (router.RequestParam_float ext p).2 = Some not_found_error) /\
  (forall p, (forall s, router.Value p <> VString s) -> (forall b, router.Value p <> VBool b) ->
     (router.RequestParam_bool p).2 = Some not_found_error) /\
  (forall s, router.RequestParam_int ext {| router.Value := VString s |} = ParseInt s) /\
  (forall v, router.RequestParam_int ext {| router.Value := VInt64 v |} = (v, None)) /\
  (forall f, router.RequestParam_int ext {| router.Value := VFloat64 f |}
             = (int64_of_float64 ext f, None)) /\
  (forall s, router.RequestParam_float ext {| router.Value := VString s |}
             = strconv_ParseFloat ext s) /\
  (forall v, router.RequestParam_float ext {| router.Value := VInt64 v |}
             = (float64_of_int64 v, None)) /\
  (forall f, router.RequestParam_float ext {| router.Value := VFloat64 f |} = (f, None)) /\
  (forall s, router.RequestParam_bool {| router.Value := VString s |} = ParseBool s) /\
  (forall b, router.RequestParam_bool {| router.Value := VBool b |} = (b, None)).
Proof.
  split; [apply RequestParam_int_succeeds|].
  split; [apply RequestParam_float_succeeds|].
  split; [apply RequestParam_bool_succeeds|].
  split.
  { intros [v] Hkind Hfail. cbn [router.Value] in *.
    destruct v; try done; [exfalso; by apply Hfail..|]. by exists s. }
  split.
  { intros [v] Hkind Hfail. cbn [router.Value] in *.
    destruct v; try done; [exfalso; by apply Hfail..|]. by exists s. }
  split.
  { intros [v] Hkind. cbn [router.Value] in *. by destruct v. }
  split.
  { intros [v] Hs Hb. cbn [router.Value] in *.
    destruct v; try done; [by destruct (Hb b)|by destruct (Hs s)]. }
  repeat split.
Qed.

(** The boolean accessor does not accept an int64: the claim that every
    accessor fails on a string or a number only when a string does not
    parse is false of it. *)
Lemma RequestParam_bool_rejects_int64 :
  router.RequestParam_bool {| router.Value := VInt64 1 |} = (false, Some not_found_error) /\
  ~ fails_only_on_unparsable router.RequestParam_bool ParseBool.
Proof.
  split; [reflexivity|]. intros H.
  destruct (H {| router.Value := VInt64 1 |}) as (s & Hs & _); [done|done|discriminate].
Qed.

(** ** Binding a value that is not a string into a string field *)

(** C7 fails here: the body of the POST gives the number 5 for the string
    field Name; the assertion [v.Value.(string)] panics inside
    [setInputParam], the panic is recovered, and the response is 500 where
    the not-found response was due. No error is returned by the binding. *)
Lemma bind_number_into_string_field :
  exists w' log v,
    router.Dispatch name_5_extern example_routes ∅ example_orders new_ResponseWriter
      POST_name_5 = Val (w', log) /\
    router.setInputParam name_5_extern (router.order_bind example_orders) GetUser
      {[ "name" := {| router.Value := VFloat64 five |} ]} = Panic v /\
    status w' = Some 500 /\
    last log = Some (router.EvRecover v) /\
    router.EvNotFound ∉ log.
Proof.
  eexists _, _, _.
  split; [vm_compute; reflexivity|].
  split; [vm_compute; reflexivity|].
  split; [reflexivity|].
  split; [reflexivity|].
  intros Hin. elem_cases Hin; discriminate.
Qed.

(** X16: a failure of the not-found class (a path that does not parse, a
    route without a handler, a binding that returns an error) ends the
    dispatch with the resource-not-found response, 404, before any hook or
    handler, with nothing recovered. *)
Lemma missing_is_not_found ext routes filters ord r w' log ev :
  router.Dispatch ext routes filters ord new_ResponseWriter r = Val (w', log) ->
  ev ∈ log -> verdict ev = Missing ->
  w' = notFound fresh_writer /\ status w' = Some 404 /\
  (exists qs, log = qs ++ [ev; router.EvNotFound] /\ Forall (passed_upto 3) qs) /\
  (forall v, router.EvRecover v ∉ log).
Proof.
  intros Hrun Hin Hev.
  destruct (Dispatch_log ext routes filters ord r) as (w1 & log1 & Hrun1 & Hd).
  rewrite Hrun in Hrun1. injection Hrun1 as <- <-.
  apply dispatched_log in Hd
    as [(v & plog & -> & -> & Hp)|[(qs & last & -> & -> & Hqs & Hv & Hs)
       |[(-> & -> & _)|(data & -> & Hall)]]].
  - exfalso. elem_cases Hin; [|subst ev; discriminate].
    destruct Hp as [Hall|(qs & last & -> & Hv & Hqs)].
    + destruct (passed_elem _ _ _ Hall Hin). congruence.
    + elem_cases Hin; [destruct (passed_elem _ _ _ Hqs Hin)|]; congruence.
  - assert (ev = last) as ->.
    { elem_cases Hin; try done; [|subst ev; discriminate].
      destruct (passed_elem _ _ _ Hqs Hin). congruence. }
    split; [done|]. split; [done|]. split; [by exists qs|].
    intros v Hc. elem_cases Hc; try discriminate.
    + by destruct (passed_elem _ _ _ Hqs Hc).
    + by subst last.
  - exfalso. elem_cases Hin; subst ev; discriminate.
  - destruct (passed_elem _ _ _ Hall Hin). congruence.
Qed.

(** In package go_router the default case of the switch does not return:
    after the method-not-supported response the pre-dispatch hooks run and
    the route is looked up, under the empty key. *)
Lemma go_router_unsupported_method_runs_on :
  go_router.Dispatch (example_extern ∅) ∅ go_example_filters go_example_orders
    new_ResponseWriter PUT_ok
  = Val (notFound (notSupported fresh_writer),
         [go_router.EvParseForm None; go_router.EvNotSupported;
          go_router.EvPreDispatch "auth" ∅ (go_router.HookReturns ∅ None);
          go_router.EvGetNode "PUT" EmptyString (Some (errors_New "No Handler Found"));
          go_router.EvNotFound]).
Proof. vm_compute. reflexivity. Qed.

(** ** Ranging over a map *)

Lemma range_map_elem {V} (order : list string) (m : gmap string V) k v :
  (k, v) ∈ range_map order m <-> m !! k = Some v.
Proof.
  unfold range_map. rewrite elem_of_app, list_elem_of_omap, list_elem_of_filter,
    elem_of_map_to_list. cbn [fst]. split.
  - intros [(k' & _ & Hk')|[_ Hm]]; [|done].
    destruct (m !! k') as [v'|] eqn:E; [|discriminate].
    cbn in Hk'. by injection Hk' as -> ->.
  - intros Hm. destruct (decide (k ∈ order)) as [Hin|Hout]; [left|by right].
    exists k. rewrite elem_of_remove_dups, Hm. done.
Qed.

Lemma range_map_NoDup {V} (order : list string) (m : gmap string V) :
  NoDup (range_map order m).
Proof.
  unfold range_map. apply NoDup_app. split; [|split].
  - pose proof (NoDup_remove_dups order) as Hnd.
    induction Hnd as [|k ks Hk Hnd IH]; [constructor|].
    cbn [omap list_omap]. destruct (m !! k) as [v|]; [|done]. cbn.
    constructor; [|done]. rewrite list_elem_of_omap. intros (k' & Hin & Hk').
    destruct (m !! k'); [|discriminate]. cbn in Hk'. by injection Hk' as -> ->.
  - intros [k v]. rewrite list_elem_of_omap, list_elem_of_filter. cbn [fst].
    intros (k' & Hin & Hk') [Hout _].
    destruct (m !! k'); [|discriminate]. cbn in Hk'. injection Hk' as -> ->.
    by apply Hout, elem_of_remove_dups.
  - apply NoDup_filter, NoDup_map_to_list.
Qed.

(** Every entry is visited once. *)
Lemma range_map_Permutation {V} (order : list string) (m : gmap string V) :
  range_map order m ≡ₚ map_to_list m.
Proof.
  apply NoDup_Permutation; [apply range_map_NoDup|apply NoDup_map_to_list|].
  intros [k v]. by rewrite range_map_elem, elem_of_map_to_list.
Qed.

Lemma remove_dups_NoDup (l : list string) : NoDup l -> remove_dups l = l.
Proof.
  induction 1 as [|x l Hx Hnd IH]; [done|].
  cbn. destruct (decide_rel elem_of x l); [done|]. by rewrite IH.
Qed.

(** Every order of the entries is the visit of some choice. *)
Lemma range_map_any_order {V} (m : gmap string V) (l : list (string * V)) :
  l ≡ₚ map_to_list m -> range_map l.*1 m = l.
Proof.
  intros Hperm. unfold range_map.
  assert (Hnd : NoDup l.*1).
  { rewrite Hperm. apply NoDup_fst_map_to_list. }
  assert (Hin : forall kv, kv ∈ l -> m !! kv.1 = Some kv.2).
  { intros [k v] Hkv. rewrite Hperm in Hkv. by apply elem_of_map_to_list. }
  assert (Hnil : filter (fun kv : string * V => kv.1 ∉ l.*1) (map_to_list m) = []).
  { destruct (filter _ (map_to_list m)) as [|x rest] eqn:E; [done|]. exfalso.
    assert (Hx : x ∈ filter (fun kv : string * V => kv.1 ∉ l.*1) (map_to_list m))
      by (rewrite E; apply list_elem_of_here).
    apply list_elem_of_filter in Hx as [Hout Hx]. apply Hout.
    rewrite <- Hperm in Hx. apply list_elem_of_fmap. by exists x. }
  rewrite Hnil, app_nil_r, remove_dups_NoDup by done. clear Hperm Hnd Hnil.
  induction l as [|[k v] l IH]; [done|].
  pose proof (Hin (k, v) (list_elem_of_here _ _)) as Hk. cbn [fst snd] in Hk.
  cbn. rewrite Hk. cbn. f_equal.
  apply IH. intros kv Hkv. by apply Hin, list_elem_of_further.
Qed.

(** ** A pre-dispatch hook that fails *)

Lemma pre_names_app l1 l2 : pre_names (l1 ++ l2) = pre_names l1 ++ pre_names l2.
Proof. apply omap_app. Qed.

Lemma pre_names_other log : Forall (fun e => stage e <> 5) log -> pre_names log = [].
Proof.
  induction 1 as [|e log He _ IH]; [done|].
  unfold pre_names in *. cbn. rewrite IH. by destruct e.
Qed.

(** The hooks that ran are those of the first filters of the visit. *)
Lemma pre_ran_names r fs req out evs :
  pre_ran r fs req out evs -> pre_names evs = take (length evs) fs.*1.
Proof.
  induction 1 as [req|n f fs req req' out evs Hhook Hran IH|n f fs req req' e Hhook
                 |n f fs req v Hhook]; cbn; [done| |done|done].
  unfold pre_names in IH. by rewrite IH.
Qed.

Lemma pre_ran_registered r fs req out evs n rq res :
  pre_ran r fs req out evs ->
  router.EvPreDispatch n rq res ∈ evs ->
  exists f, (n, f) ∈ fs /\ res = router.PreDispatch f r rq.
Proof.
  induction 1 as [req|n0 f fs req req' out evs Hhook Hran IH|n0 f fs req req' e Hhook
                 |n0 f fs req v Hhook]; intros Hin.
  - by apply elem_of_nil in Hin.
  - apply elem_of_cons in Hin as [[= -> -> ->]|Hin].
    + exists f. split; [apply list_elem_of_here|done].
    + destruct (IH Hin) as (f' & Hf' & Hres). exists f'.
      split; [by apply list_elem_of_further|done].
  - apply list_elem_of_singleton in Hin as [= -> -> ->].
    exists f. split; [apply list_elem_of_here|done].
  - apply list_elem_of_singleton in Hin as [= -> -> ->].
    exists f. split; [apply list_elem_of_here|done].
Qed.

(** C5: when a pre-dispatch hook of a registered filter returns a failure
    during a dispatch, that hook is the last call before the recovery: the
    hooks that were called are those of the first filters of the visit, up
    to the one that failed, and the hooks of the filters that remained are
    not run; the handler is not called, no post-dispatch hook runs, and the
    response is the internal error, 500.  The hook is that of a filter of the
    registry, at the parameter set the log shows. *)
Theorem pre_dispatch_failure_is_fatal ext routes filters ord r w' log name rq rq' e :
  router.Dispatch ext routes filters ord new_ResponseWriter r = Val (w', log) ->
  router.EvPreDispatch name rq (router.HookReturns rq' (Some e)) ∈ log ->
  w' = internalError fresh_writer /\ status w' = Some 500 /\
  (exists log0,
     log = log0 ++ [router.EvPreDispatch name rq (router.HookReturns rq' (Some e));
                    router.EvRecover (PanicError e)] /\
     Forall (passed_upto 5) log0) /\
  (forall t res, router.EvCall t res ∉ log) /\
  (forall n q res, router.EvPostDispatch n q res ∉ log) /\
  (exists remaining,
     (range_map (router.order_pre ord) filters).*1 = pre_names log ++ remaining /\
     last (pre_names log) = Some name) /\
  (exists f, filters !! name = Some f /\
             router.PreDispatch f r rq = router.HookReturns rq' (Some e)).
Proof.
  intros Hrun Hin.
  destruct (Dispatch_log ext routes filters ord r) as (w1 & log1 & Hrun1 & Hd).
  rewrite Hrun in Hrun1. injection Hrun1 as <- <-.
  set (ev := router.EvPreDispatch name rq (router.HookReturns rq' (Some e))) in *.
  assert (Hev : verdict ev = Fatal (PanicError e)) by done.
  assert (Hnames : (exists remaining,
            (range_map (router.order_pre ord) filters).*1 = pre_names log ++ remaining) /\
          exists f, filters !! name = Some f /\
                    router.PreDispatch f r rq = router.HookReturns rq' (Some e)).
  { destruct (dispatched_hooks _ _ _ _ _ _ _ Hd)
      as [Hearly|(i & req & t & log0 & req1 & out & evs & tail & Hb & _ & Hpre & -> & Htail)].
    { apply (proj1 (Forall_forall _ _) Hearly) in Hin. cbn in Hin. lia. }
    split.
    2:{ assert (Hevs : ev ∈ evs).
        { elem_cases Hin; [|done|].
          - destruct (passed_elem _ _ _ (bound_log _ _ _ _ _ _ _ _ Hb) Hin) as [_ Hst].
            cbn in Hst. lia.
          - apply (proj1 (Forall_forall _ _) Htail) in Hin as [Hst _]. cbn in Hst. lia. }
        destruct (pre_ran_registered _ _ _ _ _ _ _ _ Hpre Hevs) as (f & Hf & Hres).
        exists f. split; [by apply range_map_elem in Hf|done]. }
    exists (drop (length evs) (range_map (router.order_pre ord) filters).*1).
    rewrite !pre_names_app, (pre_names_other log0), (pre_names_other tail),
      (pre_ran_names _ _ _ _ _ Hpre), app_nil_r.
    - cbn [app]. by rewrite take_drop.
    - eapply Forall_impl; [exact Htail|]. intros e0 [He0 _]. lia.
    - eapply Forall_impl; [exact (bound_log _ _ _ _ _ _ _ _ Hb)|]. intros e0 [_ He0]. lia. }
  apply dispatched_log in Hd
    as [(v & plog & -> & -> & Hp)|[(qs & last & -> & -> & Hqs & Hv & Hs)
       |[(-> & -> & _)|(data & -> & Hall)]]].
  - assert (Hshape : exists log0, plog = log0 ++ [ev] /\ v = PanicError e /\
                                  Forall (passed_upto 5) log0).
    { elem_cases Hin; [|discriminate].
      destruct Hp as [Hall|(qs & last & -> & Hv & Hqs)].
      - destruct (passed_elem _ _ _ Hall Hin). congruence.
      - elem_cases Hin.
        + destruct (passed_elem _ _ _ Hqs Hin). congruence.
        + subst last. exists qs. split; [done|]. split; [congruence|done]. }
    destruct Hshape as (log0 & -> & -> & Hlog0).
    split; [done|]. split; [done|]. split.
    { exists log0. by rewrite <- app_assoc. }
    split; [|split].
    + intros t res Hc. elem_cases Hc; try discriminate.
      destruct (passed_elem _ _ _ Hlog0 Hc) as [_ Hst]. cbn in Hst. lia.
    + intros n q res Hc. elem_cases Hc; try discriminate.
      destruct (passed_elem _ _ _ Hlog0 Hc) as [_ Hst]. cbn in Hst. lia.
    + destruct Hnames as [[remaining Hnames] Hreg]. split; [|done].
      exists remaining. split; [done|].
      rewrite !pre_names_app. cbn. rewrite app_nil_r. apply last_snoc.
  - elem_cases Hin; try discriminate.
    + destruct (passed_elem _ _ _ Hqs Hin). congruence.
    + congruence.
  - elem_cases Hin; discriminate.
  - destruct (passed_elem _ _ _ Hall Hin). congruence.
Qed.

Lemma pre_dispatch_failure_witness :
  exists w' log,
    router.Dispatch (example_extern ∅) example_routes example_filters example_orders
      new_ResponseWriter (GET "/v1/test/retrieve/id/42") = Val (w', log) /\
    status w' = Some 500 /\
    forall t res, router.EvCall t res ∉ log.
Proof.
  eexists _, _. split; [vm_compute; reflexivity|].
  edestruct (pre_dispatch_failure_is_fatal (example_extern ∅) example_routes example_filters
               example_orders (GET "/v1/test/retrieve/id/42"))
    as (_ & Hstatus & _ & Hcall & _).
  - vm_compute. reflexivity.
  - repeat first [apply list_elem_of_here | apply list_elem_of_further].
  - split; [exact Hstatus|exact Hcall].
Defined.

(** * Further properties *)

(** ** The path parser of package go_router *)

Lemma toParam_typed ext v : go_router.toParam ext (VString v) = Val (typed ext v).
Proof. unfold typed. by destruct (toParam_cases ext v) as (t & -> & _). Qed.

Lemma go_parseGet_loop_panics ext : forall fuel i (s : list string) (req : go_router.Request),
  length s < i + 2 * fuel ->
  (exists n, length s = i + 2 * n + 1) ->
  go_router.parseGet_loop ext fuel i s req = Panic index_panic.
Proof.
  induction fuel as [|fuel IH]; intros i s req Hfuel [n Hn]; [lia|].
  cbn [go_router.parseGet_loop].
  destruct (Nat.ltb_spec i (length s)) as [Hlt|Hge]; [|lia].
  destruct (s !! (i + 1)) as [v|] eqn:Hv.
  - rewrite (index_lookup _ _ _ Hv). cbn [mbind exec_bind].
    rewrite toParam_typed. cbn [mbind exec_bind].
    destruct (lookup_lt_is_Some_2 s i Hlt) as [k Hk].
    rewrite (index_lookup _ _ _ Hk). cbn [mbind exec_bind].
    apply lookup_lt_Some in Hv.
    apply IH; [rewrite length_insert; lia|].
    rewrite length_insert. exists (n - 1). lia.
  - unfold index. rewrite Hv. reflexivity.
Qed.

Lemma go_parseGet_loop_spec ext : forall fuel i (s : list string) (req : go_router.Request),
  0 < fuel -> length s < i + 2 * fuel ->
  length s <= i \/ (exists n, length s = i + 2 * n) ->
  exists (s' : list string) (req' : go_router.Request),
    go_router.parseGet_loop ext fuel i s req = Val (s', req') /\
    length s' = length s /\
    (forall j, j < i \/ (exists n, j = i + 2 * n) -> s' !! j = s !! j) /\
    (forall n v, s !! (i + 2 * n + 1) = Some v ->
       s' !! (i + 2 * n + 1) = Some (go_router.Type_ (typed ext v))) /\
    (forall k, (forall j, param_index s i j -> s !! j <> Some k) -> req' !! k = req !! k) /\
    (forall j k v,
       param_index s i j -> s !! j = Some k -> s !! (j + 1) = Some v ->
       (forall j', param_index s i j' -> j < j' -> s !! j' <> Some k) ->
       req' !! k = Some (typed ext v)).
Proof.
  induction fuel as [|fuel IH]; intros i s req Hpos Hfuel Heven; [lia|].
  cbn [go_router.parseGet_loop].
  destruct (Nat.ltb_spec i (length s)) as [Hlt|Hge].
  - destruct Heven as [Hle|[n Hn]]; [lia|].
    destruct (lookup_lt_is_Some_2 s i) as [k0 Hk0]; [lia|].
    destruct (lookup_lt_is_Some_2 s (i + 1)) as [v0 Hv0]; [lia|].
    rewrite (index_lookup _ _ _ Hv0). cbn [mbind exec_bind].
    rewrite toParam_typed. cbn [mbind exec_bind].
    rewrite (index_lookup _ _ _ Hk0). cbn [mbind exec_bind].
    set (s1 := <[i + 1 := go_router.Type_ (typed ext v0)]> s).
    assert (Hlen1 : length s1 = length s) by apply length_insert.
    assert (Hs1 : forall j, j <> i + 1 -> s1 !! j = s !! j).
    { intros j Hj. apply list_lookup_insert_ne. lia. }
    destruct (IH (i + 2) s1 (<[k0 := typed ext v0]> req))
      as (s' & req' & Hrun & Hlen & Hsame & Htag & Hkeep & Hset); [lia|lia| |].
    { right. exists (n - 1). lia. }
    assert (Hshift : forall j, param_index s1 (i + 2) j -> param_index s i j).
    { intros j [[m ->] Hj]. split; [exists (S m); lia|lia]. }
    assert (Hshift' : forall j, param_index s i j -> i < j -> param_index s1 (i + 2) j).
    { intros j [[m ->] Hj] Hij. split; [exists (m - 1); lia|lia]. }
    assert (Hfirst : param_index s i i).
    { split; [exists 0; lia|lia]. }
    exists s', req'. split; [done|]. split; [lia|]. split; [|split; [|split]].
    + intros j Hj. rewrite Hsame.
      * apply Hs1. destruct Hj as [Hj|[m ->]]; lia.
      * destruct Hj as [Hj|[m ->]]; [left; lia|].
        destruct m as [|m]; [left; lia|right; exists m; lia].
    + intros m v Hv. destruct m as [|m].
      * replace (i + 2 * 0 + 1) with (i + 1) in * by lia.
        rewrite Hsame by (left; lia). subst s1.
        rewrite list_lookup_insert_eq by lia. congruence.
      * replace (i + 2 * S m + 1) with (i + 2 + 2 * m + 1) in * by lia.
        apply Htag. rewrite Hs1 by lia. done.
    + intros k Hnone. rewrite Hkeep.
      * apply lookup_insert_ne. intros ->. by apply (Hnone i).
      * intros j Hj. rewrite Hs1 by (destruct Hj as [[m ->] _]; lia).
        apply Hnone, Hshift, Hj.
    + intros j k v Hj Hk Hv Hlast.
      destruct (decide (j = i)) as [->|Hne].
      * rewrite Hkeep.
        -- assert (k0 = k) as -> by congruence. assert (v0 = v) as -> by congruence.
           apply lookup_insert_eq.
        -- intros j' Hj'. rewrite Hs1 by (destruct Hj' as [[m ->] _]; lia).
           apply Hlast; [by apply Hshift|]. destruct Hj' as [[m ->] _]. lia.
      * assert (Hij : i < j) by (destruct Hj as [[m ->] _]; lia).
        apply (Hset j).
        -- by apply Hshift'.
        -- rewrite Hs1; [done|]. destruct Hj as [[m ->] _]. lia.
        -- rewrite Hs1; [done|]. destruct Hj as [[m ->] _]. lia.
        -- intros j' Hj' Hlt'. rewrite Hs1 by (destruct Hj' as [[m ->] _]; lia).
           apply Hlast; [by apply Hshift|done].
  - exists s, req. split; [done|]. split; [done|]. split; [done|]. split; [|split; [done|]].
    + intros n v Hv. apply lookup_lt_Some in Hv. lia.
    + intros j k v [[n ->] Hj]. lia.
Qed.

(** ** Joining and splitting *)

Lemma append_assoc (s t u : string) : (s +:+ t) +:+ u = s +:+ (t +:+ u).
Proof. induction s as [|a s IH]; [done|]. rewrite !append_String. by rewrite IH. Qed.

Lemma Split_cons_sep c r : Split (String c r) c = EmptyString :: Split r c.
Proof. cbn. by rewrite Ascii.eqb_refl. Qed.

Lemma Split_cons_ne a c r :
  a <> c -> exists h t, Split r c = h :: t /\ Split (String a r) c = String a h :: t.
Proof.
  intros Hne. cbn. destruct (Ascii.eqb_spec a c); [done|].
  pose proof (Split_length_pos r c) as Hpos.
  destruct (Split r c) as [|h t]; [cbn in Hpos; lia|]. by exists h, t.
Qed.

Lemma Join_cons x y l sep : Join (x :: y :: l) sep = x +:+ sep +:+ Join (y :: l) sep.
Proof. reflexivity. Qed.

(** Joining the segments of a string gives the string back. *)
Lemma Join_Split s c : Join (Split s c) (String c EmptyString) = s.
Proof.
  induction s as [|a r IH]; [done|].
  destruct (decide (a = c)) as [->|Hne].
  - rewrite Split_cons_sep.
    pose proof (Split_length_pos r c) as Hpos.
    destruct (Split r c) as [|h t] eqn:E; [cbn in Hpos; lia|].
    rewrite Join_cons, IH. done.
  - destruct (Split_cons_ne a c r Hne) as (h & t & E & ->). rewrite E in IH.
    destruct t as [|y t]; [cbn in *; by rewrite IH|].
    rewrite Join_cons, append_String, <- Join_cons, IH. done.
Qed.

Lemma Join_app l1 l2 sep :
  l1 <> [] -> l2 <> [] ->
  Join (l1 ++ l2) sep = Join l1 sep +:+ sep +:+ Join l2 sep.
Proof.
  intros H1 H2. induction l1 as [|x l1 IH]; [done|].
  destruct l1 as [|y l1].
  - destruct l2 as [|z l2]; [done|]. reflexivity.
  - change ((x :: y :: l1) ++ l2) with (x :: y :: (l1 ++ l2)).
    rewrite !Join_cons, !append_assoc. do 2 f_equal. apply IH. done.
Qed.

Lemma occurs_app c s t : occurs c (s +:+ t) = occurs c s || occurs c t.
Proof. induction s as [|a s IH]; [done|]. rewrite append_String. cbn. by rewrite IH, orb_assoc. Qed.

Lemma occurs_Split c sep s x : x ∈ Split s sep -> occurs c x = true -> occurs c s = true.
Proof.
  revert x. induction s as [|a r IH]; intros x Hin Hx.
  - apply list_elem_of_singleton in Hin as ->. done.
  - destruct (decide (a = sep)) as [->|Hne].
    + rewrite Split_cons_sep in Hin. apply elem_of_cons in Hin as [->|Hin]; [done|].
      cbn. rewrite (IH x Hin Hx). apply orb_true_r.
    + destruct (Split_cons_ne a sep r Hne) as (h & t & E & E'). rewrite E' in Hin.
      rewrite E in IH. cbn [occurs].
      apply elem_of_cons in Hin as [->|Hin].
      * cbn in Hx. apply orb_true_iff in Hx as [Hx|Hx]; [by rewrite Hx|].
        rewrite (IH h); [apply orb_true_r|apply list_elem_of_here|done].
      * rewrite (IH x); [apply orb_true_r|by apply list_elem_of_further|done].
Qed.

Lemma Split_no_sep sep s x : x ∈ Split s sep -> occurs sep x = false.
Proof.
  revert x. induction s as [|a r IH]; intros x Hin.
  - apply list_elem_of_singleton in Hin as ->. done.
  - destruct (decide (a = sep)) as [->|Hne].
    + rewrite Split_cons_sep in Hin. apply elem_of_cons in Hin as [->|Hin]; [done|]. by apply IH.
    + destruct (Split_cons_ne a sep r Hne) as (h & t & E & E'). rewrite E' in Hin.
      rewrite E in IH.
      apply elem_of_cons in Hin as [->|Hin].
      * cbn. rewrite (IH h) by apply list_elem_of_here.
        destruct (Ascii.eqb_spec a sep); done.
      * apply IH. by apply list_elem_of_further.
Qed.

Lemma occurs_Join c l sep :
  occurs c (Join l sep) = true -> occurs c sep = true \/ exists x, x ∈ l /\ occurs c x = true.
Proof.
  induction l as [|x l IH]; [done|].
  destruct l as [|y l].
  - intros H. right. exists x. split; [apply list_elem_of_here|done].
  - rewrite Join_cons, !occurs_app, !orb_true_iff. intros [H|[H|H]].
    + right. exists x. split; [apply list_elem_of_here|done].
    + by left.
    + destruct (IH H) as [?|(z & Hz & Hoc)]; [by left|].
      right. exists z. split; [by apply list_elem_of_further|done].
Qed.

Lemma occurs_escape_byte c a : c ∈ html_special -> occurs c (escape_byte a) = false.
Proof.
  intros Hc. unfold html_special in Hc.
  repeat (apply elem_of_cons in Hc as [->|Hc]); [| | | |by apply elem_of_nil in Hc];
    unfold escape_byte;
    repeat match goal with
           | |- context [Ascii.eqb ?x ?y] => destruct (Ascii.eqb_spec x y); subst; try done
           end; cbn; rewrite orb_false_r; apply Ascii.eqb_neq; done.
Qed.

Lemma occurs_EscapeString c s : c ∈ html_special -> occurs c (EscapeString s) = false.
Proof.
  intros Hc. induction s as [|a r IH]; [done|].
  cbn [EscapeString]. by rewrite occurs_app, occurs_escape_byte, IH.
Qed.

(** Splitting the join of segments without the separator gives them back. *)
Lemma Split_Join l c :
  l <> [] -> Forall (fun x => occurs c x = false) l ->
  Split (Join l (String c EmptyString)) c = l.
Proof.
  intros Hne Hall. induction Hall as [|x l Hx Hall IH]; [done|]. clear Hne.
  destruct l as [|y l].
  - cbn [Join]. clear IH Hall. induction x as [|a x IHx]; [done|].
    cbn in Hx. apply orb_false_iff in Hx as [Ha Hx]. apply Ascii.eqb_neq in Ha.
    destruct (Split_cons_ne a c x Ha) as (h & t & E & ->). rewrite (IHx Hx) in E.
    by injection E as <- <-.
  - rewrite Join_cons. specialize (IH ltac:(done)).
    set (rest := Join (y :: l) (String c EmptyString)) in *. clearbody rest.
    induction x as [|a x IHx].
    + rewrite append_Empty, append_String, append_Empty, Split_cons_sep. by rewrite IH.
    + cbn in Hx. apply orb_false_iff in Hx as [Ha Hx]. apply Ascii.eqb_neq in Ha.
      rewrite append_String.
      destruct (Split_cons_ne a c (x +:+ String c EmptyString +:+ rest) Ha) as (h & t & E & ->).
      rewrite (IHx Hx) in E. by injection E as <- <-.
Qed.

Lemma even_param_index j : 4 <= j -> Nat.Even j -> exists n, j = 4 + 2 * n.
Proof. intros Hj [m ->]. exists (m - 2). lia. Qed.

Lemma odd_value_index j : 4 < j -> Nat.Odd j -> exists n, j = 4 + 2 * n + 1.
Proof. intros Hj [m ->]. exists (m - 2). lia. Qed.

Lemma go_parseGet_returns (ext : Extern) (r : http_Request) (req : go_router.Request) :
  let s := segments (URL_Path r) in
  ~ (4 < length s /\ Nat.Odd (length s)) ->
  exists (s' : list string) (req' : go_router.Request),
    go_router.parseGet ext r req = Val (req', Join s' "/") /\
    length s' = length s /\
    (forall j, j < 4 \/ Nat.Even j -> s' !! j = s !! j) /\
    (forall j v, 4 < j -> Nat.Odd j -> s !! j = Some v ->
       s' !! j = Some (go_router.Type_ (typed ext v))) /\
    (forall k, (forall i, param_index s 4 i -> s !! i <> Some k) -> req' !! k = req !! k) /\
    (forall i k v,
       param_index s 4 i -> s !! i = Some k -> s !! (i + 1) = Some v ->
       (forall j, param_index s 4 j -> i < j -> s !! j <> Some k) ->
       req' !! k = Some (typed ext v)).
Proof.
  intros s Hn. subst s. unfold go_router.parseGet, segments in *.
  set (s := Split (EscapeString (TrimRight (URL_Path r) slash)) slash) in *.
  pose proof (Split_length_pos (EscapeString (TrimRight (URL_Path r) slash)) slash) as Hpos.
  fold s in Hpos.
  assert (Hgood : length s <= 4 \/ exists n, length s = 4 + 2 * n).
  { destruct (Nat.le_gt_cases (length s) 4) as [?|Hgt]; [by left|right].
    destruct (Nat.Even_or_Odd (length s)) as [Hev|Hodd]; [|tauto].
    apply even_param_index; [lia|done]. }
  destruct (go_parseGet_loop_spec ext (length s) 4 s req)
    as (s' & req' & Hrun & Hlen & Hsame & Htag & Hkeep & Hset); [lia|lia|done|].
  exists s', req'. rewrite Hrun. split; [done|]. split; [done|]. split; [|split; [|done]].
  - intros j [Hj|Hj]; [apply Hsame; by left|].
    destruct (Nat.le_gt_cases 4 j); [|apply Hsame; by left].
    apply Hsame. right. by apply even_param_index.
  - intros j v Hj Hodd Hv. destruct (odd_value_index j Hj Hodd) as [n ->]. by apply Htag.
Qed.

(** X1: the path parser of package go_router.  With [L] segments in the
    escaped, trimmed path: it panics on an index out of range exactly when
    [L] is odd and more than 4 (a name without a value); with at most four
    segments it returns the path itself as the route key and the parameter
    set as it was; otherwise the route key joins the segments in which every
    value [s[i+1]] ([i = 4, 6, ...]) is replaced by the tag of its inferred
    type, and the parameter set binds each name [s[i]] to the typed value of
    [s[i+1]]: a name that is no [s[i]] keeps its binding, and a name that
    occurs several times is bound to the value after its last occurrence. *)
Theorem go_parseGet_spec (ext : Extern) (r : http_Request) (req : go_router.Request) :
  let s := segments (URL_Path r) in
  let L := length s in
  (go_router.parseGet ext r req = Panic index_panic <-> 4 < L /\ Nat.Odd L) /\
  (L <= 4 ->
   go_router.parseGet ext r req = Val (req, EscapeString (TrimRight (URL_Path r) slash))) /\
  (~ (4 < L /\ Nat.Odd L) ->
   exists (s' : list string) (req' : go_router.Request),
     go_router.parseGet ext r req = Val (req', Join s' "/") /\
     length s' = L /\
     (forall j, j < 4 \/ Nat.Even j -> s' !! j = s !! j) /\
     (forall j v, 4 < j -> Nat.Odd j -> s !! j = Some v ->
        s' !! j = Some (go_router.Type_ (typed ext v))) /\
     (forall k, (forall i, param_index s 4 i -> s !! i <> Some k) -> req' !! k = req !! k) /\
     (forall i k v,
        param_index s 4 i -> s !! i = Some k -> s !! (i + 1) = Some v ->
        (forall j, param_index s 4 j -> i < j -> s !! j <> Some k) ->
        req' !! k = Some (typed ext v))).
Proof.
  intros s L. subst L.
  pose proof (go_parseGet_returns ext r req) as Hspec. cbv zeta in Hspec. fold s in Hspec.
  split; [|split; [|exact Hspec]].
  - split.
    + intros Hrun. destruct (Nat.le_gt_cases (length s) 4) as [Hle|Hgt].
      * destruct Hspec as (s' & req' & Hloop & _); [lia|]. rewrite Hloop in Hrun. discriminate.
      * split; [done|]. destruct (Nat.Even_or_Odd (length s)) as [Hev|Hodd]; [|done].
        destruct Hspec as (s' & req' & Hloop & _).
        { intros [_ Hodd]. destruct Hev as [a Ha], Hodd as [b Hb]. lia. }
        rewrite Hloop in Hrun. discriminate.
    + intros [Hgt Hodd]. destruct (odd_value_index _ Hgt Hodd) as [n Hn].
      unfold go_router.parseGet. fold (segments (URL_Path r)). fold s.
      rewrite go_parseGet_loop_panics; [done|lia|by exists n].
  - intros Hle. unfold go_router.parseGet. fold (segments (URL_Path r)). fold s.
    pose proof (Split_length_pos (EscapeString (TrimRight (URL_Path r) slash)) slash) as Hpos.
    fold (segments (URL_Path r)) in Hpos. fold s in Hpos.
    destruct (length s) as [|fuel] eqn:Hlen; [lia|]. cbn [go_router.parseGet_loop].
    rewrite Hlen. destruct (Nat.ltb_spec 4 (S fuel)); [lia|]. cbn [mbind exec_bind].
    f_equal. f_equal. apply Join_Split.
Qed.

Lemma router_parseGet_key (r : http_Request) (req req' : router.Request) (key : string) :
  router.parseGet r req = Val (req', (key, None)) ->
  key = Join (take 4 (segments (URL_Path r))) "/" /\ 4 <= length (segments (URL_Path r)).
Proof.
  unfold router.parseGet, segments.
  set (s := Split (EscapeString (TrimRight (URL_Path r) slash)) slash).
  destruct ((length s <=? 3) || negb (length s mod 2 =? 0)) eqn:E; [discriminate|].
  apply orb_false_iff in E as [E _]. apply Nat.leb_gt in E.
  destruct (parseGet_loop_spec s (length s) 4 req) as (req1 & Hloop & _); [lia|lia|].
  rewrite Hloop. unfold router.slice_0_4.
  destruct (Nat.leb_spec 4 (length s)); [|lia]. cbn. intros [= _ <-]. done.
Qed.

Lemma segments_no_slash path : Forall (fun x => occurs slash x = false) (segments path).
Proof. apply Forall_forall. intros x Hx. by eapply Split_no_sep. Qed.

(** X2: in package router the route key of a path that parses is the part
    of the escaped, trimmed path before its fourth slash: splitting the key
    gives the first four segments back, a path of four segments is its own
    key, and a longer path is the key followed by a slash and the
    parameters. *)
Theorem route_key_is_a_prefix (r : http_Request) (req req' : router.Request) (key : string) :
  router.parseGet r req = Val (req', (key, None)) ->
  let path := EscapeString (TrimRight (URL_Path r) slash) in
  Split key slash = take 4 (segments (URL_Path r)) /\
  length (Split key slash) = 4 /\
  (length (segments (URL_Path r)) = 4 -> key = path) /\
  (4 < length (segments (URL_Path r)) -> exists rest, path = key +:+ String slash rest).
Proof.
  intros Hrun path. subst path.
  destruct (router_parseGet_key r req req' key Hrun) as [-> Hlen].
  set (s := segments (URL_Path r)) in *.
  assert (Htake : take 4 s <> []).
  { intros Hnil. apply (f_equal length) in Hnil. rewrite length_take in Hnil.
    cbn [length] in Hnil. lia. }
  assert (Hsplit : Split (Join (take 4 s) "/") slash = take 4 s).
  { apply (Split_Join (take 4 s) slash); [done|]. apply Forall_take, segments_no_slash. }
  split; [done|]. split; [rewrite Hsplit, length_take; lia|]. split.
  - intros Hlen4. rewrite take_ge by lia. apply Join_Split.
  - intros Hlen4.
    assert (Hdrop : drop 4 s <> []).
    { intros Hnil. apply (f_equal length) in Hnil. rewrite length_drop in Hnil.
      cbn [length] in Hnil. lia. }
    exists (Join (drop 4 s) "/").
    rewrite <- (Join_Split (EscapeString (TrimRight (URL_Path r) slash)) slash).
    fold (segments (URL_Path r)). fold s.
    rewrite <- (take_drop 4 s) at 1.
    apply (Join_app (take 4 s) (drop 4 s) "/"); done.
Qed.

Lemma route_key_is_a_prefix_witness :
  Split "/v1/test/retrieve" slash = take 4 (segments "/v1/test/retrieve/id/42") /\
  exists rest, "/v1/test/retrieve/id/42" = "/v1/test/retrieve" +:+ String slash rest.
Proof.
  destruct (route_key_is_a_prefix (GET "/v1/test/retrieve/id/42") ∅
              {[ "id" := {| router.Value := VString "42" |} ]} "/v1/test/retrieve")
    as (Hsplit & _ & _ & Hrest); [vm_compute; reflexivity|].
  split; [exact Hsplit|]. apply Hrest. vm_compute. lia.
Defined.

Lemma dangling_or_not n : (4 < n /\ Nat.Odd n) \/ ~ (4 < n /\ Nat.Odd n).
Proof.
  destruct (Nat.le_gt_cases n 4); [right; lia|].
  destruct (Nat.Even_or_Odd n) as [[a Ha]|Ho]; [right; intros [_ [b Hb]]; lia|by left].
Qed.

Lemma typed_tag ext v :
  go_router.Type_ (typed ext v)
  ∈ [go_router.INT; go_router.FLOAT; go_router.BOOL; go_router.STRING].
Proof.
  unfold typed. destruct (toParam_cases ext v) as (t & -> & Hcases).
  destruct Hcases as [(_ & ->)|[(_ & _ & ->)|[(_ & _ & _ & ->)|(_ & _ & _ & ->)]]];
    cbn [go_router.Type_]; repeat first [apply list_elem_of_here | apply list_elem_of_further].
Qed.

(** X3: the route key the path parser returns is made from the HTML-escaped
    path, so none of the characters <, >, ' and the double quote occurs in
    it, in either package. *)
Theorem route_key_is_escaped (c : ascii) :
  c ∈ html_special ->
  (forall r req req' key,
     router.parseGet r req = Val (req', (key, None)) -> occurs c key = false) /\
  (forall ext r req req' key,
     go_router.parseGet ext r req = Val (req', key) -> occurs c key = false).
Proof.
  intros Hc.
  assert (Hseg : forall path x, x ∈ segments path -> occurs c x = false).
  { intros path x Hx. destruct (occurs c x) eqn:E; [|done].
    apply (occurs_Split c slash _ x Hx) in E. by rewrite occurs_EscapeString in E. }
  assert (Hslash : occurs c "/" = false /\
                   Forall (fun tag => occurs c tag = false)
                     [go_router.INT; go_router.FLOAT; go_router.BOOL; go_router.STRING]).
  { unfold html_special in Hc.
    repeat (apply elem_of_cons in Hc as [->|Hc]); [..|by apply elem_of_nil in Hc];
      (split; [done|repeat constructor]). }
  destruct Hslash as [Hslash Htags].
  split.
  - intros r req req' key Hrun. destruct (occurs c key) eqn:E; [|done]. exfalso.
    destruct (router_parseGet_key r req req' key Hrun) as [-> _].
    apply occurs_Join in E as [E|(x & Hx & E)]; [congruence|].
    apply elem_of_take in Hx as (i & Hx & _). apply list_elem_of_lookup_2 in Hx.
    rewrite (Hseg _ _ Hx) in E. discriminate.
  - intros ext r req req' key Hrun. destruct (occurs c key) eqn:E; [|done]. exfalso.
    destruct (dangling_or_not (length (segments (URL_Path r)))) as [Hodd|Hn].
    { destruct Hodd as [Hgt Hodd]. destruct (odd_value_index _ Hgt Hodd) as [n Hlen].
      unfold go_router.parseGet in Hrun. fold (segments (URL_Path r)) in Hrun.
      rewrite go_parseGet_loop_panics in Hrun; [discriminate|lia|by exists n]. }
    destruct (go_parseGet_returns ext r req Hn) as (s' & req1 & Hrun' & Hlen & Hsame & Htag & _).
    rewrite Hrun' in Hrun. injection Hrun as _ <-.
    apply occurs_Join in E as [E|(x & Hx & E)]; [congruence|].
    apply list_elem_of_lookup_1 in Hx as [j Hj].
    assert (Hjlt : j < length (segments (URL_Path r))).
    { rewrite <- Hlen. by eapply lookup_lt_Some. }
    destruct (dangling_or_not j) as [Hj4|Hsm].
    2:{ rewrite Hsame in Hj.
        - apply list_elem_of_lookup_2 in Hj. rewrite (Hseg _ _ Hj) in E. discriminate.
        - destruct (Nat.le_gt_cases j 4) as [Hle|Hgt].
          + destruct (decide (j = 4)) as [->|?]; [right; by exists 2|left; lia].
          + right. destruct (Nat.Even_or_Odd j); [done|tauto]. }
    + destruct (lookup_lt_is_Some_2 _ _ Hjlt) as [v Hv].
      rewrite (Htag j v (proj1 Hj4) (proj2 Hj4) Hv) in Hj. injection Hj as <-.
      pose proof (typed_tag ext v) as Hin.
      apply (proj1 (Forall_forall _ _) Htags) in Hin. congruence.
Qed.

Lemma route_key_is_escaped_witness :
  router.parseGet (GET "/v1/te<st/retrieve") ∅ = Val (∅, ("/v1/te&lt;st/retrieve", None)) /\
  occurs "<" "/v1/te&lt;st/retrieve" = false.
Proof.
  split; [vm_compute; reflexivity|].
  destruct (route_key_is_escaped "<"%char) as [Hrouter _]; [apply list_elem_of_here|].
  apply (Hrouter (GET "/v1/te<st/retrieve") ∅ ∅). vm_compute. reflexivity.
Defined.

(** ** Type tags, the body and the form *)

(** X4: in package go_router the parameter [toParam] makes of a string is
    read without a panic by exactly one accessor, the one its type tag
    names: [Int] for {Int}, [Float] for {Float}, [Bool] for {Bool} and
    [String] for {String}; every other accessor panics on it.  [toParam]
    itself panics on a value that is not a string. *)
Theorem accessor_matches_tag (ext : Extern) :
  (forall s, exists t,
     go_router.toParam ext (VString s) = Val t /\
     (returns (go_router.RequestParam_Int t) <-> go_router.Type_ t = go_router.INT) /\
     (returns (go_router.RequestParam_Float t) <-> go_router.Type_ t = go_router.FLOAT) /\
     (returns (go_router.RequestParam_Bool t) <-> go_router.Type_ t = go_router.BOOL) /\
     (returns (go_router.RequestParam_String t) <-> go_router.Type_ t = go_router.STRING) /\
     (go_router.Type_ t <> go_router.INT -> panicking (go_router.RequestParam_Int t)) /\
     (go_router.Type_ t <> go_router.FLOAT -> panicking (go_router.RequestParam_Float t)) /\
     (go_router.Type_ t <> go_router.BOOL -> panicking (go_router.RequestParam_Bool t)) /\
     (go_router.Type_ t <> go_router.STRING -> panicking (go_router.RequestParam_String t))) /\
  (forall i, (forall s, i <> VString s) -> panicking (go_router.toParam ext i)).
Proof.
  split.
  - intros s. destruct (toParam_cases ext s) as (t & Hrun & Hcases). exists t. split; [done|].
    unfold returns, panicking.
    destruct Hcases as [(_ & ->)|[(_ & _ & ->)|[(_ & _ & _ & ->)|(_ & _ & _ & ->)]]];
      cbn; unfold go_router.INT, go_router.FLOAT, go_router.BOOL, go_router.STRING;
      repeat split; intros; try done; try (by eexists);
      repeat match goal with H : exists _, _ |- _ => destruct H end; done.
  - intros i Hi. unfold panicking, go_router.toParam.
    destruct i; cbn; try (by eexists). by destruct (Hi s).
Qed.

Lemma router_parseBody_fold (req : router.Request) (i : gmap string iface) k :
  map_fold (fun k v acc => <[k := {| router.Value := v |}]> acc) req i !! k
  = match i !! k with
    | Some v => Some {| router.Value := v |}
    | None => req !! k
    end.
Proof.
  apply (map_fold_weak_ind
           (fun acc (m : gmap string iface) =>
              acc !! k = match m !! k with
                         | Some v => Some {| router.Value := v |}
                         | None => req !! k
                         end)).
  - by rewrite lookup_empty.
  - intros k' v m acc Hk' IH. destruct (decide (k' = k)) as [->|Hne].
    + by rewrite !lookup_insert_eq.
    + by rewrite !lookup_insert_ne.
Qed.

Lemma go_parseBody_fold (req : go_router.Request) (i : gmap string iface) k :
  map_fold (fun k v acc => <[k := {| go_router.Value := v; go_router.Type_ := EmptyString |}]> acc)
    req i !! k
  = match i !! k with
    | Some v => Some (body_param v)
    | None => req !! k
    end.
Proof.
  apply (map_fold_weak_ind
           (fun acc (m : gmap string iface) =>
              acc !! k = match m !! k with
                         | Some v => Some (body_param v)
                         | None => req !! k
                         end)).
  - by rewrite lookup_empty.
  - intros k' v m acc Hk' IH. destruct (decide (k' = k)) as [->|Hne].
    + by rewrite !lookup_insert_eq.
    + by rewrite !lookup_insert_ne.
Qed.

(** X5: [parseBody], in both packages: when reading the body or decoding
    it fails, the error is returned and the parameter set is as it was;
    otherwise every key of the decoded object is bound to its decoded value
    (in package go_router with an empty type tag), overriding a parameter of
    the same name, and every other parameter is kept. *)
Theorem parseBody_spec (ext : Extern) (r : http_Request) :
  (forall req : router.Request,
     let '(req', err) := router.parseBody ext r req in
     match Body r with
     | (_, Some e) => err = Some e /\ req' = req
     | (b, None) =>
         match json_Unmarshal ext b with
         | (_, Some e) => err = Some e /\ req' = req
         | (i, None) =>
             err = None /\
             forall k, req' !! k = match i !! k with
                                   | Some v => Some {| router.Value := v |}
                                   | None => req !! k
                                   end
         end
     end) /\
  (forall req : go_router.Request,
     let '(req', err) := go_router.parseBody ext r req in
     match Body r with
     | (_, Some e) => err = Some e /\ req' = req
     | (b, None) =>
         match json_Unmarshal ext b with
         | (_, Some e) => err = Some e /\ req' = req
         | (i, None) =>
             err = None /\
             forall k, req' !! k = match i !! k with
                                   | Some v => Some (body_param v)
                                   | None => req !! k
                                   end
         end
     end).
Proof.
  split; intros req; unfold router.parseBody, go_router.parseBody;
    destruct (Body r) as [b [e|]]; [done| |done|];
    destruct (json_Unmarshal ext b) as [i [e|]]; [done| |done|]; (split; [done|]); intros k.
  - apply router_parseBody_fold.
  - apply go_parseBody_fold.
Qed.

Section ParseFormLoops.
Context {P : Type}.
Variable loop : list (string * list string) -> gmap string P -> exec (gmap string P).
Variable mk : string -> P.
Hypothesis loop_nil : forall req, loop [] req = Val req.
Hypothesis loop_cons : forall k v rest req,
  loop ((k, v) :: rest) req
  = match v !! 0 with
    | Some v0 => loop rest (<[k := mk v0]> req)
    | None => Panic index_panic
    end.

Lemma form_loop_panics kvs : forall req,
  (exists k, (k, []) ∈ kvs) -> loop kvs req = Panic index_panic.
Proof.
  induction kvs as [|[k v] rest IH]; intros req [k0 Hin].
  - by apply elem_of_nil in Hin.
  - rewrite loop_cons. destruct v as [|v0 v]; [done|]. cbn.
    apply IH. exists k0. apply elem_of_cons in Hin as [[=]|Hin]; done.
Qed.

Lemma form_loop_returns kvs : forall req,
  NoDup kvs.*1 -> (forall k, (k, []) ∉ kvs) ->
  exists req', loop kvs req = Val req' /\
    forall k, req' !! k = match (list_to_map kvs : gmap string (list string)) !! k with
                          | Some (v0 :: _) => Some (mk v0)
                          | _ => req !! k
                          end.
Proof.
  induction kvs as [|[k v] rest IH]; intros req Hnd Hne.
  - exists req. by rewrite loop_nil.
  - rewrite loop_cons. destruct v as [|v0 v].
    { exfalso. apply (Hne k), list_elem_of_here. }
    cbn [lookup list_lookup]. rewrite fmap_cons in Hnd. cbn [fst] in Hnd.
    apply NoDup_cons in Hnd as [Hk Hnd].
    destruct (IH (<[k := mk v0]> req) Hnd) as (req' & Hrun & Hlook).
    { intros k' Hin. apply (Hne k'). by apply list_elem_of_further. }
    exists req'. split; [done|]. intros k'. rewrite Hlook, list_to_map_cons.
    destruct (decide (k = k')) as [->|Hkk].
    + rewrite (not_elem_of_list_to_map_1 rest k') by done.
      by rewrite !lookup_insert_eq.
    + by rewrite !lookup_insert_ne by done.
Qed.
End ParseFormLoops.

Lemma empty_value_in_form (m : gmap string (list string)) :
  (exists k, (k, []) ∈ map_to_list m) \/ (forall k, (k, []) ∉ map_to_list m).
Proof.
  destruct (decide (Exists (fun kv : string * list string => kv.2 = []) (map_to_list m)))
    as [Hex|Hno].
  - left. apply Exists_exists in Hex as ([k v] & Hin & Hv). cbn in Hv. subst v. by exists k.
  - right. intros k Hin. apply Hno, Exists_exists. by exists (k, []).
Qed.

(** X6: [parseForm] of package router panics on an index out of range
    exactly when some key of the form has an empty list of values; otherwise
    it binds every key of the form to the first of its values, as a string,
    overriding a parameter of the same name, and keeps every other
    parameter. *)
Theorem parseForm_spec (r : http_Request) (req : router.Request) :
  (router.parseForm r req = Panic index_panic <-> exists k, Form r !! k = Some []) /\
  ((forall k, Form r !! k <> Some []) ->
   exists req', router.parseForm r req = Val req' /\
     forall k, req' !! k = match Form r !! k with
                           | Some (v0 :: _) => Some {| router.Value := VString v0 |}
                           | _ => req !! k
                           end).
Proof.
  unfold router.parseForm.
  assert (Hcons : forall k v rest (rq : router.Request),
            router.parseForm_loop ((k, v) :: rest) rq
            = match v !! 0 with
              | Some v0 => router.parseForm_loop rest (<[k := {| router.Value := VString v0 |}]> rq)
              | None => Panic index_panic
              end).
  { intros k v rest rq. cbn [router.parseForm_loop]. unfold index. by destruct (v !! 0). }
  assert (Hret : (forall k, Form r !! k <> Some []) ->
            exists req', router.parseForm_loop (map_to_list (Form r)) req = Val req' /\
              forall k, req' !! k = match Form r !! k with
                                    | Some (v0 :: _) => Some {| router.Value := VString v0 |}
                                    | _ => req !! k
                                    end).
  { intros Hne.
    destruct (form_loop_returns router.parseForm_loop _ ltac:(done) Hcons
                (map_to_list (Form r)) req (NoDup_fst_map_to_list _))
      as (req' & Hrun & Hlook).
    { intros k Hin. apply elem_of_map_to_list in Hin. by apply (Hne k). }
    exists req'. split; [done|]. intros k. rewrite Hlook, list_to_map_to_list. done. }
  split; [|exact Hret]. split.
  - intros Hrun. destruct (empty_value_in_form (Form r)) as [[k Hk]|Hno].
    + exists k. by apply elem_of_map_to_list.
    + destruct Hret as (req' & Hrun' & _); [|congruence].
      intros k Hk. apply (Hno k). by apply elem_of_map_to_list.
  - intros [k Hk].
    apply (form_loop_panics router.parseForm_loop _ Hcons). exists k. by apply elem_of_map_to_list.
Qed.

(** X7: [parseForm] of package go_router panics on an index out of range
    exactly when some key of the form has an empty list of values; otherwise
    it binds every key of the form to the typed value [toParam] makes of the
    first of its values, overriding a parameter of the same name (one of the
    path or of the body), and keeps every other parameter. *)
Theorem go_parseForm_spec (ext : Extern) (r : http_Request) (req : go_router.Request) :
  (go_router.parseForm ext r req = Panic index_panic <-> exists k, Form r !! k = Some []) /\
  ((forall k, Form r !! k <> Some []) ->
   exists req', go_router.parseForm ext r req = Val req' /\
     forall k, req' !! k = match Form r !! k with
                           | Some (v0 :: _) => Some (typed ext v0)
                           | _ => req !! k
                           end).
Proof.
  unfold go_router.parseForm.
  assert (Hcons : forall k v rest (rq : go_router.Request),
            go_router.parseForm_loop ext ((k, v) :: rest) rq
            = match v !! 0 with
              | Some v0 => go_router.parseForm_loop ext rest (<[k := typed ext v0]> rq)
              | None => Panic index_panic
              end).
  { intros k v rest rq. cbn [go_router.parseForm_loop]. unfold index.
    destruct (v !! 0); [|done]. cbn [mbind exec_bind]. by rewrite toParam_typed. }
  assert (Hret : (forall k, Form r !! k <> Some []) ->
            exists req', go_router.parseForm_loop ext (map_to_list (Form r)) req = Val req' /\
              forall k, req' !! k = match Form r !! k with
                                    | Some (v0 :: _) => Some (typed ext v0)
                                    | _ => req !! k
                                    end).
  { intros Hne.
    destruct (form_loop_returns (go_router.parseForm_loop ext) _ ltac:(done) Hcons
                (map_to_list (Form r)) req (NoDup_fst_map_to_list _))
      as (req' & Hrun & Hlook).
    { intros k Hin. apply elem_of_map_to_list in Hin. by apply (Hne k). }
    exists req'. split; [done|]. intros k. rewrite Hlook, list_to_map_to_list. done. }
  split; [|exact Hret]. split.
  - intros Hrun. destruct (empty_value_in_form (Form r)) as [[k Hk]|Hno].
    + exists k. by apply elem_of_map_to_list.
    + destruct Hret as (req' & Hrun' & _); [|congruence].
      intros k Hk. apply (Hno k). by apply elem_of_map_to_list.
  - intros [k Hk].
    apply (form_loop_panics (go_router.parseForm_loop ext) _ Hcons).
    exists k. by apply elem_of_map_to_list.
Qed.

Section FilterRegistry.
Context {F : Type}.
Implicit Types filters : gmap string F.

Lemma register_filters_spec (calls : list (string * F)) : forall filters name,
  let '(final, errs) := register_filters RegisterFilter_of filters calls in
  length errs = length calls /\
  final !! name = match filters !! name with
                  | Some f => Some f
                  | None => first_filter calls name
                  end /\
  (forall i n f, calls !! i = Some (n, f) ->
     errs !! i = Some (if bool_decide (is_Some (filters !! n) \/ n ∈ (take i calls).*1)
                       then Some duplicate_filter else None)).
Proof.
  induction calls as [|[n0 f0] rest IH]; intros filters name.
  - cbn. split; [done|]. split; [by destruct (filters !! name)|]. intros i n f Hi. done.
  - cbn [register_filters]. unfold RegisterFilter_of at 1.
    destruct (filters !! n0) as [old|] eqn:Hold.
    + specialize (IH filters name).
      destruct (register_filters RegisterFilter_of filters rest) as [final errs].
      destruct IH as (Hlen & Hlook & Herrs).
      split; [cbn; lia|]. split.
      * rewrite Hlook. destruct (filters !! name) eqn:Hname; [done|].
        unfold first_filter. cbn [List.find fst].
        destruct (String.eqb_spec n0 name) as [->|Hne]; [congruence|done].
      * intros [|i] n f Hi.
        -- injection Hi as -> ->. cbn. rewrite bool_decide_eq_true_2; [done|].
           left. rewrite Hold. eauto.
        -- cbn in Hi. change ((?e :: errs) !! S i) with (errs !! i). rewrite (Herrs i n f Hi). f_equal.
           cbn [take fmap list_fmap fst].
           destruct (decide (n = n0)) as [->|Hne].
           ++ rewrite !bool_decide_eq_true_2; [done|left; rewrite Hold; eauto|left; rewrite Hold; eauto].
           ++ apply (f_equal (fun b : bool => if b then _ else _)).
              apply bool_decide_ext. rewrite elem_of_cons. intuition congruence.
    + specialize (IH (<[n0 := f0]> filters) name).
      destruct (register_filters RegisterFilter_of (<[n0 := f0]> filters) rest) as [final errs].
      destruct IH as (Hlen & Hlook & Herrs).
      split; [cbn; lia|]. split.
      * rewrite Hlook. unfold first_filter. cbn [List.find fst].
        destruct (String.eqb_spec n0 name) as [->|Hne].
        -- by rewrite lookup_insert_eq, Hold.
        -- rewrite lookup_insert_ne by done. done.
      * intros [|i] n f Hi.
        -- injection Hi as -> ->. cbn. rewrite bool_decide_eq_false_2; [done|].
           intros [[? ?]|Hin]; [congruence|by apply elem_of_nil in Hin].
        -- cbn in Hi. change ((?e :: errs) !! S i) with (errs !! i). rewrite (Herrs i n f Hi). f_equal.
           cbn [take fmap list_fmap fst].
           apply (f_equal (fun b : bool => if b then _ else _)).
           apply bool_decide_ext. rewrite elem_of_cons.
           destruct (decide (n = n0)) as [->|Hne].
           ++ rewrite lookup_insert_eq. split; [intros _|intros _; left; eauto]. right. by left.
           ++ rewrite lookup_insert_ne by done. intuition congruence.
Qed.
End FilterRegistry.

Lemma RegisterFilter_of_first_wins {F : Type} :
  (forall (filters : gmap string F) name (f : F),
     let '(filters', err) := RegisterFilter_of filters name f in
     (err = None <-> filters !! name = None) /\
     (err <> None -> err = Some duplicate_filter /\ filters' = filters) /\
     (err = None ->
      filters' !! name = Some f /\ forall n, n <> name -> filters' !! n = filters !! n)) /\
  (forall (calls : list (string * F)) name,
     let '(final, errs) := register_filters RegisterFilter_of ∅ calls in
     length errs = length calls /\
     final !! name = first_filter calls name /\
     forall i n f, calls !! i = Some (n, f) ->
       errs !! i = Some (if bool_decide (n ∈ (take i calls).*1)
                         then Some duplicate_filter else None)).
Proof.
  split.
  - intros filters name f. unfold RegisterFilter_of.
    destruct (filters !! name) as [old|] eqn:Hold.
    + split; [split; intros; discriminate|]. split; [done|]. intros; discriminate.
    + split; [done|]. split; [done|]. intros _. split; [apply lookup_insert_eq|].
      intros n Hn. by apply lookup_insert_ne.
  - intros calls name.
    pose proof (register_filters_spec calls ∅ name) as H.
    destruct (register_filters RegisterFilter_of ∅ calls) as [final errs].
    destruct H as (Hlen & Hlook & Herrs). rewrite lookup_empty in Hlook.
    split; [done|]. split; [done|]. intros i n f Hi. rewrite (Herrs i n f Hi). f_equal.
    apply (f_equal (fun b : bool => if b then _ else _)). apply bool_decide_ext.
    rewrite lookup_empty. split; [intros [[? ?]|?]; done|by right].
Qed.

(** X8: [RegisterFilter], in both packages: a registration succeeds exactly
    when the name is free, and then the filter is found under the name and
    the other names are as they were; a registration under a taken name
    returns the error and leaves the registry as it was.  After any sequence
    of registrations from the empty registry the filter under a name is that
    of the first call for it, and a call fails exactly when an earlier call
    had its name. *)
Theorem RegisterFilter_first_wins :
  (forall filters name f,
     let '(filters', err) := router.RegisterFilter filters name f in
     (err = None <-> filters !! name = None) /\
     (err <> None -> err = Some duplicate_filter /\ filters' = filters) /\
     (err = None ->
      filters' !! name = Some f /\ forall n, n <> name -> filters' !! n = filters !! n)) /\
  (forall calls name,
     let '(final, errs) := register_filters router.RegisterFilter ∅ calls in
     length errs = length calls /\
     final !! name = first_filter calls name /\
     forall i n f, calls !! i = Some (n, f) ->
       errs !! i = Some (if bool_decide (n ∈ (take i calls).*1)
                         then Some duplicate_filter else None)) /\
  (forall filters name f,
     let '(filters', err) := go_router.RegisterFilter filters name f in
     (err = None <-> filters !! name = None) /\
     (err <> None -> err = Some duplicate_filter /\ filters' = filters) /\
     (err = None ->
      filters' !! name = Some f /\ forall n, n <> name -> filters' !! n = filters !! n)) /\
  (forall calls name,
     let '(final, errs) := register_filters go_router.RegisterFilter ∅ calls in
     length errs = length calls /\
     final !! name = first_filter calls name /\
     forall i n f, calls !! i = Some (n, f) ->
       errs !! i = Some (if bool_decide (n ∈ (take i calls).*1)
                         then Some duplicate_filter else None)).
Proof.
  pose proof (@RegisterFilter_of_first_wins router.Filter) as (H1 & H2).
  pose proof (@RegisterFilter_of_first_wins go_router.Filter) as (G1 & G2).
  repeat split; first [exact H1 | exact H2 | exact G1 | exact G2].
Qed.

(** ** What the binding binds *)

Section BindingFacts.
Variable ext : Extern.
Variable p : list router.StructField.

Lemma FieldByName_name k sv : router.FieldByName p k = Some sv -> router.field_Name sv = k.
Proof.
  unfold router.FieldByName. intros H. apply find_some in H as [_ H]. by apply String.eqb_eq.
Qed.

Lemma reflect_New_lookup fn : router.reflect_New p !! fn = zero_field p fn.
Proof.
  unfold router.reflect_New, zero_field, router.FieldByName.
  induction p as [|sv l IH]; [done|].
  rewrite fmap_cons, list_to_map_cons. cbn [List.find].
  destruct (String.eqb_spec (router.field_Name sv) fn) as [->|Hne].
  - by rewrite lookup_insert_eq.
  - by rewrite lookup_insert_ne.
Qed.

Lemma bindable_inj k v x x' : bindable ext p k v x -> bindable ext p k v x' -> x = x'.
Proof. intros (sv & H1 & _ & H2) (sv' & H1' & _ & H2'). congruence. Qed.

Lemma setInputParam_loop_step k v rest t x :
  bindable ext p k v x ->
  router.setInputParam_loop ext p ((k, v) :: rest) t
  = router.setInputParam_loop ext p rest (<[router.upperFirst ext k := x]> t).
Proof.
  intros (sv & Hsv & Hex & Hconv). cbn [router.setInputParam_loop]. rewrite Hsv.
  pose proof (FieldByName_name _ _ Hsv) as Hname.
  unfold router.reflect_Set. rewrite Hex, Hname. unfold convert in Hconv.
  destruct (router.field_Kind sv).
  - destruct (router.RequestParam_int ext v) as [y [e|]]; [done|]. by injection Hconv as <-.
  - destruct (router.RequestParam_float ext v) as [y [e|]]; [done|]. by injection Hconv as <-.
  - destruct (router.RequestParam_bool v) as [y [e|]]; [done|]. by injection Hconv as <-.
  - destruct (router.Value v); try done. by injection Hconv as <-.
  - done.
Qed.

Lemma setInputParam_loop_bound k v rest t t' :
  router.setInputParam_loop ext p ((k, v) :: rest) t = Val (t', None) ->
  exists x, bindable ext p k v x.
Proof.
  cbn [router.setInputParam_loop]. unfold router.reflect_Set.
  destruct (router.FieldByName p (router.upperFirst ext k)) as [sv|] eqn:Hsv; [|done].
  intros Hrun.
  assert (H : router.field_exported sv = true /\
              exists x, convert ext (router.field_Kind sv) v = Some x).
  { unfold convert. destruct (router.field_Kind sv).
    - destruct (router.RequestParam_int ext v) as [y [e|]]; [done|].
      destruct (router.field_exported sv); [eauto|done].
    - destruct (router.RequestParam_float ext v) as [y [e|]]; [done|].
      destruct (router.field_exported sv); [eauto|done].
    - destruct (router.RequestParam_bool v) as [y [e|]]; [done|].
      destruct (router.field_exported sv); [eauto|done].
    - destruct (router.Value v); try done. cbn [router.assert_string mbind exec_bind] in Hrun.
      destruct (router.field_exported sv); [eauto|done].
    - done. }
  destruct H as [Hex [x Hx]]. by exists x, sv.
Qed.

Lemma setInputParam_loop_binds kvs : forall t t',
  NoDup kvs.*1 ->
  router.setInputParam_loop ext p kvs t = Val (t', None) ->
  (forall k v, (k, v) ∈ kvs -> exists x, bindable ext p k v x) /\
  (forall fn, (forall k v, (k, v) ∈ kvs -> router.upperFirst ext k <> fn) ->
     t' !! fn = t !! fn) /\
  (forall k v x, (k, v) ∈ kvs -> bindable ext p k v x ->
     (forall k' v', (k', v') ∈ kvs ->
        router.upperFirst ext k' = router.upperFirst ext k -> k' = k) ->
     t' !! router.upperFirst ext k = Some x).
Proof.
  induction kvs as [|[k0 v0] rest IH]; intros t t' Hnd Hrun.
  - injection Hrun as <-. split; [|split; [done|]]; intros k v; intros; by apply elem_of_nil in H.
  - destruct (setInputParam_loop_bound _ _ _ _ _ Hrun) as [x0 Hx0].
    rewrite (setInputParam_loop_step _ _ _ _ _ Hx0) in Hrun.
    rewrite fmap_cons in Hnd. cbn [fst] in Hnd. apply NoDup_cons in Hnd as [Hk0 Hnd].
    destruct (IH _ _ Hnd Hrun) as (Hall & Hkeep & Hset).
    split; [|split].
    + intros k v Hin. apply elem_of_cons in Hin as [[= -> ->]|Hin]; [by exists x0|by eapply Hall].
    + intros fn Hfn. rewrite Hkeep.
      * apply lookup_insert_ne. apply (Hfn k0 v0), list_elem_of_here.
      * intros k v Hin. apply (Hfn k v). by apply list_elem_of_further.
    + intros k v x Hin Hb Huniq. apply elem_of_cons in Hin as [[= -> ->]|Hin].
      * rewrite Hkeep.
        -- rewrite lookup_insert_eq. f_equal. by eapply bindable_inj.
        -- intros k' v' Hin' Heq. apply Hk0.
           rewrite (Huniq k' v' (list_elem_of_further _ _ _ Hin') Heq) in Hin'.
           apply list_elem_of_fmap. by exists (k0, v').
      * apply (Hset k v x Hin Hb). intros k' v' Hin'. apply (Huniq k' v').
        by apply list_elem_of_further.
Qed.

Lemma setInputParam_loop_succeeds kvs : forall t,
  (forall k v, (k, v) ∈ kvs -> exists x, bindable ext p k v x) ->
  exists t', router.setInputParam_loop ext p kvs t = Val (t', None).
Proof.
  induction kvs as [|[k0 v0] rest IH]; intros t Hall; [by eexists|].
  destruct (Hall k0 v0 (list_elem_of_here _ _)) as [x0 Hx0].
  rewrite (setInputParam_loop_step _ _ _ _ _ Hx0). apply IH.
  intros k v Hin. apply (Hall k v). by apply list_elem_of_further.
Qed.

End BindingFacts.

Lemma range_map_keys {V} (order : list string) (m : gmap string V) :
  NoDup (range_map order m).*1.
Proof.
  rewrite (range_map_Permutation order m). apply NoDup_fst_map_to_list.
Qed.

Lemma setInputParam_bound ext order i req t :
  router.setInputParam ext order i req = Val (t, None) ->
  (forall k v, req !! k = Some v ->
     exists x, bindable ext (router.In0 i) k v x /\
       ((forall k', is_Some (req !! k') ->
           router.upperFirst ext k' = router.upperFirst ext k -> k' = k) ->
        t !! router.upperFirst ext k = Some x)) /\
  (forall fn, (forall k, is_Some (req !! k) -> router.upperFirst ext k <> fn) ->
     t !! fn = zero_field (router.In0 i) fn).
Proof.
  unfold router.setInputParam. intros Hrun.
  destruct (setInputParam_loop_binds ext _ _ _ _ (range_map_keys order req) Hrun)
    as (Hall & Hkeep & Hset).
  split.
  - intros k v Hk. destruct (Hall k v) as [x Hx]; [by apply range_map_elem|].
    exists x. split; [done|]. intros Huniq.
    apply (Hset k v x); [by apply range_map_elem|done|].
    intros k' v' Hin'. apply range_map_elem in Hin'. apply Huniq. eauto.
  - intros fn Hfn. rewrite Hkeep, reflect_New_lookup; [done|].
    intros k v Hin. apply range_map_elem in Hin. apply Hfn. eauto.
Qed.

(** X9: [setInputParam] returns without an error exactly when every
    parameter of the set names (after [upperFirst]) an exported field of
    the handler's struct and converts to the kind of that field, whatever
    the order of the visit.  The field a parameter names then holds the
    converted value when no other parameter names the same field, and a
    field that no parameter names has its zero value. *)
Theorem setInputParam_binds_every_parameter ext order i req :
  ((exists t, router.setInputParam ext order i req = Val (t, None)) <->
   (forall k v, req !! k = Some v -> exists x, bindable ext (router.In0 i) k v x)) /\
  (forall t, router.setInputParam ext order i req = Val (t, None) ->
     (forall k v x, req !! k = Some v -> bindable ext (router.In0 i) k v x ->
        (forall k', is_Some (req !! k') ->
           router.upperFirst ext k' = router.upperFirst ext k -> k' = k) ->
        t !! router.upperFirst ext k = Some x) /\
     (forall fn, (forall k, is_Some (req !! k) -> router.upperFirst ext k <> fn) ->
        t !! fn = zero_field (router.In0 i) fn)).
Proof.
  split; [split|].
  - intros [t Hrun] k v Hk.
    destruct (setInputParam_bound _ _ _ _ _ Hrun) as [Hall _].
    destruct (Hall k v Hk) as (x & Hx & _). by exists x.
  - intros Hall. unfold router.setInputParam.
    apply setInputParam_loop_succeeds. intros k v Hin. apply range_map_elem in Hin. eauto.
  - intros t Hrun. destruct (setInputParam_bound _ _ _ _ _ Hrun) as [Hall Hzero].
    split; [|done]. intros k v x Hk Hx Huniq.
    destruct (Hall k v Hk) as (x' & Hx' & Ht). rewrite (Ht Huniq). f_equal.
    by eapply bindable_inj.
Qed.

Lemma setInputParam_binds_every_parameter_witness :
  exists t,
    router.setInputParam (example_extern ∅) ["id"; "name"] GetUser id_42_bob = Val (t, None) /\
    t !! "Id" = Some (router.FInt 42).
Proof.
  eexists. split; [vm_compute; reflexivity|].
  destruct (setInputParam_binds_every_parameter (example_extern ∅) ["id"; "name"] GetUser
              id_42_bob) as [_ Hbind].
  edestruct Hbind as [Hset _]; [vm_compute; reflexivity|].
  apply (Hset "id" {| router.Value := VString "42" |} (router.FInt 42)).
  - reflexivity.
  - eexists. split; [vm_compute; reflexivity|]. split; reflexivity.
  - intros k' [v' Hk'] Heq. unfold id_42_bob in Hk'.
    destruct (decide (k' = "id")) as [->|Hid]; [done|].
    destruct (decide (k' = "name")) as [->|Hname]; [discriminate Heq|].
    rewrite lookup_insert_ne, lookup_singleton_ne in Hk' by done. discriminate.
Defined.

Lemma names_field_or_not ext (req : router.Request) fn :
  (exists k v, req !! k = Some v /\ router.upperFirst ext k = fn) \/
  (forall k, is_Some (req !! k) -> router.upperFirst ext k <> fn).
Proof.
  destruct (decide (Exists (fun kv : string * router.RequestParam =>
                              router.upperFirst ext kv.1 = fn) (map_to_list req)))
    as [Hex|Hno].
  - left. apply Exists_exists in Hex as ([k v] & Hin & Hk). exists k, v.
    split; [by apply elem_of_map_to_list|done].
  - right. intros k [v Hk] Hfn. apply Hno, Exists_exists. exists (k, v).
    split; [by apply elem_of_map_to_list|done].
Qed.

(** X10: whether the binding succeeds does not depend on the order in which
    the parameter set is visited: if it succeeds for one order it succeeds
    for every order, and when no two parameters name the same field the
    struct it makes is the same. *)
Theorem binding_is_order_independent ext i req o1 o2 t :
  router.setInputParam ext o1 i req = Val (t, None) ->
  exists t', router.setInputParam ext o2 i req = Val (t', None) /\
             (distinct_fields ext req -> t' = t).
Proof.
  intros Hrun. destruct (setInputParam_bound _ _ _ _ _ Hrun) as [Hall Hzero].
  destruct (setInputParam_loop_succeeds ext (router.In0 i) (range_map o2 req)
              (router.reflect_New (router.In0 i))) as [t' Hrun'].
  { intros k v Hin. apply range_map_elem in Hin. destruct (Hall k v Hin) as (x & Hx & _). eauto. }
  exists t'. split; [done|]. intros Hdist.
  destruct (setInputParam_bound _ _ _ _ _ Hrun') as [Hall' Hzero'].
  apply map_eq. intros fn.
  destruct (names_field_or_not ext req fn) as [(k & v & Hk & <-)|Hno].
  - destruct (Hall k v Hk) as (x & Hx & Ht). destruct (Hall' k v Hk) as (x' & Hx' & Ht').
    assert (Huniq : forall k', is_Some (req !! k') ->
              router.upperFirst ext k' = router.upperFirst ext k -> k' = k).
    { intros k' Hk' Heq. apply Hdist; [done|eauto|done]. }
    rewrite (Ht Huniq), (Ht' Huniq). f_equal. by eapply bindable_inj.
  - by rewrite (Hzero fn Hno), (Hzero' fn Hno).
Qed.

Lemma binding_is_order_independent_witness :
  exists t,
    router.setInputParam (example_extern ∅) ["id"; "name"] GetUser id_42_bob = Val (t, None) /\
    exists t',
      router.setInputParam (example_extern ∅) ["name"; "id"] GetUser id_42_bob = Val (t', None).
Proof.
  eexists. split; [vm_compute; reflexivity|].
  edestruct (binding_is_order_independent (example_extern ∅) GetUser id_42_bob
               ["id"; "name"] ["name"; "id"]) as (t' & Hrun & _); [vm_compute; reflexivity|].
  exists t'. exact Hrun.
Defined.

Lemma setInputParam_loop_app ext p l1 : forall l2 t t',
  router.setInputParam_loop ext p (l1 ++ l2) t = Val (t', None) ->
  exists t1, router.setInputParam_loop ext p l1 t = Val (t1, None) /\
             router.setInputParam_loop ext p l2 t1 = Val (t', None).
Proof.
  induction l1 as [|[k v] l1 IH]; intros l2 t t' Hrun; [by exists t|].
  rewrite <- app_comm_cons in Hrun.
  destruct (setInputParam_loop_bound _ _ _ _ _ _ _ Hrun) as [x Hx].
  rewrite (setInputParam_loop_step _ _ _ _ _ _ _ Hx) in Hrun.
  rewrite (setInputParam_loop_step _ _ _ _ _ _ _ Hx). by apply IH.
Qed.

(** X11: when two parameters name the same field (as id and Id do) and the
    binding succeeds, the field holds the value of the one of the two that
    is visited last: the struct then depends on the order of the visit,
    which Go leaves to the runtime. *)
Theorem last_visited_parameter_wins ext order i req k k' v v' x' t l1 l2 l3 :
  k <> k' ->
  router.upperFirst ext k = router.upperFirst ext k' ->
  (forall k'', is_Some (req !! k'') ->
     router.upperFirst ext k'' = router.upperFirst ext k -> k'' = k \/ k'' = k') ->
  range_map order req = l1 ++ (k, v) :: l2 ++ (k', v') :: l3 ->
  bindable ext (router.In0 i) k' v' x' ->
  router.setInputParam ext order i req = Val (t, None) ->
  t !! router.upperFirst ext k = Some x'.
Proof.
  intros Hne Heq Honly Hrange Hx' Hrun. unfold router.setInputParam in Hrun.
  pose proof (range_map_keys order req) as Hnd.
  assert (Hin : forall k'' v'', (k'', v'') ∈ l3 -> router.upperFirst ext k'' <> router.upperFirst ext k).
  { intros k'' v'' Hin3 Hfn.
    assert (Hreq : req !! k'' = Some v'').
    { apply (range_map_elem order). rewrite Hrange.
      rewrite elem_of_app, elem_of_cons, elem_of_app, elem_of_cons. tauto. }
    rewrite Hrange, !fmap_app, !fmap_cons, !fmap_app, !fmap_cons in Hnd. cbn [fst] in Hnd.
    apply NoDup_app in Hnd as (_ & _ & Hnd). apply NoDup_cons in Hnd as [Hk Hnd].
    apply NoDup_app in Hnd as (_ & _ & Hnd). apply NoDup_cons in Hnd as [Hk' _].
    assert (Hk3 : k'' ∈ l3.*1) by (apply list_elem_of_fmap; by exists (k'', v'')).
    destruct (Honly k'' (ex_intro _ _ Hreq) Hfn) as [->| ->].
    - apply Hk. rewrite elem_of_app, elem_of_cons. tauto.
    - by apply Hk'. }
  rewrite Hrange in Hrun.
  apply setInputParam_loop_app in Hrun as (t1 & _ & Hrun).
  rewrite app_comm_cons in Hrun.
  apply setInputParam_loop_app in Hrun as (t2 & _ & Hrun).
  rewrite (setInputParam_loop_step _ _ _ _ _ _ _ Hx') in Hrun.
  assert (Hnd3 : NoDup l3.*1).
  { rewrite Hrange, !fmap_app, !fmap_cons, !fmap_app, !fmap_cons in Hnd.
    apply NoDup_app in Hnd as (_ & _ & Hnd). apply NoDup_cons in Hnd as [_ Hnd].
    apply NoDup_app in Hnd as (_ & _ & Hnd). by apply NoDup_cons in Hnd as [_ Hnd]. }
  destruct (setInputParam_loop_binds _ _ _ _ _ Hnd3 Hrun) as (_ & Hkeep & _).
  rewrite Hkeep; [|exact Hin]. rewrite <- Heq. apply lookup_insert_eq.
Qed.

Lemma last_visited_parameter_wins_witness :
  exists t,
    router.setInputParam (example_extern ∅) ["id"; "Id"] GetUser id_twice = Val (t, None) /\
    t !! "Id" = Some (router.FInt 2).
Proof.
  eexists. split; [vm_compute; reflexivity|].
  apply (last_visited_parameter_wins (example_extern ∅) ["id"; "Id"] GetUser id_twice
           "id" "Id" {| router.Value := VString "1" |} {| router.Value := VString "2" |}
           (router.FInt 2) _ [] [] []).
  - discriminate.
  - reflexivity.
  - intros k [v Hk] _. unfold id_twice in Hk.
    destruct (decide (k = "id")) as [->|Hid]; [by left|].
    destruct (decide (k = "Id")) as [->|HId]; [by right|].
    rewrite lookup_insert_ne, lookup_singleton_ne in Hk by done. discriminate.
  - vm_compute. reflexivity.
  - eexists. split; [vm_compute; reflexivity|]. split; reflexivity.
  - vm_compute. reflexivity.
Defined.

(** ** The handler and the filters in package router *)

Lemma pre_ran_all r fs req req' evs :
  pre_ran r fs req (Norm (req', None)) evs -> pre_names evs = fs.*1.
Proof.
  intros H. remember (Norm (req', None)) as out eqn:Hout.
  induction H as [req|n f fs req req1 out evs Hhook Hran IH|n f fs req req1 e Hhook
                 |n f fs req v Hhook]; try done.
  cbn. unfold pre_names in IH. by rewrite IH.
Qed.

Lemma post_names_app l1 l2 : post_names (l1 ++ l2) = post_names l1 ++ post_names l2.
Proof. apply omap_app. Qed.

Lemma post_names_other log : Forall (fun e => stage e <> 7) log -> post_names log = [].
Proof.
  induction 1 as [|e log He _ IH]; [done|].
  unfold post_names in *. cbn. rewrite IH. by destruct e.
Qed.

Lemma post_ran_all r fs req req' evs :
  post_ran r fs req (Norm (req', None)) evs -> post_names evs = fs.*1.
Proof.
  intros H. remember (Norm (req', None)) as out eqn:Hout.
  induction H as [req|n f fs req req1 out evs Hhook Hran IH|n f fs req req1 e Hhook
                 |n f fs req v Hhook]; try done.
  cbn. unfold post_names in IH. by rewrite IH.
Qed.

Lemma post_ran_registered r fs req out evs n rq res :
  post_ran r fs req out evs ->
  router.EvPostDispatch n rq res ∈ evs ->
  exists f, (n, f) ∈ fs /\ res = router.PostDispatch f r rq.
Proof.
  induction 1 as [req|n0 f fs req req' out evs Hhook Hran IH|n0 f fs req req' e Hhook
                 |n0 f fs req v Hhook]; intros Hin.
  - by apply elem_of_nil in Hin.
  - apply elem_of_cons in Hin as [[= -> -> ->]|Hin].
    + exists f. split; [apply list_elem_of_here|done].
    + destruct (IH Hin) as (f' & Hf' & Hres). exists f'.
      split; [by apply list_elem_of_further|done].
  - apply list_elem_of_singleton in Hin as [= -> -> ->].
    exists f. split; [apply list_elem_of_here|done].
  - apply list_elem_of_singleton in Hin as [= -> -> ->].
    exists f. split; [apply list_elem_of_here|done].
Qed.

Lemma range_map_names {V} (order : list string) (m : gmap string V) :
  (range_map order m).*1 ≡ₚ (map_to_list m).*1.
Proof. by rewrite range_map_Permutation. Qed.

Section CallFacts.
Variable ext : Extern.
Variable routes : router.routeMap.
Variable filters : router.filterMap.
Variable ord : router.Orders.
Variable r : http_Request.

Ltac before_call :=
  repeat first
    [ apply Forall_nil_2
    | apply Forall_cons_2; [first [left; cbn; lia | right; reflexivity]|]
    | apply Forall_app_2 ].

(** The log of a dispatch that called the handler. *)
Lemma dispatched_call w w' final :
  dispatched ext routes filters ord r w w' final ->
  Forall (fun e => stage e <= 5 \/ stage e = 9) final \/
  exists i t req2 plog tail,
    prefiltered ext routes filters ord r i t req2 plog /\
    final = plog ++ router.EvCall t (router.Call i t) :: tail /\
    Forall (fun e => 7 <= stage e) tail.
Proof.
  assert (Hupto : forall n log, n <= 5 -> Forall (passed_upto n) log ->
                    Forall (fun e => stage e <= 5 \/ stage e = 9) log).
  { intros n log Hn H. eapply Forall_impl; [exact H|]. intros e [_ He]. left. lia. }
  assert (Hpre : forall fs req out evs, pre_ran r fs req out evs ->
                   Forall (fun e => stage e <= 5 \/ stage e = 9) evs).
  { intros fs req out evs H. eapply Forall_impl; [exact (pre_ran_stage _ _ _ _ _ H)|].
    intros e He. cbn beta in He. left. lia. }
  assert (Hpost : forall fs req out evs, post_ran r fs req out evs ->
                   Forall (fun e => 7 <= stage e) evs).
  { intros fs req out evs H. eapply Forall_impl; [exact (post_ran_stage _ _ _ _ _ H)|].
    intros e He. cbn beta in He. lia. }
  assert (Hpf : forall result log, postfiltered ext routes filters ord r result log ->
            forall tail, Forall (fun e => 7 <= stage e) tail ->
            exists i t req2 plog tail',
              prefiltered ext routes filters ord r i t req2 plog /\
              log ++ tail = plog ++ router.EvCall t (router.Call i t) :: tail' /\
              Forall (fun e => 7 <= stage e) tail').
  { intros result log [i t req2 plog result' req3 evs Hp Hc Hpo] tail Htail.
    exists i, t, req2, plog, (evs ++ tail). split; [done|]. rewrite Hc, <- app_assoc.
    split; [done|]. apply Forall_app. split; [by eapply Hpost|done]. }
  destruct 1 as [v plog Hp|lg Hn|Hf Hm|result plog data Hp Hm].
  - destruct Hp as [e He|req e Hf Hm Hb|key req log i v Hp Hn Hb|i req t log v Hb Hm
                |i req t log req1 req2 e evs Hb Hm Hpre'|i req t log req1 v evs Hb Hm Hpre'
                |i t req2 log result e Hpre' Hc|i t req2 log v Hpre' Hc
                |i t req2 log result req3 e evs Hpre' Hc Hpost'
                |i t req2 log result v evs Hpre' Hc Hpost'
                |result log data e Hpost' Hm].
    + left. before_call.
    + left. before_call.
    + left. rewrite <- app_assoc. apply Forall_app. split; [|before_call].
      eapply (Hupto 2); [lia|by eapply parsed_log].
    + left. apply Forall_app. split; [|before_call].
      eapply (Hupto 4); [lia|by eapply bound_log].
    + left. rewrite <- app_assoc. apply Forall_app. split.
      { eapply (Hupto 4); [lia|by eapply bound_log]. }
      apply Forall_app. split; [by eapply Hpre|before_call].
    + left. rewrite <- app_assoc. apply Forall_app. split.
      { eapply (Hupto 4); [lia|by eapply bound_log]. }
      apply Forall_app. split; [by eapply Hpre|before_call].
    + right. exists i, t, req2, log, [router.EvRecover (PanicError e)].
      split; [done|]. rewrite Hc, <- app_assoc. split; [done|]. repeat constructor; cbn; lia.
    + right. exists i, t, req2, log, [router.EvRecover v].
      split; [done|]. rewrite Hc, <- app_assoc. split; [done|]. repeat constructor; cbn; lia.
    + right. exists i, t, req2, log, (evs ++ [router.EvRecover (PanicError e)]).
      split; [done|]. rewrite Hc, <- app_assoc. split; [done|].
      apply Forall_app. split; [by eapply Hpost|repeat constructor; cbn; lia].
    + right. exists i, t, req2, log, (evs ++ [router.EvRecover v]).
      split; [done|]. rewrite Hc, <- app_assoc. split; [done|].
      apply Forall_app. split; [by eapply Hpost|repeat constructor; cbn; lia].
    + right. rewrite <- app_assoc. eapply Hpf; [exact Hpost'|]. repeat constructor; cbn; lia.
  - left. destruct (not_found_log _ _ _ _ _ Hn) as (qs & last & -> & Hqs & Hv & Hs).
    apply Forall_app. split; [eapply (Hupto 3); [lia|done]|].
    apply Forall_cons_2; [left; lia|]. before_call.
  - left. before_call.
  - right. eapply Hpf; [exact Hp|]. repeat constructor; cbn; lia.
Qed.

Lemma prefiltered_names i t req2 plog :
  prefiltered ext routes filters ord r i t req2 plog ->
  pre_names plog = (range_map (router.order_pre ord) filters).*1 /\
  (forall n rq res, router.EvPreDispatch n rq res ∈ plog ->
     exists f rq', filters !! n = Some f /\ router.PreDispatch f r rq = res /\
                   res = router.HookReturns rq' None).
Proof.
  destruct 1 as [i req t log req1 req2 evs Hb Hm Hp]. split.
  - rewrite pre_names_app, (pre_names_other log), (pre_ran_all _ _ _ _ _ Hp); [done|].
    eapply Forall_impl; [exact (bound_log _ _ _ _ _ _ _ _ Hb)|]. intros e [_ He]. lia.
  - intros n rq res Hin. apply elem_of_app in Hin as [Hin|Hin].
    { destruct (passed_elem _ _ _ (bound_log _ _ _ _ _ _ _ _ Hb) Hin) as [_ Hst]. cbn in Hst. lia. }
    destruct (pre_ran_registered _ _ _ _ _ _ _ _ Hp Hin) as (f & Hf & ->).
    apply range_map_elem in Hf.
    destruct (passed_elem _ _ _ (pre_ran_passed _ _ _ _ _ Hp) Hin) as [Hv _].
    exists f. destruct (router.PreDispatch f r rq) as [rq' [e|]|v]; try done. by exists rq'.
Qed.

End CallFacts.

(** The route of a request whose hooks passed: the key the path or the body
    gave, the lookup of the node under it and the binding of the parameters
    of the path or the body, both in the log. *)
Lemma prefiltered_route ext routes filters ord r i t req2 plog :
  prefiltered ext routes filters ord r i t req2 plog ->
  exists key req,
    ((Method r = "POST" /\ key = URL_Path r /\ router.parseBody ext r ∅ = (req, None)) \/
     ((Method r = "GET" \/ Method r = "DELETE") /\
      router.parseGet r ∅ = Val (req, (key, None)))) /\
    router.EvGetNode (Method r) key None ∈ plog /\
    router.EvSetInputParam req t None ∈ plog /\
    router.getNode routes (Method r) key = (Some i, None) /\
    router.setInputParam ext (router.order_bind ord) i req = Val (t, None).
Proof.
  destruct 1 as [i req t log req1 req2 evs Hb Hm Hp].
  destruct Hb as [key req log i t Hparsed Hnode Hbind]. exists key, req.
  split; [destruct Hparsed as [key req Hf Hmeth Hpg|req Hf Hmeth Hb]; [by right|by left]|].
  split; [|split; [|done]].
  - apply elem_of_app. left. apply elem_of_app. right. apply list_elem_of_here.
  - apply elem_of_app. left. apply elem_of_app. right.
    apply list_elem_of_further, list_elem_of_here.
Qed.

(** X12: in package router the handler is called at most once in a
    dispatch, and only after the pre-dispatch hook of every registered
    filter was called once and returned no error: every call logged before
    it passed, and after it come only post-dispatch hooks, the encoding and
    the recovery.  The handler is the node found for the route of the
    request: the node the logged lookup gave under the method of the
    request and its route key, which is the path of the URL for a POST and
    the key the path parser returned for a GET or a DELETE.  Its input is
    what the logged binding made for that node from the parameters of the
    body or of the path. *)
Theorem handler_runs_after_every_filter ext routes filters ord r w w' log t res :
  router.Dispatch ext routes filters ord w r = Val (w', log) ->
  router.EvCall t res ∈ log ->
  exists log1 log2,
    log = log1 ++ router.EvCall t res :: log2 /\
    Forall (passed_upto 5) log1 /\
    pre_names log1 ≡ₚ (map_to_list filters).*1 /\
    (forall n rq hres, router.EvPreDispatch n rq hres ∈ log1 ->
       exists f rq', filters !! n = Some f /\ router.PreDispatch f r rq = hres /\
                     hres = router.HookReturns rq' None) /\
    Forall (fun e => 7 <= stage e) log2 /\
    exists i key req,
      ((Method r = "POST" /\ key = URL_Path r /\ router.parseBody ext r ∅ = (req, None)) \/
       ((Method r = "GET" \/ Method r = "DELETE") /\
        router.parseGet r ∅ = Val (req, (key, None)))) /\
      router.EvGetNode (Method r) key None ∈ log1 /\
      router.EvSetInputParam req t None ∈ log1 /\
      router.getNode routes (Method r) key = (Some i, None) /\
      router.setInputParam ext (router.order_bind ord) i req = Val (t, None) /\
      res = router.Call i t.
Proof.
  intros Hrun Hin.
  destruct (Dispatch_dispatched ext routes filters ord r w) as (w1 & log1 & Hrun1 & Hd).
  rewrite Hrun in Hrun1. injection Hrun1 as <- <-.
  destruct (dispatched_call _ _ _ _ _ _ _ _ Hd)
    as [Hno|(i & t0 & req2 & plog & tail & Hp & -> & Htail)].
  { apply (proj1 (Forall_forall _ _) Hno) in Hin. cbn in Hin. lia. }
  assert (Heq : router.EvCall t res = router.EvCall t0 (router.Call i t0)).
  { elem_cases Hin; [|done|].
    - destruct (passed_elem _ _ _ (prefiltered_log _ _ _ _ _ _ _ _ _ Hp) Hin) as [_ Hst].
      cbn in Hst. lia.
    - apply (proj1 (Forall_forall _ _) Htail) in Hin. cbn in Hin. lia. }
  injection Heq as -> ->.
  destruct (prefiltered_names _ _ _ _ _ _ _ _ _ Hp) as [Hnames Hreg].
  destruct (prefiltered_route _ _ _ _ _ _ _ _ _ Hp)
    as (key & req & Hkey & Hlookup & Hbinding & Hnode & Hbind).
  exists plog, tail. split; [done|]. split; [by eapply prefiltered_log|].
  split; [rewrite Hnames; apply range_map_names|]. split; [done|]. split; [done|].
  by exists i, key, req.
Qed.

Lemma handler_runs_after_every_filter_witness :
  exists w' log,
    router.Dispatch (example_extern ∅) example_routes allow_filters allow_orders
      new_ResponseWriter (GET "/v1/test/retrieve/id/42") = Val (w', log) /\
    exists log1 log2 t res,
      log = log1 ++ router.EvCall t res :: log2 /\ Forall (passed_upto 5) log1 /\
      router.EvGetNode "GET" "/v1/test/retrieve" None ∈ log1.
Proof.
  eexists _, _. split; [vm_compute; reflexivity|].
  edestruct (handler_runs_after_every_filter (example_extern ∅) example_routes allow_filters
               allow_orders (GET "/v1/test/retrieve/id/42") new_ResponseWriter)
    as (log1 & log2 & Hlog & Hpassed & _ & _ & _ & i & key & req & Hkey & Hlookup & _).
  - vm_compute. reflexivity.
  - repeat first [apply list_elem_of_here | apply list_elem_of_further].
  - exists log1, log2. eexists _, _. split; [exact Hlog|]. split; [exact Hpassed|].
    destruct Hkey as [[Hm _]|[_ Hpg]]; [discriminate Hm|].
    assert (Hk : key = "/v1/test/retrieve").
    { assert (H : (router.parseGet (GET "/v1/test/retrieve/id/42") ∅ ≫= fun x => Val x.2.1)
                  = Val key) by (by rewrite Hpg).
      vm_compute in H. by injection H as <-. }
    rewrite <- Hk. exact Hlookup.
Defined.

(** X13: a dispatch of package router on a fresh response writer answers
    200, 404 or 500, and 200 exactly when every logged call passed.  The
    body is then the encoding of what the handler returned, and the log is
    the calls up to the binding, the pre-dispatch hook of every registered
    filter, the call of the handler, the post-dispatch hook of every
    registered filter, and the encoding. *)
Theorem success_response ext routes filters ord r w' log :
  router.Dispatch ext routes filters ord new_ResponseWriter r = Val (w', log) ->
  (status w' = Some 200 \/ status w' = Some 404 \/ status w' = Some 500) /\
  (status w' = Some 200 <-> Forall (fun e => verdict e = Passed) log) /\
  (status w' = Some 200 ->
   exists i t result data log0 pre post,
     router.Call i t = router.Returns result None /\
     json_Marshal ext result = (data, None) /\
     w' = Write data fresh_writer /\
     body w' = data /\
     log = log0 ++ pre ++ router.EvCall t (router.Returns result None) :: post
           ++ [router.EvMarshal None] /\
     Forall (passed_upto 4) log0 /\
     pre_names pre ≡ₚ (map_to_list filters).*1 /\
     Forall (fun e => stage e = 5) pre /\
     post_names post ≡ₚ (map_to_list filters).*1 /\
     Forall (fun e => stage e = 7) post).
Proof.
  intros Hrun.
  destruct (Dispatch_log ext routes filters ord r) as (w1 & log1 & Hrun1 & Hd).
  rewrite Hrun in Hrun1. injection Hrun1 as <- <-.
  assert (Hmark : forall l e, verdict e = Mark -> e ∈ l ->
                    ~ Forall (fun e => verdict e = Passed) l).
  { intros l e He Hin Hall. apply (proj1 (Forall_forall _ _) Hall) in Hin. congruence. }
  destruct Hd as [v plog Hp|lg Hn|Hf Hm|result plog data Hp Hm].
  - split; [right; right; done|]. split; [|done].
    split; [done|]. intros Hall. exfalso.
    apply (Hmark _ (router.EvRecover v) eq_refl) in Hall; [done|].
    apply elem_of_app. right. apply list_elem_of_here.
  - split; [right; left; done|]. split; [|done].
    split; [done|]. intros Hall. exfalso.
    destruct (not_found_log _ _ _ _ _ Hn) as (qs & last & -> & _).
    apply (Hmark _ router.EvNotFound eq_refl) in Hall; [done|].
    apply elem_of_app. right. apply list_elem_of_further, list_elem_of_here.
  - split; [right; left; done|]. split; [|done].
    split; [done|]. intros Hall. exfalso.
    apply (Hmark _ router.EvNotSupported eq_refl) in Hall; [done|].
    apply list_elem_of_further, list_elem_of_here.
  - split; [left; done|]. split.
    { split; [intros _|done]. apply Forall_app. split; [|repeat constructor].
      eapply Forall_impl; [exact (postfiltered_log _ _ _ _ _ _ _ Hp)|]. by intros e [He _]. }
    intros _.
    destruct Hp as [i t req2 log' result req3 post Hpre Hcall Hpost].
    destruct Hpre as [i req t log0 req1 req2 pre Hb Hform Hpre].
    exists i, t, result, data, log0, pre, post.
    split; [done|]. split; [done|]. split; [done|]. split; [done|].
    split; [by rewrite <- !app_assoc|].
    split; [by eapply bound_log|].
    split; [rewrite (pre_ran_all _ _ _ _ _ Hpre); apply range_map_names|].
    split; [by eapply pre_ran_stage|].
    split; [rewrite (post_ran_all _ _ _ _ _ Hpost); apply range_map_names|].
    by eapply post_ran_stage.
Qed.

Lemma success_response_witness :
  exists w' log,
    router.Dispatch (example_extern ∅) example_routes allow_filters allow_orders
      new_ResponseWriter (GET "/v1/test/retrieve/id/42") = Val (w', log) /\
    status w' = Some 200 /\
    Forall (fun e => verdict e = Passed) log.
Proof.
  eexists _, _. split; [vm_compute; reflexivity|]. split; [reflexivity|].
  edestruct (success_response (example_extern ∅) example_routes allow_filters allow_orders
               (GET "/v1/test/retrieve/id/42")) as (_ & Hiff & _); [vm_compute; reflexivity|].
  apply Hiff. reflexivity.
Defined.

(** ** A post-dispatch hook that fails *)

Lemma post_ran_names r fs req out evs :
  post_ran r fs req out evs -> post_names evs = take (length evs) fs.*1.
Proof.
  induction 1 as [req|n f fs req req' out evs Hhook Hran IH|n f fs req req' e Hhook
                 |n f fs req v Hhook]; cbn; [done| |done|done].
  unfold post_names in IH. by rewrite IH.
Qed.

Section PostFacts.
Variable ext : Extern.
Variable routes : router.routeMap.
Variable filters : router.filterMap.
Variable ord : router.Orders.
Variable r : http_Request.

Ltac no_post :=
  repeat first
    [ apply Forall_nil_2
    | apply Forall_cons_2; [cbn; lia|]
    | apply Forall_app_2 ].

(** The log of a dispatch that reached the post-dispatch hooks. *)
Lemma dispatched_post w w' final :
  dispatched ext routes filters ord r w w' final ->
  Forall (fun e => stage e <> 7) final \/
  exists i t req2 plog result out evs tail,
    prefiltered ext routes filters ord r i t req2 plog /\
    router.Call i t = router.Returns result None /\
    post_ran r (range_map (router.order_post ord) filters) req2 out evs /\
    final = plog ++ router.EvCall t (router.Returns result None) :: evs ++ tail /\
    Forall (fun e => 8 <= stage e) tail.
Proof.
  assert (Hupto : forall n log, n <= 5 -> Forall (passed_upto n) log ->
                    Forall (fun e => stage e <> 7) log).
  { intros n log Hn H. eapply Forall_impl; [exact H|]. intros e [_ He]. lia. }
  assert (Hpre : forall fs req out evs, pre_ran r fs req out evs ->
                   Forall (fun e => stage e <> 7) evs).
  { intros fs req out evs H. eapply Forall_impl; [exact (pre_ran_stage _ _ _ _ _ H)|].
    intros e He. cbn beta in He. lia. }
  assert (Hpf : forall result log, postfiltered ext routes filters ord r result log ->
            forall tail, Forall (fun e => 8 <= stage e) tail ->
            exists i t req2 plog result' out evs tail',
              prefiltered ext routes filters ord r i t req2 plog /\
              router.Call i t = router.Returns result' None /\
              post_ran r (range_map (router.order_post ord) filters) req2 out evs /\
              log ++ tail = plog ++ router.EvCall t (router.Returns result' None) :: evs ++ tail' /\
              Forall (fun e => 8 <= stage e) tail').
  { intros result log [i t req2 plog result' req3 evs Hp Hc Hpo] tail Htail.
    exists i, t, req2, plog, result', (Norm (req3, None)), evs, tail.
    rewrite <- app_assoc. done. }
  destruct 1 as [v plog Hp|lg Hn|Hf Hm|result plog data Hp Hm].
  - destruct Hp as [e He|req e Hf Hm Hb|key req log i v Hp Hn Hb|i req t log v Hb Hm
                |i req t log req1 req2 e evs Hb Hm Hpre'|i req t log req1 v evs Hb Hm Hpre'
                |i t req2 log result e Hpre' Hc|i t req2 log v Hpre' Hc
                |i t req2 log result req3 e evs Hpre' Hc Hpost'
                |i t req2 log result v evs Hpre' Hc Hpost'
                |result log data e Hpost' Hm].
    + left. no_post.
    + left. no_post.
    + left. rewrite <- app_assoc. apply Forall_app. split; [|no_post].
      eapply (Hupto 2); [lia|by eapply parsed_log].
    + left. apply Forall_app. split; [|no_post].
      eapply (Hupto 4); [lia|by eapply bound_log].
    + left. rewrite <- app_assoc. apply Forall_app. split.
      { eapply (Hupto 4); [lia|by eapply bound_log]. }
      apply Forall_app. split; [by eapply Hpre|no_post].
    + left. rewrite <- app_assoc. apply Forall_app. split.
      { eapply (Hupto 4); [lia|by eapply bound_log]. }
      apply Forall_app. split; [by eapply Hpre|no_post].
    + left. rewrite <- app_assoc. apply Forall_app. split; [|no_post].
      eapply (Hupto 5); [lia|by eapply prefiltered_log].
    + left. rewrite <- app_assoc. apply Forall_app. split; [|no_post].
      eapply (Hupto 5); [lia|by eapply prefiltered_log].
    + right. exists i, t, req2, log, result, (Norm (req3, Some e)), evs,
        [router.EvRecover (PanicError e)].
      rewrite <- app_assoc. do 4 (split; [done|]). repeat constructor; cbn; lia.
    + right. exists i, t, req2, log, result, (Panicking v), evs, [router.EvRecover v].
      rewrite <- app_assoc. do 4 (split; [done|]). repeat constructor; cbn; lia.
    + right. rewrite <- app_assoc. eapply Hpf; [exact Hpost'|]. repeat constructor; cbn; lia.
  - left. destruct (not_found_log _ _ _ _ _ Hn) as (qs & last & -> & Hqs & Hv & Hs).
    apply Forall_app. split; [eapply (Hupto 3); [lia|done]|].
    apply Forall_cons_2; [lia|]. no_post.
  - left. no_post.
  - right. eapply Hpf; [exact Hp|]. repeat constructor; cbn; lia.
Qed.

End PostFacts.

(** X14: when a post-dispatch hook returns an error during a dispatch of
    package router, the handler has been called and has returned without an
    error, the hook is the last call before the recovery, the hooks of the
    filters that remained in the visit are not run, the result of the
    handler is not encoded, and the response is the internal error, 500.
    The hook is that of a filter of the registry. *)
Theorem post_dispatch_failure_is_fatal ext routes filters ord r w' log name rq rq' e :
  router.Dispatch ext routes filters ord new_ResponseWriter r = Val (w', log) ->
  router.EvPostDispatch name rq (router.HookReturns rq' (Some e)) ∈ log ->
  w' = internalError fresh_writer /\ status w' = Some 500 /\
  (exists log0,
     log = log0 ++ [router.EvPostDispatch name rq (router.HookReturns rq' (Some e));
                    router.EvRecover (PanicError e)] /\
     Forall (passed_upto 7) log0 /\
     exists t result, router.EvCall t (router.Returns result None) ∈ log0) /\
  (forall err, router.EvMarshal err ∉ log) /\
  (exists remaining,
     (range_map (router.order_post ord) filters).*1 = post_names log ++ remaining /\
     last (post_names log) = Some name) /\
  (exists f, filters !! name = Some f /\
             router.PostDispatch f r rq = router.HookReturns rq' (Some e)).
Proof.
  intros Hrun Hin.
  destruct (Dispatch_log ext routes filters ord r) as (w1 & log1 & Hrun1 & Hd).
  rewrite Hrun in Hrun1. injection Hrun1 as <- <-.
  set (ev := router.EvPostDispatch name rq (router.HookReturns rq' (Some e))) in *.
  assert (Hev : verdict ev = Fatal (PanicError e)) by done.
  assert (Hnames : (exists remaining,
            (range_map (router.order_post ord) filters).*1 = post_names log ++ remaining) /\
          (exists f, filters !! name = Some f /\
                     router.PostDispatch f r rq = router.HookReturns rq' (Some e)) /\
          exists t result, router.EvCall t (router.Returns result None) ∈ log).
  { destruct (dispatched_post _ _ _ _ _ _ _ _ Hd)
      as [Hno|(i & t & req2 & plog & result & out & evs & tail & Hp & Hc & Hpost & -> & Htail)].
    { apply (proj1 (Forall_forall _ _) Hno) in Hin. done. }
    split; [|split].
    - exists (drop (length evs) (range_map (router.order_post ord) filters).*1).
      rewrite post_names_app, (post_names_other plog).
      2:{ eapply Forall_impl; [exact (prefiltered_log _ _ _ _ _ _ _ _ _ Hp)|].
          intros e0 [_ He0]. lia. }
      change (router.EvCall t (router.Returns result None) :: evs ++ tail)
        with ([router.EvCall t (router.Returns result None)] ++ evs ++ tail).
      rewrite !post_names_app, (post_names_other [_]), (post_names_other tail),
        (post_ran_names _ _ _ _ _ Hpost), app_nil_r.
      + cbn [app]. by rewrite take_drop.
      + eapply Forall_impl; [exact Htail|]. intros e0 He0. cbn beta in He0. lia.
      + repeat constructor. done.
    - assert (Hevs : ev ∈ evs).
      { elem_cases Hin; [| |done|].
        - destruct (passed_elem _ _ _ (prefiltered_log _ _ _ _ _ _ _ _ _ Hp) Hin) as [_ Hst].
          cbn in Hst. lia.
        - discriminate.
        - apply (proj1 (Forall_forall _ _) Htail) in Hin. cbn in Hin. lia. }
      destruct (post_ran_registered _ _ _ _ _ _ _ _ Hpost Hevs) as (f & Hf & Hres).
      exists f. split; [by apply range_map_elem in Hf|done].
    - exists t, result. apply elem_of_app. right. apply list_elem_of_here. }
  destruct Hnames as ([remaining Hnames] & Hreg & (t & result & Hcall)).
  apply dispatched_log in Hd
    as [(v & plog & -> & -> & Hp)|[(qs & last & -> & -> & Hqs & Hv & Hs)
       |[(-> & -> & _)|(data & -> & Hall)]]].
  - assert (Hshape : exists log0, plog = log0 ++ [ev] /\ v = PanicError e /\
                                  Forall (passed_upto 7) log0).
    { elem_cases Hin; [|discriminate].
      destruct Hp as [Hall|(qs & last & -> & Hv & Hqs)].
      - destruct (passed_elem _ _ _ Hall Hin). congruence.
      - elem_cases Hin.
        + destruct (passed_elem _ _ _ Hqs Hin). congruence.
        + subst last. exists qs. split; [done|]. split; [congruence|done]. }
    destruct Hshape as (log0 & -> & -> & Hlog0).
    split; [done|]. split; [done|]. split.
    { exists log0. split; [by rewrite <- app_assoc|]. split; [done|].
      exists t, result. elem_cases Hcall; try done; discriminate. }
    split; [|split; [|done]].
    + intros err Hc. elem_cases Hc; try discriminate.
      destruct (passed_elem _ _ _ Hlog0 Hc) as [_ Hst]. cbn in Hst. lia.
    + exists remaining. split; [done|].
      rewrite !post_names_app. cbn. rewrite app_nil_r. apply last_snoc.
  - elem_cases Hin; try discriminate.
    + destruct (passed_elem _ _ _ Hqs Hin). congruence.
    + congruence.
  - elem_cases Hin; discriminate.
  - destruct (passed_elem _ _ _ Hall Hin). congruence.
Qed.

Lemma post_dispatch_failure_witness :
  exists w' log,
    router.Dispatch (example_extern ∅) example_routes audit_filters example_orders
      new_ResponseWriter (GET "/v1/test/retrieve/id/42") = Val (w', log) /\
    status w' = Some 500 /\
    forall err, router.EvMarshal err ∉ log.
Proof.
  eexists _, _. split; [vm_compute; reflexivity|].
  edestruct (post_dispatch_failure_is_fatal (example_extern ∅) example_routes audit_filters
               example_orders (GET "/v1/test/retrieve/id/42"))
    as (_ & Hstatus & _ & Hmarshal & _).
  - vm_compute. reflexivity.
  - repeat first [apply list_elem_of_here | apply list_elem_of_further].
  - split; [exact Hstatus|exact Hmarshal].
Defined.

(** ** The route key *)

Section RouteFacts.
Variable ext : Extern.
Variable routes : router.routeMap.
Variable filters : router.filterMap.
Variable ord : router.Orders.
Variable r : http_Request.

(** The log of a dispatch that looked the route up. *)
Lemma dispatched_route w w' final :
  dispatched ext routes filters ord r w w' final ->
  Forall (fun e => stage e <> 3) final \/
  exists key req log0 tail,
    parsed ext r key req log0 /\
    final = log0 ++ router.EvGetNode (Method r) key (router.getNode routes (Method r) key).2
                 :: tail /\
    Forall (fun e => 3 < stage e) tail.
Proof.
  assert (Hpre : forall fs req out evs, pre_ran r fs req out evs ->
                   Forall (fun e => 3 < stage e) evs).
  { intros fs req out evs H. eapply Forall_impl; [exact (pre_ran_stage _ _ _ _ _ H)|].
    intros e He. cbn beta in He. lia. }
  assert (Hpost : forall fs req out evs, post_ran r fs req out evs ->
                   Forall (fun e => 3 < stage e) evs).
  { intros fs req out evs H. eapply Forall_impl; [exact (post_ran_stage _ _ _ _ _ H)|].
    intros e He. cbn beta in He. lia. }
  assert (Hb : forall i req t log, bound ext routes ord r i req t log ->
            forall tail, Forall (fun e => 3 < stage e) tail ->
            exists key req0 log0 tail0,
              parsed ext r key req0 log0 /\
              log ++ tail
              = log0 ++ router.EvGetNode (Method r) key (router.getNode routes (Method r) key).2
                     :: tail0 /\
              Forall (fun e => 3 < stage e) tail0).
  { intros i req t log [key req' log0 i' t' Hp Hn Hbind] tail Htail.
    exists key, req', log0, (router.EvSetInputParam req' t' None :: tail).
    split; [done|]. rewrite Hn, <- app_assoc. split; [done|].
    constructor; [cbn; lia|done]. }
  assert (Hpf : forall i t req2 log, prefiltered ext routes filters ord r i t req2 log ->
            forall tail, Forall (fun e => 3 < stage e) tail ->
            exists key req0 log0 tail0,
              parsed ext r key req0 log0 /\
              log ++ tail
              = log0 ++ router.EvGetNode (Method r) key (router.getNode routes (Method r) key).2
                     :: tail0 /\
              Forall (fun e => 3 < stage e) tail0).
  { intros i t req2 log [i' req t' log0 req1 req2' evs Hbd Hm Hp] tail Htail.
    rewrite <- app_assoc. eapply Hb; [exact Hbd|].
    apply Forall_app. split; [by eapply Hpre|done]. }
  assert (Hpo : forall result log, postfiltered ext routes filters ord r result log ->
            forall tail, Forall (fun e => 3 < stage e) tail ->
            exists key req0 log0 tail0,
              parsed ext r key req0 log0 /\
              log ++ tail
              = log0 ++ router.EvGetNode (Method r) key (router.getNode routes (Method r) key).2
                     :: tail0 /\
              Forall (fun e => 3 < stage e) tail0).
  { intros result log [i t req2 log' result' req3 evs Hp Hc Hpost'] tail Htail.
    rewrite <- app_assoc. eapply Hpf; [exact Hp|].
    constructor; [cbn; lia|]. apply Forall_app. split; [by eapply Hpost|done]. }
  destruct 1 as [v plog Hp|lg Hn|Hf Hm|result plog data Hp Hm].
  - destruct Hp as [e He|req e Hf Hm Hbd|key req log i v Hp Hn Hbd|i req t log v Hbd Hm
                |i req t log req1 req2 e evs Hbd Hm Hpre'|i req t log req1 v evs Hbd Hm Hpre'
                |i t req2 log result e Hpre' Hc|i t req2 log v Hpre' Hc
                |i t req2 log result req3 e evs Hpre' Hc Hpost'
                |i t req2 log result v evs Hpre' Hc Hpost'
                |result log data e Hpost' Hm].
    + left. repeat constructor; done.
    + left. repeat constructor; done.
    + right. exists key, req, log, [router.EvRecover v]. split; [done|].
      rewrite Hn, <- app_assoc. split; [done|]. repeat constructor; cbn; lia.
    + right. eapply Hb; [exact Hbd|]. repeat constructor; cbn; lia.
    + right. rewrite <- app_assoc. eapply Hb; [exact Hbd|].
      apply Forall_app. split; [by eapply Hpre|repeat constructor; cbn; lia].
    + right. rewrite <- app_assoc. eapply Hb; [exact Hbd|].
      apply Forall_app. split; [by eapply Hpre|repeat constructor; cbn; lia].
    + right. rewrite <- app_assoc. eapply Hpf; [exact Hpre'|]. repeat constructor; cbn; lia.
    + right. rewrite <- app_assoc. eapply Hpf; [exact Hpre'|]. repeat constructor; cbn; lia.
    + right. rewrite <- app_assoc. eapply Hpf; [exact Hpre'|]. cbn [app].
      constructor; [cbn; lia|]. apply Forall_app. split; [by eapply Hpost|repeat constructor; cbn; lia].
    + right. rewrite <- app_assoc. eapply Hpf; [exact Hpre'|]. cbn [app].
      constructor; [cbn; lia|]. apply Forall_app. split; [by eapply Hpost|repeat constructor; cbn; lia].
    + right. rewrite <- app_assoc. eapply Hpo; [exact Hpost'|]. repeat constructor; cbn; lia.
  - destruct Hn as [req key e Hf Hm Hp|key req log e Hp Hn|key req log i t e Hp Hn Hbd].
    + left. repeat constructor; done.
    + right. exists key, req, log, [router.EvNotFound]. split; [done|].
      rewrite Hn. split; [done|]. repeat constructor; cbn; lia.
    + right. exists key, req, log, [router.EvSetInputParam req t (Some e); router.EvNotFound].
      split; [done|]. rewrite Hn. split; [done|]. repeat constructor; cbn; lia.
  - left. repeat constructor; done.
  - right. eapply Hpo; [exact Hp|]. repeat constructor; cbn; lia.
Qed.

Lemma parsed_key key req log0 :
  parsed ext r key req log0 ->
  (Method r = "POST" /\ key = URL_Path r) \/
  ((Method r = "GET" \/ Method r = "DELETE") /\
   key = Join (take 4 (segments (URL_Path r))) "/" /\
   4 <= length (segments (URL_Path r))).
Proof.
  destruct 1 as [key req Hf Hm Hpg|req Hf Hm Hb]; [right|by left].
  split; [done|]. by eapply router_parseGet_key.
Qed.

End RouteFacts.

(** X15: the key under which package router looks a route up.  For a POST
    it is the path of the URL as it is (not escaped, trailing slashes kept);
    for a GET or a DELETE it is the first four segments of the escaped,
    trimmed path.  The lookup is under the method of the request and happens
    once, after the path or the body was parsed and before the binding, the
    hooks and the handler. *)
Theorem route_key_by_method ext routes filters ord r w w' log m k e :
  router.Dispatch ext routes filters ord w r = Val (w', log) ->
  router.EvGetNode m k e ∈ log ->
  m = Method r /\
  e = (router.getNode routes m k).2 /\
  ((m = "POST" /\ k = URL_Path r) \/
   ((m = "GET" \/ m = "DELETE") /\
    k = Join (take 4 (segments (URL_Path r))) "/" /\
    4 <= length (segments (URL_Path r)))) /\
  exists log1 log2,
    log = log1 ++ router.EvGetNode m k e :: log2 /\
    Forall (passed_upto 2) log1 /\
    Forall (fun ev => 3 < stage ev) log2.
Proof.
  intros Hrun Hin.
  destruct (Dispatch_dispatched ext routes filters ord r w) as (w1 & log1 & Hrun1 & Hd).
  rewrite Hrun in Hrun1. injection Hrun1 as <- <-.
  destruct (dispatched_route _ _ _ _ _ _ _ _ Hd)
    as [Hno|(key & req & log0 & tail & Hp & -> & Htail)].
  { apply (proj1 (Forall_forall _ _) Hno) in Hin. done. }
  assert (Heq : router.EvGetNode m k e
                = router.EvGetNode (Method r) key (router.getNode routes (Method r) key).2).
  { elem_cases Hin; [|done|].
    - destruct (passed_elem _ _ _ (parsed_log _ _ _ _ _ Hp) Hin) as [_ Hst]. cbn in Hst. lia.
    - apply (proj1 (Forall_forall _ _) Htail) in Hin. cbn in Hin. lia. }
  injection Heq as -> -> ->.
  split; [done|]. split; [done|]. split; [by eapply parsed_key|].
  exists log0, tail. split; [done|]. split; [by eapply parsed_log|done].
Qed.

Lemma route_key_by_method_witness :
  exists w' log,
    router.Dispatch (example_extern ∅) example_routes allow_filters allow_orders
      new_ResponseWriter (GET "/v1/test/retrieve/id/42") = Val (w', log) /\
    router.EvGetNode "GET" "/v1/test/retrieve" None ∈ log /\
    "/v1/test/retrieve" = Join (take 4 (segments "/v1/test/retrieve/id/42")) "/".
Proof.
  eexists _, _. split; [vm_compute; reflexivity|].
  split; [repeat first [apply list_elem_of_here | apply list_elem_of_further]|].
  edestruct (fun w' log =>
               route_key_by_method (example_extern ∅) example_routes allow_filters allow_orders
                 (GET "/v1/test/retrieve/id/42") new_ResponseWriter w' log
                 "GET" "/v1/test/retrieve" None) as (_ & _ & Hkey & _).
  - vm_compute. reflexivity.
  - repeat first [apply list_elem_of_here | apply list_elem_of_further].
  - destruct Hkey as [[Hm _]|(_ & Hk & _)]; [discriminate Hm|exact Hk].
Defined.

(** ** The not-found class: an example *)

Lemma missing_is_not_found_witness :
  exists w' log,
    router.Dispatch (example_extern ∅) example_routes allow_filters allow_orders
      new_ResponseWriter (GET "/v1/test/unknown") = Val (w', log) /\
    status w' = Some 404.
Proof.
  eexists _, _. split; [vm_compute; reflexivity|].
  edestruct (fun w' log =>
               missing_is_not_found (example_extern ∅) example_routes allow_filters allow_orders
                 (GET "/v1/test/unknown") w' log
                 (router.EvGetNode "GET" "/v1/test/unknown"
                    (Some (errors_New "No Handler Found"))))
    as (_ & Hstatus & _).
  - vm_compute. reflexivity.
  - repeat first [apply list_elem_of_here | apply list_elem_of_further].
  - reflexivity.
  - exact Hstatus.
Defined.

(** ** The courses of a dispatch in package go_router *)

Import go_lifecycle.

Section GoDispatchFacts.
Import go_lifecycle.
Variable ext : Extern.
Variable routes : go_router.RouteMap.
Variable filters : go_router.FilterMap.
Variable ord : go_router.Orders.
Variable r : http_Request.

Lemma go_preDispatch_loop_ran fs : forall req w log,
  exists out evs,
    run (go_router.preDispatch_loop r fs req) (w, log) = (out, (w, log ++ evs)) /\
    pre_ran r fs req out evs.
Proof.
  induction fs as [|[n f] fs IH]; intros req w log.
  - exists (Norm (req, None)), []. rewrite app_nil_r. split; [done|constructor].
  - cbn [go_router.preDispatch_loop].
    destruct (go_router.PreDispatch f r req) as [req' [e|]|v] eqn:Hhook.
    + eexists _, _. split; [reflexivity|]. by constructor.
    + destruct (IH req' w (log ++ [go_router.EvPreDispatch n req (go_router.HookReturns req' None)]))
        as (out & evs & Hrun & Hran).
      exists out, (go_router.EvPreDispatch n req (go_router.HookReturns req' None) :: evs).
      split; [|by constructor].
      cbn. cbn in Hrun. rewrite Hrun. by rewrite <- app_assoc.
    + eexists _, _. split; [reflexivity|]. by constructor.
Qed.

Lemma go_postDispatch_loop_ran fs : forall req w log,
  exists out evs,
    run (go_router.postDispatch_loop r fs req) (w, log) = (out, (w, log ++ evs)) /\
    post_ran r fs req out evs.
Proof.
  induction fs as [|[n f] fs IH]; intros req w log.
  - exists (Norm (req, None)), []. rewrite app_nil_r. split; [done|constructor].
  - cbn [go_router.postDispatch_loop].
    destruct (go_router.PostDispatch f r req) as [req' [e|]|v] eqn:Hhook.
    + eexists _, _. split; [reflexivity|]. by constructor.
    + destruct (IH req' w (log ++ [go_router.EvPostDispatch n req (go_router.HookReturns req' None)]))
        as (out & evs & Hrun & Hran).
      exists out, (go_router.EvPostDispatch n req (go_router.HookReturns req' None) :: evs).
      split; [|by constructor].
      cbn. cbn in Hrun. rewrite Hrun. by rewrite <- app_assoc.
    + eexists _, _. split; [reflexivity|]. by constructor.
Qed.

Lemma go_pre_ran_outcome fs req out evs :
  pre_ran r fs req out evs ->
  (exists req', out = Norm (req', None)) \/
  (exists req' e, out = Norm (req', Some e)) \/
  (exists v, out = Panicking v).
Proof. induction 1; eauto. Qed.

Lemma go_post_ran_outcome fs req out evs :
  post_ran r fs req out evs ->
  (exists req', out = Norm (req', None)) \/
  (exists req' e, out = Norm (req', Some e)) \/
  (exists v, out = Panicking v).
Proof. induction 1; eauto. Qed.

Lemma go_getNode_cases m k :
  (exists c, go_router.getNode routes m k = (Some c, None)) \/
  (exists e, go_router.getNode routes m k = (None, Some e)).
Proof.
  unfold go_router.getNode, getNode_of.
  destruct (routes !! m) as [nodes|]; [|eauto].
  destruct (nodes !! k); eauto.
Qed.

Lemma go_parseGet_cases req :
  (exists req' key, go_router.parseGet ext r req = Val (req', key)) \/
  (exists v, go_router.parseGet ext r req = Panic v).
Proof.
  pose proof (go_parseGet_total ext r req) as H.
  destruct (go_router.parseGet ext r req) as [[req' key]|v|]; [eauto|eauto|done].
Qed.

Lemma go_parseForm_cases req :
  (exists req', go_router.parseForm ext r req = Val req') \/
  (exists v, go_router.parseForm ext r req = Panic v).
Proof.
  unfold go_router.parseForm. generalize (map_to_list (Form r)). intros kvs. revert req.
  induction kvs as [|[k v] rest IH]; intros req; cbn [go_router.parseForm_loop]; [eauto|].
  unfold index. destruct (v !! 0) as [v0|]; cbn [mbind exec_bind]; [|eauto].
  rewrite toParam_typed. cbn [mbind exec_bind]. apply IH.
Qed.

Ltac gstep :=
  cbn [run mbind Run_bind emit respond return_ panic lift go_router.panic_on
       mret Run_ret fst snd app].

Ltac gnorm := rewrite <- ?app_assoc; cbn [app].

Lemma go_Dispatch_dispatched w :
  exists w' log, go_router.Dispatch ext routes filters ord w r = Val (w', log) /\
                 dispatched ext routes filters ord r w w' log.
Proof.
  unfold go_router.Dispatch, go_router.Dispatch_body.
  set (w0 := Header_Set "Content-Type" JSON w).
  destruct (ParseForm r) as [e|] eqn:Hform.
  { gstep. eexists _, _. split; [reflexivity|].
    apply (dispatched_fatal _ _ _ _ _ _ (PanicError e) id [go_router.EvParseForm (Some e)]).
    by constructor. }
  gstep.
  assert (Htail : forall key req answer log0,
    parsed ext r key req answer log0 ->
    exists w' log,
      (let (o, st) :=
         run ('(req, err) ← go_router.preDispatch filters (go_router.order_pre ord) r req;
              _ ← go_router.panic_on err;
              let '(c, err) := go_router.getNode routes (Method r) key in
              _ ← emit (go_router.EvGetNode (Method r) key err);
              match c, err with
              | Some c, None =>
                  let i := go_router.Call c req in
                  _ ← emit (go_router.EvCall req i);
                  match i with
                  | go_router.CallPanics pv => panic pv
                  | go_router.Returns result err =>
                      _ ← go_router.panic_on err;
                      '(req, err) ← go_router.postDispatch filters (go_router.order_post ord) r req;
                      _ ← go_router.panic_on err;
                      let '(data, err) := json_Marshal ext result in
                      _ ← emit (go_router.EvMarshal err);
                      _ ← go_router.panic_on err;
                      respond (Write data)
                  end
              | _, _ => _ ← emit go_router.EvNotFound; _ ← respond notFound; return_
              end) (answer w0, log0) in
       match o with
       | Panicking v => let (w', log) := st in Val (internalError w', log ++ [go_router.EvRecover v])
       | OutOfFuel => Timeout
       | _ => Val st
       end) = Val (w', log) /\
      dispatched ext routes filters ord r w w' log).
  { intros key req answer log0 Hparsed.
    unfold go_router.preDispatch.
    destruct (go_preDispatch_loop_ran (range_map (go_router.order_pre ord) filters) req
                (answer w0) log0) as (out & evs & Hrun & Hpre).
    rewrite run_bind, Hrun. clear Hrun.
    destruct (go_pre_ran_outcome _ _ _ _ Hpre) as [(req2 & ->)|[(req2 & e & ->)|(v & ->)]]; gstep.
    2:{ eexists _, _. split; [reflexivity|]. apply dispatched_fatal.
        eapply panics_pre_failed; eauto. }
    2:{ eexists _, _. split; [reflexivity|]. apply dispatched_fatal.
        eapply panics_pre_panicked; eauto. }
    assert (Hpref : prefiltered ext filters ord r key req2 answer (log0 ++ evs)).
    { econstructor; eauto. }
    set (log1 := log0 ++ evs) in *. clearbody log1.
    destruct (go_getNode_cases (Method r) key) as [[c Hnode]|[e Hnode]]; rewrite Hnode; gstep.
    2:{ eexists _, _. split; [reflexivity|]. gnorm. eapply dispatched_not_found; eauto. }
    destruct (go_router.Call c req2) as [result [e|]|v] eqn:Hcall; gstep.
    { eexists _, _. split; [reflexivity|]. apply dispatched_fatal. gnorm.
      eapply panics_call_failed; eauto. }
    2:{ eexists _, _. split; [reflexivity|]. apply dispatched_fatal. gnorm.
        eapply panics_call_panicked; eauto. }
    unfold go_router.postDispatch.
    destruct (go_postDispatch_loop_ran (range_map (go_router.order_post ord) filters) req2
                (answer w0)
                ((log1 ++ [go_router.EvGetNode (Method r) key None])
                 ++ [go_router.EvCall req2 (go_router.Returns result None)]))
      as (out & evs' & Hrun' & Hpost). rewrite run_bind, Hrun'. clear Hrun'.
    gnorm.
    destruct (go_post_ran_outcome _ _ _ _ Hpost) as [(req3 & ->)|[(req3 & e & ->)|(v & ->)]]; gstep.
    2:{ eexists _, _. split; [reflexivity|]. apply dispatched_fatal.
        eapply panics_post_failed; eauto. }
    2:{ eexists _, _. split; [reflexivity|]. apply dispatched_fatal.
        eapply panics_post_panicked; eauto. }
    assert (Hpostf : postfiltered ext routes filters ord r result answer
                       (log1 ++ go_router.EvGetNode (Method r) key None
                             :: go_router.EvCall req2 (go_router.Returns result None) :: evs')).
    { econstructor; eauto. }
    set (log3 := log1 ++ _ :: _ :: evs') in *. clearbody log3.
    destruct (json_Marshal ext result) as [data [e|]] eqn:Hm; gstep.
    { eexists _, _. split; [reflexivity|]. apply dispatched_fatal.
      eapply panics_marshal; eauto. }
    eexists _, _. split; [reflexivity|].
    eapply dispatched_ok; eauto. }
  assert (Hpath : Method r = "GET" \/ Method r = "DELETE" ->
    exists w' log,
      (let (o, st) :=
         run ('(routeKey, req) ←
                ('(req, routeKey) ← lift (go_router.parseGet ext r ∅);
                 _ ← emit (go_router.EvParseGet routeKey);
                 req ← lift (go_router.parseForm ext r req);
                 mret (routeKey, req));
              '(req, err) ← go_router.preDispatch filters (go_router.order_pre ord) r req;
              _ ← go_router.panic_on err;
              let '(c, err) := go_router.getNode routes (Method r) routeKey in
              _ ← emit (go_router.EvGetNode (Method r) routeKey err);
              match c, err with
              | Some c, None =>
                  let i := go_router.Call c req in
                  _ ← emit (go_router.EvCall req i);
                  match i with
                  | go_router.CallPanics pv => panic pv
                  | go_router.Returns result err =>
                      _ ← go_router.panic_on err;
                      '(req, err) ← go_router.postDispatch filters (go_router.order_post ord) r req;
                      _ ← go_router.panic_on err;
                      let '(data, err) := json_Marshal ext result in
                      _ ← emit (go_router.EvMarshal err);
                      _ ← go_router.panic_on err;
                      respond (Write data)
                  end
              | _, _ => _ ← emit go_router.EvNotFound; _ ← respond notFound; return_
              end) (w0, [] ++ [go_router.EvParseForm None]) in
       match o with
       | Panicking v => let (w', log) := st in Val (internalError w', log ++ [go_router.EvRecover v])
       | OutOfFuel => Timeout
       | _ => Val st
       end) = Val (w', log) /\
      dispatched ext routes filters ord r w w' log).
  { intros Hm. rewrite run_bind, run_bind.
    destruct (go_parseGet_cases ∅) as [(req0 & key & Hpg)|(v & Hpg)]; rewrite Hpg; gstep.
    2:{ eexists _, _. split; [reflexivity|].
        apply (dispatched_fatal _ _ _ _ _ _ v id [go_router.EvParseForm None]).
        by constructor. }
    destruct (go_parseForm_cases req0) as [(req & Hpf)|(v & Hpf)]; rewrite Hpf; gstep.
    2:{ eexists _, _. split; [reflexivity|].
        apply (dispatched_fatal _ _ _ _ _ _ v id
                 [go_router.EvParseForm None; go_router.EvParseGet key]).
        eapply panics_path_form; eauto. }
    exact (Htail key req id [go_router.EvParseForm None; go_router.EvParseGet key]
             (parsed_path ext r key req0 req Hform Hm Hpg Hpf)). }
  destruct (String.eqb_spec (Method r) "GET") as [Hget|Hget];
    [|destruct (String.eqb_spec (Method r) "DELETE") as [Hdel|Hdel]]; cbn [orb].
  3: destruct (String.eqb_spec (Method r) "POST") as [Hpost|Hpost].
  - apply Hpath. by left.
  - apply Hpath. by right.
  - destruct (go_router.parseBody ext r ∅) as [req0 [e|]] eqn:Hbody; gstep.
    + eexists _, _. split; [reflexivity|].
      apply (dispatched_fatal _ _ _ _ _ _ (PanicError e) id
               [go_router.EvParseForm None; go_router.EvParseBody (Some e)]).
      eapply panics_body; eauto.
    + destruct (go_parseForm_cases req0) as [(req & Hpf)|(v & Hpf)]; rewrite Hpf; gstep.
      2:{ eexists _, _. split; [reflexivity|].
          apply (dispatched_fatal _ _ _ _ _ _ v id
                   [go_router.EvParseForm None; go_router.EvParseBody None]).
          eapply panics_body_form; eauto. }
      exact (Htail (URL_Path r) req id [go_router.EvParseForm None; go_router.EvParseBody None]
               (parsed_body ext r req0 req Hform Hpost Hbody Hpf)).
  - gstep.
    apply (Htail EmptyString ∅ notSupported
             [go_router.EvParseForm None; go_router.EvNotSupported]).
    apply parsed_unsupported; [done|]. unfold lifecycle.supported. tauto.
Qed.

End GoDispatchFacts.

(** ** The log of a dispatch in package go_router *)

Section GoLogFacts.
Variable ext : Extern.
Variable routes : go_router.RouteMap.
Variable filters : go_router.FilterMap.
Variable ord : go_router.Orders.
Variable r : http_Request.

Lemma go_pre_ran_stage fs req out evs :
  pre_ran r fs req out evs -> Forall (fun e => go_stage e = 3) evs.
Proof. induction 1; repeat constructor; done. Qed.

Lemma go_post_ran_stage fs req out evs :
  post_ran r fs req out evs -> Forall (fun e => go_stage e = 6) evs.
Proof. induction 1; repeat constructor; done. Qed.

Lemma go_pre_names_app l1 l2 : go_pre_names (l1 ++ l2) = go_pre_names l1 ++ go_pre_names l2.
Proof. apply omap_app. Qed.

Lemma go_pre_names_other log : Forall (fun e => go_stage e <> 3) log -> go_pre_names log = [].
Proof.
  induction 1 as [|e log He _ IH]; [done|].
  unfold go_pre_names in *. cbn. rewrite IH. by destruct e.
Qed.

Lemma go_post_names_app l1 l2 : go_post_names (l1 ++ l2) = go_post_names l1 ++ go_post_names l2.
Proof. apply omap_app. Qed.

Lemma go_post_names_other log : Forall (fun e => go_stage e <> 6) log -> go_post_names log = [].
Proof.
  induction 1 as [|e log He _ IH]; [done|].
  unfold go_post_names in *. cbn. rewrite IH. by destruct e.
Qed.

Lemma go_pre_ran_all fs req req' evs :
  pre_ran r fs req (Norm (req', None)) evs -> go_pre_names evs = fs.*1.
Proof.
  intros H. remember (Norm (req', None)) as out eqn:Hout.
  induction H as [req|n f fs req req1 out evs Hhook Hran IH|n f fs req req1 e Hhook
                 |n f fs req v Hhook]; try done.
  cbn. unfold go_pre_names in IH. by rewrite IH.
Qed.

Lemma go_post_ran_all fs req req' evs :
  post_ran r fs req (Norm (req', None)) evs -> go_post_names evs = fs.*1.
Proof.
  intros H. remember (Norm (req', None)) as out eqn:Hout.
  induction H as [req|n f fs req req1 out evs Hhook Hran IH|n f fs req req1 e Hhook
                 |n f fs req v Hhook]; try done.
  cbn. unfold go_post_names in IH. by rewrite IH.
Qed.

(** The hooks of a visit in which every hook passed. *)
Lemma go_pre_ran_passed fs req req' evs :
  pre_ran r fs req (Norm (req', None)) evs ->
  forall n rq res, go_router.EvPreDispatch n rq res ∈ evs ->
    exists f rq', (n, f) ∈ fs /\ go_router.PreDispatch f r rq = res /\
                  res = go_router.HookReturns rq' None.
Proof.
  intros H. remember (Norm (req', None)) as out eqn:Hout.
  induction H as [req|n0 f fs req req1 out evs Hhook Hran IH|n0 f fs req req1 e Hhook
                 |n0 f fs req v Hhook]; intros n rq res Hin; try done.
  - by apply elem_of_nil in Hin.
  - apply elem_of_cons in Hin as [[= -> -> ->]|Hin].
    + exists f, req1. split; [apply list_elem_of_here|done].
    + destruct (IH Hout n rq res Hin) as (f' & rq' & Hf' & Hres). exists f', rq'.
      split; [by apply list_elem_of_further|done].
Qed.

Lemma go_parsed_stage key req answer log :
  parsed ext r key req answer log -> Forall (fun e => go_stage e <= 2) log.
Proof. destruct 1; repeat constructor. Qed.

Lemma go_prefiltered_stage key req answer log :
  prefiltered ext filters ord r key req answer log -> Forall (fun e => go_stage e <= 3) log.
Proof.
  destruct 1 as [key req answer log req' evs Hp Hpre]. apply Forall_app. split.
  - eapply Forall_impl; [exact (go_parsed_stage _ _ _ _ Hp)|]. intros e He. cbn beta in He. lia.
  - eapply Forall_impl; [exact (go_pre_ran_stage _ _ _ _ Hpre)|]. intros e He. cbn beta in He. lia.
Qed.

Lemma go_prefiltered_names key req answer log :
  prefiltered ext filters ord r key req answer log ->
  go_pre_names log = (range_map (go_router.order_pre ord) filters).*1 /\
  (forall n rq res, go_router.EvPreDispatch n rq res ∈ log ->
     exists f rq', filters !! n = Some f /\ go_router.PreDispatch f r rq = res /\
                   res = go_router.HookReturns rq' None).
Proof.
  destruct 1 as [key req answer log req' evs Hp Hpre]. split.
  - rewrite go_pre_names_app, (go_pre_names_other log), (go_pre_ran_all _ _ _ _ Hpre); [done|].
    eapply Forall_impl; [exact (go_parsed_stage _ _ _ _ Hp)|]. intros e He. cbn beta in He. lia.
  - intros n rq res Hin. apply elem_of_app in Hin as [Hin|Hin].
    { apply (proj1 (Forall_forall _ _) (go_parsed_stage _ _ _ _ Hp)) in Hin. cbn in Hin. lia. }
    destruct (go_pre_ran_passed _ _ _ _ Hpre n rq res Hin) as (f & rq' & Hf & Hres).
    exists f, rq'. split; [by apply range_map_elem in Hf|done].
Qed.

Lemma go_prefiltered_key key req answer log :
  prefiltered ext filters ord r key req answer log ->
  (Method r = "POST" /\ key = URL_Path r) \/
  ((Method r = "GET" \/ Method r = "DELETE") /\
   exists req0, go_router.parseGet ext r ∅ = Val (req0, key)) \/
  (~ lifecycle.supported (Method r) /\ key = EmptyString).
Proof.
  destruct 1 as [key req answer log req' evs Hp _].
  destruct Hp as [key req0 req Hf Hm Hpg _|req0 req Hf Hm _ _|Hf Hm].
  - right. left. split; [done|]. by exists req0.
  - by left.
  - right. right. done.
Qed.

(** The log of a dispatch that looked the route up. *)
Lemma go_dispatched_lookup w w' final :
  dispatched ext routes filters ord r w w' final ->
  Forall (fun e => go_stage e <> 4 /\ go_stage e <> 5) final \/
  exists key req answer plog tail,
    prefiltered ext filters ord r key req answer plog /\
    final = plog ++ go_router.EvGetNode (Method r) key (go_router.getNode routes (Method r) key).2
                 :: tail /\
    match (go_router.getNode routes (Method r) key).1 with
    | None => tail = [go_router.EvNotFound] /\ w' = notFound (answer (Header_Set "Content-Type" JSON w))
    | Some c => exists tail', tail = go_router.EvCall req (go_router.Call c req) :: tail' /\
                              Forall (fun e => 6 <= go_stage e) tail'
    end.
Proof.
  assert (Hpost : forall fs req out evs, post_ran r fs req out evs ->
                   Forall (fun e => 6 <= go_stage e) evs).
  { intros fs req out evs H. eapply Forall_impl; [exact (go_post_ran_stage _ _ _ _ H)|].
    intros e He. cbn beta in He. lia. }
  assert (Hearly : forall key req answer log, parsed ext r key req answer log ->
            forall fs rq out evs, pre_ran r fs rq out evs ->
            forall tail, Forall (fun e => go_stage e = 8) tail ->
            Forall (fun e => go_stage e <> 4 /\ go_stage e <> 5) (log ++ evs ++ tail)).
  { intros key req answer log Hp fs rq out evs Hpre tail Htail.
    apply Forall_app. split; [|apply Forall_app; split].
    - eapply Forall_impl; [exact (go_parsed_stage _ _ _ _ Hp)|]. intros e He. cbn beta in He. lia.
    - eapply Forall_impl; [exact (go_pre_ran_stage _ _ _ _ Hpre)|]. intros e He. cbn beta in He. lia.
    - eapply Forall_impl; [exact Htail|]. intros e He. cbn beta in He. lia. }
  assert (Hpostf : forall result answer log, postfiltered ext routes filters ord r result answer log ->
            forall tail, Forall (fun e => 6 <= go_stage e) tail ->
            exists key req answer' plog tail0,
              prefiltered ext filters ord r key req answer' plog /\
              log ++ tail
              = plog ++ go_router.EvGetNode (Method r) key
                          (go_router.getNode routes (Method r) key).2 :: tail0 /\
              match (go_router.getNode routes (Method r) key).1 with
              | None => tail0 = [go_router.EvNotFound] /\
                        w' = notFound (answer' (Header_Set "Content-Type" JSON w))
              | Some c => exists tail', tail0 = go_router.EvCall req (go_router.Call c req) :: tail' /\
                                        Forall (fun e => 6 <= go_stage e) tail'
              end).
  { intros result answer log [key req answer' plog c result' req' evs Hp Hn Hc Hpo] tail Htail.
    exists key, req, answer', plog, (go_router.EvCall req (go_router.Returns result' None) :: evs ++ tail).
    split; [done|]. rewrite Hn. cbn [fst snd]. rewrite <- app_assoc. split; [done|].
    exists (evs ++ tail). rewrite Hc. split; [done|].
    apply Forall_app. split; [by eapply Hpost|done]. }
  destruct 1 as [v answer plog Hp|key req answer plog e Hp Hn|result answer plog data Hp Hm].
  - destruct Hp as [e He|v Hf Hm Hpg|req0 key v Hf Hm Hpg Hpf|req0 e Hf Hm Hb|req0 v Hf Hm Hb Hpf
                |key req answer log req' e evs Hp Hpre|key req answer log v evs Hp Hpre
                |key req answer log c result e Hp Hn Hc|key req answer log c v Hp Hn Hc
                |key req answer log c result req' e evs Hp Hn Hc Hpo
                |key req answer log c result v evs Hp Hn Hc Hpo
                |result answer log data e Hp Hm].
    + left. repeat constructor; done.
    + left. repeat constructor; done.
    + left. repeat constructor; done.
    + left. repeat constructor; done.
    + left. repeat constructor; done.
    + left. rewrite <- app_assoc. eapply Hearly; eauto; repeat constructor.
    + left. rewrite <- app_assoc. eapply Hearly; eauto; repeat constructor.
    + right. exists key, req, answer, log, [go_router.EvCall req (go_router.Returns result (Some e));
                                            go_router.EvRecover (PanicError e)].
      split; [done|]. rewrite Hn. cbn [fst snd]. rewrite <- app_assoc. split; [done|].
      eexists. rewrite Hc. split; [done|]. repeat constructor; cbn; lia.
    + right. exists key, req, answer, log, [go_router.EvCall req (go_router.CallPanics v);
                                            go_router.EvRecover v].
      split; [done|]. rewrite Hn. cbn [fst snd]. rewrite <- app_assoc. split; [done|].
      eexists. rewrite Hc. split; [done|]. repeat constructor; cbn; lia.
    + right. exists key, req, answer, log,
        (go_router.EvCall req (go_router.Returns result None)
           :: evs ++ [go_router.EvRecover (PanicError e)]).
      split; [done|]. rewrite Hn. cbn [fst snd]. rewrite <- app_assoc. split; [done|].
      eexists. rewrite Hc. split; [done|].
      apply Forall_app. split; [by eapply Hpost|repeat constructor; cbn; lia].
    + right. exists key, req, answer, log,
        (go_router.EvCall req (go_router.Returns result None) :: evs ++ [go_router.EvRecover v]).
      split; [done|]. rewrite Hn. cbn [fst snd]. rewrite <- app_assoc. split; [done|].
      eexists. rewrite Hc. split; [done|].
      apply Forall_app. split; [by eapply Hpost|repeat constructor; cbn; lia].
    + right. rewrite <- app_assoc. eapply Hpostf; [exact Hp|]. repeat constructor; cbn; lia.
  - right. exists key, req, answer, plog, [go_router.EvNotFound].
    split; [done|]. rewrite Hn. cbn [fst snd]. done.
  - right. eapply Hpostf; [exact Hp|]. repeat constructor; cbn; lia.
Qed.

End GoLogFacts.

(** X18: in package go_router the route is looked up only after the
    pre-dispatch hook of every registered filter was called once and
    returned no error, so the filters run for a request whose route has no
    handler too.  The lookup is under the method of the request and under
    the path of the URL as it is for a POST, the key of the path parser for
    a GET or a DELETE, and the empty key for any other method; when it
    fails the not-found response follows, and when it succeeds the handler
    is called with the parameter set the hooks left. *)
Theorem go_lookup_after_every_filter ext routes filters ord r w w' log m k e :
  go_router.Dispatch ext routes filters ord w r = Val (w', log) ->
  go_router.EvGetNode m k e ∈ log ->
  exists log1 log2,
    log = log1 ++ go_router.EvGetNode m k e :: log2 /\
    m = Method r /\
    e = (go_router.getNode routes m k).2 /\
    ((m = "POST" /\ k = URL_Path r) \/
     ((m = "GET" \/ m = "DELETE") /\ exists req0, go_router.parseGet ext r ∅ = Val (req0, k)) \/
     (~ lifecycle.supported m /\ k = EmptyString)) /\
    Forall (fun ev => go_stage ev <= 3) log1 /\
    go_pre_names log1 ≡ₚ (map_to_list filters).*1 /\
    (forall n rq hres, go_router.EvPreDispatch n rq hres ∈ log1 ->
       exists f rq', filters !! n = Some f /\ go_router.PreDispatch f r rq = hres /\
                     hres = go_router.HookReturns rq' None) /\
    exists req answer,
      prefiltered ext filters ord r k req answer log1 /\
      match (go_router.getNode routes m k).1 with
      | None => log2 = [go_router.EvNotFound]
      | Some c => exists tail, log2 = go_router.EvCall req (go_router.Call c req) :: tail /\
                               Forall (fun ev => 6 <= go_stage ev) tail
      end.
Proof.
  intros Hrun Hin.
  destruct (go_Dispatch_dispatched ext routes filters ord r w) as (w1 & log1 & Hrun1 & Hd).
  rewrite Hrun in Hrun1. injection Hrun1 as <- <-.
  destruct (go_dispatched_lookup _ _ _ _ _ _ _ _ Hd)
    as [Hno|(key & req & answer & plog & tail & Hp & -> & Htail)].
  { apply (proj1 (Forall_forall _ _) Hno) in Hin. cbn in Hin. lia. }
  assert (Heq : go_router.EvGetNode m k e
                = go_router.EvGetNode (Method r) key (go_router.getNode routes (Method r) key).2).
  { elem_cases Hin; [|done|].
    - apply (proj1 (Forall_forall _ _) (go_prefiltered_stage _ _ _ _ _ _ _ _ Hp)) in Hin.
      cbn in Hin. lia.
    - destruct ((go_router.getNode routes (Method r) key).1) as [c|].
      + destruct Htail as (tail' & -> & Htail'). elem_cases Hin; [discriminate|].
        apply (proj1 (Forall_forall _ _) Htail') in Hin. cbn in Hin. lia.
      + destruct Htail as [-> _]. elem_cases Hin. discriminate. }
  injection Heq as -> -> ->.
  destruct (go_prefiltered_names _ _ _ _ _ _ _ _ Hp) as [Hnames Hreg].
  exists plog, tail. split; [done|]. split; [done|]. split; [done|].
  split; [by eapply go_prefiltered_key|].
  split; [by eapply go_prefiltered_stage|].
  split; [rewrite Hnames; apply range_map_names|]. split; [done|].
  exists req, answer. split; [done|].
  destruct ((go_router.getNode routes (Method r) key).1) as [c|]; [done|]. by destruct Htail.
Qed.

Lemma go_lookup_after_every_filter_witness :
  exists w' log,
    go_router.Dispatch (example_extern ∅) go_example_routes go_example_filters
      go_example_orders new_ResponseWriter (GET "/v1/test/unknown") = Val (w', log) /\
    exists log1 log2 m k e,
      log = log1 ++ go_router.EvGetNode m k e :: log2 /\
      go_pre_names log1 ≡ₚ (map_to_list go_example_filters).*1.
Proof.
  eexists _, _. split; [vm_compute; reflexivity|].
  edestruct (go_lookup_after_every_filter (example_extern ∅) go_example_routes
               go_example_filters go_example_orders (GET "/v1/test/unknown")
               new_ResponseWriter)
    as (log1 & log2 & Hlog & _ & _ & _ & _ & Hnames & _).
  - vm_compute. reflexivity.
  - repeat first [apply list_elem_of_here | apply list_elem_of_further].
  - exists log1, log2. eexists _, _, _. split; [exact Hlog|exact Hnames].
Defined.

Section GoUnsupported.
Variable ext : Extern.
Variable routes : go_router.RouteMap.
Variable filters : go_router.FilterMap.
Variable ord : go_router.Orders.
Variable r : http_Request.
Hypothesis Hform : ParseForm r = None.
Hypothesis Hmethod : ~ lifecycle.supported (Method r).

Lemma go_parsed_unsupported key req answer log :
  parsed ext r key req answer log ->
  key = EmptyString /\ req = ∅ /\ answer = notSupported /\
  log = [go_router.EvParseForm None; go_router.EvNotSupported].
Proof.
  unfold lifecycle.supported in Hmethod.
  destruct 1 as [key req0 req Hf Hm _ _|req0 req Hf Hm _ _|Hf Hm]; [tauto|tauto|done].
Qed.

Lemma go_prefiltered_unsupported key req answer log :
  prefiltered ext filters ord r key req answer log ->
  key = EmptyString /\ answer = notSupported /\
  exists evs, pre_ran r (range_map (go_router.order_pre ord) filters) ∅ (Norm (req, None)) evs /\
              log = [go_router.EvParseForm None; go_router.EvNotSupported] ++ evs.
Proof.
  destruct 1 as [key req answer log req' evs Hp Hpre].
  destruct (go_parsed_unsupported _ _ _ _ Hp) as (-> & -> & -> & ->).
  split; [done|]. split; [done|]. by exists evs.
Qed.

Lemma go_postfiltered_unsupported result answer log :
  postfiltered ext routes filters ord r result answer log ->
  answer = notSupported /\
  exists req evs tail,
    pre_ran r (range_map (go_router.order_pre ord) filters) ∅ (Norm (req, None)) evs /\
    log = [go_router.EvParseForm None; go_router.EvNotSupported] ++ evs
          ++ go_router.EvGetNode (Method r) EmptyString None :: tail /\
    Forall (fun e => 5 <= go_stage e) tail.
Proof.
  destruct 1 as [key req answer log c result req' evs Hp Hn Hc Hpo].
  destruct (go_prefiltered_unsupported _ _ _ _ Hp) as (-> & -> & pre & Hpre & ->).
  split; [done|]. exists req, pre, (go_router.EvCall req (go_router.Returns result None) :: evs).
  split; [done|]. rewrite <- app_assoc. split; [done|].
  constructor; [cbn; lia|].
  eapply Forall_impl; [exact (go_post_ran_stage _ _ _ _ _ Hpo)|]. intros e He. cbn beta in He. lia.
Qed.

(** What [Dispatch] does with a method it does not support. *)
Lemma go_dispatched_unsupported w w' final :
  dispatched ext routes filters ord r w w' final ->
  exists out evs tail,
    pre_ran r (range_map (go_router.order_pre ord) filters) ∅ out evs /\
    final = [go_router.EvParseForm None; go_router.EvNotSupported] ++ evs ++ tail /\
    match out with
    | Norm (_, None) =>
        exists e tail', tail = go_router.EvGetNode (Method r) EmptyString e :: tail' /\
                        Forall (fun e => 5 <= go_stage e) tail'
    | _ => exists v, tail = [go_router.EvRecover v]
    end /\
    (w' = internalError (notSupported (Header_Set "Content-Type" JSON w)) \/
     w' = notFound (notSupported (Header_Set "Content-Type" JSON w)) \/
     exists data, w' = Write data (notSupported (Header_Set "Content-Type" JSON w))).
Proof.
  unfold lifecycle.supported in Hmethod.
  destruct 1 as [v answer plog Hp|key req answer plog e Hp Hn|result answer plog data Hp Hm].
  - destruct Hp as [e He|v Hf Hm Hpg|req0 key v Hf Hm Hpg Hpf|req0 e Hf Hm Hb|req0 v Hf Hm Hb Hpf
                |key req answer log req' e evs Hp Hpre|key req answer log v evs Hp Hpre
                |key req answer log c result e Hp Hn Hc|key req answer log c v Hp Hn Hc
                |key req answer log c result req' e evs Hp Hn Hc Hpo
                |key req answer log c result v evs Hp Hn Hc Hpo
                |result answer log data e Hp Hm]; try congruence; try tauto.
    + destruct (go_parsed_unsupported _ _ _ _ Hp) as (-> & -> & -> & ->).
      exists (Norm (req', Some e)), evs, [go_router.EvRecover (PanicError e)].
      split; [done|]. split; [by rewrite <- app_assoc|]. split; [eauto|]. by left.
    + destruct (go_parsed_unsupported _ _ _ _ Hp) as (-> & -> & -> & ->).
      exists (Panicking v), evs, [go_router.EvRecover v].
      split; [done|]. split; [by rewrite <- app_assoc|]. split; [eauto|]. by left.
    + destruct (go_prefiltered_unsupported _ _ _ _ Hp) as (-> & -> & pre & Hpre & ->).
      eexists _, pre, _. split; [exact Hpre|]. rewrite <- !app_assoc.
      split; [reflexivity|]. split; [|by left].
      eexists _, _. split; [reflexivity|]. repeat constructor; cbn; lia.
    + destruct (go_prefiltered_unsupported _ _ _ _ Hp) as (-> & -> & pre & Hpre & ->).
      eexists _, pre, _. split; [exact Hpre|]. rewrite <- !app_assoc.
      split; [reflexivity|]. split; [|by left].
      eexists _, _. split; [reflexivity|]. repeat constructor; cbn; lia.
    + destruct (go_prefiltered_unsupported _ _ _ _ Hp) as (-> & -> & pre & Hpre & ->).
      eexists _, pre, _. split; [exact Hpre|]. rewrite <- !app_assoc.
      split; [reflexivity|]. split; [|by left].
      eexists _, _. split; [reflexivity|].
      constructor; [cbn; lia|]. apply Forall_app. split; [|repeat constructor; cbn; lia].
      eapply Forall_impl; [exact (go_post_ran_stage _ _ _ _ _ Hpo)|].
      intros e0 He0. cbn beta in He0. lia.
    + destruct (go_prefiltered_unsupported _ _ _ _ Hp) as (-> & -> & pre & Hpre & ->).
      eexists _, pre, _. split; [exact Hpre|]. rewrite <- !app_assoc.
      split; [reflexivity|]. split; [|by left].
      eexists _, _. split; [reflexivity|].
      constructor; [cbn; lia|]. apply Forall_app. split; [|repeat constructor; cbn; lia].
      eapply Forall_impl; [exact (go_post_ran_stage _ _ _ _ _ Hpo)|].
      intros e0 He0. cbn beta in He0. lia.
    + destruct (go_postfiltered_unsupported _ _ _ Hp) as (-> & req & pre & tail & Hpre & -> & Htail).
      eexists _, pre, _. split; [exact Hpre|]. rewrite <- !app_assoc.
      split; [reflexivity|]. split; [|by left].
      eexists _, _. split; [reflexivity|].
      apply Forall_app. split; [done|]. repeat constructor; cbn; lia.
  - destruct (go_prefiltered_unsupported _ _ _ _ Hp) as (-> & -> & pre & Hpre & ->).
    eexists _, pre, _. split; [exact Hpre|]. rewrite <- !app_assoc.
    split; [reflexivity|]. split; [|right; by left].
    eexists _, _. split; [reflexivity|]. repeat constructor; cbn; lia.
  - destruct (go_postfiltered_unsupported _ _ _ Hp) as (-> & req & pre & tail & Hpre & -> & Htail).
    eexists _, pre, _. split; [exact Hpre|]. rewrite <- !app_assoc.
    split; [reflexivity|]. split; [|right; right; by exists data].
    eexists _, _. split; [reflexivity|].
    apply Forall_app. split; [done|]. repeat constructor; cbn; lia.
Qed.

End GoUnsupported.

(** X19: in package go_router a request with an unsupported method (and a
    form that parses) is not answered at once: after the
    method-not-supported response the pre-dispatch hooks run from the empty
    parameter set and, when they pass, the route is looked up under the
    empty key.  The status stays 404 whatever follows, and the body starts
    with the method-not-supported message. *)
Theorem go_unsupported_method_goes_on ext routes filters ord r w' log :
  ParseForm r = None ->
  ~ lifecycle.supported (Method r) ->
  go_router.Dispatch ext routes filters ord new_ResponseWriter r = Val (w', log) ->
  status w' = Some 404 /\
  (exists more, body w' = not_supported_body +:+ more) /\
  exists out evs tail,
    pre_ran r (range_map (go_router.order_pre ord) filters) ∅ out evs /\
    log = [go_router.EvParseForm None; go_router.EvNotSupported] ++ evs ++ tail /\
    match out with
    | Norm (_, None) =>
        exists e tail', tail = go_router.EvGetNode (Method r) EmptyString e :: tail' /\
                        Forall (fun e => 5 <= go_stage e) tail'
    | _ => exists v, tail = [go_router.EvRecover v]
    end.
Proof.
  intros Hform Hmethod Hrun.
  destruct (go_Dispatch_dispatched ext routes filters ord r new_ResponseWriter)
    as (w1 & log1 & Hrun1 & Hd).
  rewrite Hrun in Hrun1. injection Hrun1 as <- <-.
  destruct (go_dispatched_unsupported _ _ _ _ _ Hform Hmethod _ _ _ Hd)
    as (out & evs & tail & Hpre & -> & Hout & Hw).
  assert (Hresp : status w' = Some 404 /\ exists more, body w' = not_supported_body +:+ more).
  { destruct Hw as [->|[->|[data ->]]]; (split; [reflexivity|]); eexists; reflexivity. }
  destruct Hresp as [Hstatus Hbody]. split; [done|]. split; [done|].
  by exists out, evs, tail.
Qed.

Lemma go_unsupported_method_goes_on_witness :
  exists w' log,
    go_router.Dispatch (example_extern ∅) go_example_routes go_example_filters
      go_example_orders new_ResponseWriter PUT_ok = Val (w', log) /\
    status w' = Some 404.
Proof.
  eexists _, _. split; [vm_compute; reflexivity|].
  edestruct (go_unsupported_method_goes_on (example_extern ∅) go_example_routes
               go_example_filters go_example_orders PUT_ok) as (Hstatus & _).
  - reflexivity.
  - unfold supported. simpl. intros [H|[H|H]]; discriminate H.
  - vm_compute. reflexivity.
  - exact Hstatus.
Defined.

(** *** The two default cases *)

Lemma range_map_nil {V} (order : list string) (m : gmap string V) :
  range_map order m = [] -> m = ∅.
Proof.
  intros Hnil. apply map_empty. intros k. destruct (m !! k) as [v|] eqn:E; [|done].
  apply range_map_elem with (order := order) in E. rewrite Hnil in E.
  by apply elem_of_nil in E.
Qed.

(** C3: the two default cases of the switch on the method, for a request
    whose form parses and whose method is not GET, POST or DELETE.  In
    package router the dispatch writes the method-not-supported response,
    404, and returns at once: its log is the parse of the form and the
    response, so no route is looked up, no hook runs and no handler is
    called.  In package go_router the default case has no return: the same
    response is written and the dispatch goes on.  The call right after the
    response is the pre-dispatch hook of a registered filter, on the empty
    parameter set, or, when no filter is registered, the lookup of the
    route under the empty key; the status stays 404. *)
Theorem unsupported_method_default_cases ext routes filters ord groutes gfilters gord r :
  ParseForm r = None ->
  ~ lifecycle.supported (Method r) ->
  (router.Dispatch ext routes filters ord new_ResponseWriter r
   = Val (notSupported fresh_writer, [router.EvParseForm None; router.EvNotSupported]) /\
   status (notSupported fresh_writer) = Some 404 /\
   body (notSupported fresh_writer) = not_supported_body) /\
  exists w' next rest,
    go_router.Dispatch ext groutes gfilters gord new_ResponseWriter r
    = Val (w', go_router.EvParseForm None :: go_router.EvNotSupported :: next :: rest) /\
    status w' = Some 404 /\
    (gfilters = ∅ -> exists e, next = go_router.EvGetNode (Method r) EmptyString e) /\
    (gfilters <> ∅ ->
       exists n f, gfilters !! n = Some f /\
                   next = go_router.EvPreDispatch n ∅ (go_router.PreDispatch f r ∅)).
Proof.
  intros Hform Hmethod.
  split; [by apply unsupported_method_not_supported|].
  destruct (go_Dispatch_dispatched ext groutes gfilters gord r new_ResponseWriter)
    as (w' & log & Hrun & Hd).
  destruct (go_dispatched_unsupported _ _ _ _ _ Hform Hmethod _ _ _ Hd)
    as (out & evs & tail & Hpre & -> & Hout & Hw).
  assert (Hstatus : status w' = Some 404) by (by destruct Hw as [->|[->|[data ->]]]).
  assert (Hreg : forall n f fs, range_map (go_router.order_pre gord) gfilters = (n, f) :: fs ->
                   gfilters !! n = Some f).
  { intros n f fs Hfs. apply (range_map_elem (go_router.order_pre gord)).
    rewrite Hfs. apply list_elem_of_here. }
  assert (Hsome : forall n f, gfilters !! n = Some f -> gfilters <> ∅).
  { intros n f Hf ->. by rewrite lookup_empty in Hf. }
  exists w'. rewrite Hrun.
  inversion Hpre as [req Hfs|n f fs req req' out' evs' Hf Hrest Hfs
                    |n f fs req req' e Hf Hfs|n f fs req v Hf Hfs]; subst.
  - destruct Hout as (e & tail' & -> & _). exists (go_router.EvGetNode (Method r) EmptyString e), tail'.
    split; [done|]. split; [done|]. split; [by exists e|].
    intros Hne. by destruct Hne; eapply range_map_nil.
  - eexists _, _. split; [reflexivity|]. split; [done|].
    symmetry in Hfs. apply Hreg in Hfs. split; [intros ->; by rewrite lookup_empty in Hfs|].
    intros _. exists n, f. by rewrite Hf.
  - eexists _, _. split; [reflexivity|]. split; [done|].
    symmetry in Hfs. apply Hreg in Hfs. split; [intros ->; by rewrite lookup_empty in Hfs|].
    intros _. exists n, f. by rewrite Hf.
  - eexists _, _. split; [reflexivity|]. split; [done|].
    symmetry in Hfs. apply Hreg in Hfs. split; [intros ->; by rewrite lookup_empty in Hfs|].
    intros _. exists n, f. by rewrite Hf.
Qed.

(** The request PUT /v1/test/retrieve: package router returns at once; in
    package go_router, with the filter auth registered and no route, the
    hook of auth runs and the route is looked up after the response. *)
Lemma unsupported_method_default_cases_witness :
  router.Dispatch (example_extern ∅) example_routes example_filters example_orders
    new_ResponseWriter PUT_ok
  = Val (notSupported fresh_writer, [router.EvParseForm None; router.EvNotSupported]) /\
  exists w' log,
    go_router.Dispatch (example_extern ∅) ∅ go_example_filters go_example_orders
      new_ResponseWriter PUT_ok = Val (w', log) /\
    go_router.EvPreDispatch "auth" ∅ (go_router.HookReturns ∅ None) ∈ log /\
    go_router.EvGetNode "PUT" EmptyString (Some (errors_New "No Handler Found")) ∈ log.
Proof.
  destruct (unsupported_method_default_cases (example_extern ∅) example_routes example_filters
              example_orders ∅ go_example_filters go_example_orders PUT_ok)
    as [[Hrouter _] _].
  - reflexivity.
  - unfold lifecycle.supported. simpl. intros [H|[H|H]]; discriminate H.
  - split; [exact Hrouter|].
    eexists _, _. split; [apply go_router_unsupported_method_runs_on|].
    split; repeat first [apply list_elem_of_here | apply list_elem_of_further].
Defined.

Lemma router_parseGet_odd r (req : router.Request) :
  Nat.Odd (length (segments (URL_Path r))) ->
  router.parseGet r req = Val (req, (EmptyString, Some not_found_error)).
Proof.
  intros Hodd. unfold router.parseGet. fold (segments (URL_Path r)).
  apply odd_mod2 in Hodd. rewrite Hodd, orb_true_r. done.
Qed.

Lemma go_parseGet_odd ext r (req : go_router.Request) :
  4 < length (segments (URL_Path r)) -> Nat.Odd (length (segments (URL_Path r))) ->
  go_router.parseGet ext r req = Panic index_panic.
Proof.
  intros Hgt Hodd. destruct (odd_value_index _ Hgt Hodd) as [n Hn].
  unfold go_router.parseGet. fold (segments (URL_Path r)).
  rewrite go_parseGet_loop_panics; [done|lia|by exists n].
Qed.

(** X20: a GET or DELETE request whose path ends in a parameter name
    without a value (an odd number of segments, more than four), its form
    parsed: package router answers not found, 404, and package go_router
    panics on the index and answers the internal error, 500; neither looks
    a route up or runs a hook. *)
Theorem dangling_name_in_path ext r :
  ParseForm r = None ->
  Method r = "GET" \/ Method r = "DELETE" ->
  4 < length (segments (URL_Path r)) ->
  Nat.Odd (length (segments (URL_Path r))) ->
  (forall routes filters ord,
     router.Dispatch ext routes filters ord new_ResponseWriter r
     = Val (notFound fresh_writer,
            [router.EvParseForm None;
             router.EvParseGet EmptyString (Some not_found_error);
             router.EvNotFound])) /\
  status (notFound fresh_writer) = Some 404 /\
  (forall routes filters ord,
     go_router.Dispatch ext routes filters ord new_ResponseWriter r
     = Val (internalError fresh_writer,
            [go_router.EvParseForm None; go_router.EvRecover index_panic])) /\
  status (internalError fresh_writer) = Some 500.
Proof.
  intros Hform Hm Hgt Hodd.
  assert (Hsw : String.eqb (Method r) "GET" || String.eqb (Method r) "DELETE" = true).
  { destruct Hm as [-> | ->]; reflexivity. }
  split; [|split; [done|split; [|done]]].
  - intros routes filters ord. unfold router.Dispatch, router.Dispatch_body.
    rewrite Hform, Hsw, (router_parseGet_odd r ∅ Hodd). reflexivity.
  - intros routes filters ord. unfold go_router.Dispatch, go_router.Dispatch_body.
    rewrite Hform, Hsw, (go_parseGet_odd ext r ∅ Hgt Hodd). reflexivity.
Qed.

Lemma dangling_name_in_path_witness :
  go_router.Dispatch (example_extern ∅) go_example_routes go_example_filters go_example_orders
    new_ResponseWriter (GET "/v1/test/retrieve/id")
  = Val (internalError fresh_writer,
         [go_router.EvParseForm None; go_router.EvRecover index_panic]).
Proof.
  destruct (dangling_name_in_path (example_extern ∅) (GET "/v1/test/retrieve/id"))
    as (_ & _ & Hgo & _).
  - reflexivity.
  - left. reflexivity.
  - vm_compute. lia.
  - exists 2. vm_compute. reflexivity.
  - apply Hgo.
Defined.

Section GoAnswers.
Variable ext : Extern.
Variable routes : go_router.RouteMap.
Variable filters : go_router.FilterMap.
Variable ord : go_router.Orders.
Variable r : http_Request.

Lemma go_parsed_answer key req answer log :
  parsed ext r key req answer log ->
  (answer = id /\ lifecycle.supported (Method r)) \/
  (answer = notSupported /\ ~ lifecycle.supported (Method r)).
Proof.
  destruct 1; [left|left|right]; (split; [done|]); unfold lifecycle.supported in *; tauto.
Qed.

Lemma go_prefiltered_answer key req answer log :
  prefiltered ext filters ord r key req answer log ->
  (answer = id /\ lifecycle.supported (Method r)) \/
  (answer = notSupported /\ ~ lifecycle.supported (Method r)).
Proof. destruct 1. by eapply go_parsed_answer. Qed.

Lemma go_postfiltered_answer result answer log :
  postfiltered ext routes filters ord r result answer log ->
  (answer = id /\ lifecycle.supported (Method r)) \/
  (answer = notSupported /\ ~ lifecycle.supported (Method r)).
Proof. destruct 1. by eapply go_prefiltered_answer. Qed.

Lemma go_panics_answer v answer log :
  panics ext routes filters ord r v answer log -> answer = id \/ answer = notSupported.
Proof.
  destruct 1; try (by left);
    match goal with
    | H : parsed _ _ _ _ _ _ |- _ => destruct (go_parsed_answer _ _ _ _ H) as [[-> _]|[-> _]]
    | H : prefiltered _ _ _ _ _ _ _ _ |- _ =>
        destruct (go_prefiltered_answer _ _ _ _ H) as [[-> _]|[-> _]]
    | H : postfiltered _ _ _ _ _ _ _ _ |- _ =>
        destruct (go_postfiltered_answer _ _ _ H) as [[-> _]|[-> _]]
    end; first [by left | by right].
Qed.

End GoAnswers.

Lemma header_internalError w : header (internalError w) = header w.
Proof.
  unfold internalError, Write, WriteHeader.
  destruct (status w) eqn:E; cbn; rewrite ?E; reflexivity.
Qed.

Lemma header_notFound w : header (notFound w) = header w.
Proof.
  unfold notFound, Write, WriteHeader.
  destruct (status w) eqn:E; cbn; rewrite ?E; reflexivity.
Qed.

Lemma header_notSupported w : header (notSupported w) = header w.
Proof.
  unfold notSupported, Write, WriteHeader.
  destruct (status w) eqn:E; cbn; rewrite ?E; reflexivity.
Qed.

Lemma header_Write data w : header (Write data w) = header w.
Proof. unfold Write, WriteHeader. destruct (status w) eqn:E; cbn; rewrite ?E; reflexivity. Qed.

(** X17: every response of [Dispatch], in both packages, carries the
    content type application/json, the plain-text error responses included,
    and no other header is changed. *)
Theorem content_type_is_json ext (w : ResponseWriter) (r : http_Request) :
  (forall routes filters ord w' log,
     router.Dispatch ext routes filters ord w r = Val (w', log) ->
     header w' = <["Content-Type" := JSON]> (header w)) /\
  (forall routes filters ord w' log,
     go_router.Dispatch ext routes filters ord w r = Val (w', log) ->
     header w' = <["Content-Type" := JSON]> (header w)).
Proof.
  split; intros routes filters ord w' log Hrun.
  - destruct (Dispatch_dispatched ext routes filters ord r w) as (w1 & log1 & Hrun1 & Hd).
    rewrite Hrun in Hrun1. injection Hrun1 as <- <-.
    destruct Hd; by rewrite ?header_internalError, ?header_notFound, ?header_notSupported,
                      ?header_Write.
  - destruct (go_Dispatch_dispatched ext routes filters ord r w) as (w1 & log1 & Hrun1 & Hd).
    rewrite Hrun in Hrun1. injection Hrun1 as <- <-.
    destruct Hd as [v answer plog Hp|key req answer plog e Hp Hn|result answer plog data Hp Hm].
    + destruct (go_panics_answer _ _ _ _ _ _ _ _ Hp) as [-> | ->];
        by rewrite ?header_internalError, ?header_notSupported.
    + destruct (go_prefiltered_answer _ _ _ _ _ _ _ _ Hp) as [[-> _]|[-> _]];
        by rewrite ?header_notFound, ?header_notSupported.
    + destruct (go_postfiltered_answer _ _ _ _ _ _ _ _ Hp) as [[-> _]|[-> _]];
        by rewrite ?header_Write, ?header_notSupported.
Qed.

Lemma go_postfiltered_inv ext routes filters ord r result answer log :
  postfiltered ext routes filters ord r result answer log ->
  exists key req c req' log1 post,
    prefiltered ext filters ord r key req answer log1 /\
    go_router.getNode routes (Method r) key = (Some c, None) /\
    go_router.Call c req = go_router.Returns result None /\
    post_ran r (range_map (go_router.order_post ord) filters) req (Norm (req', None)) post /\
    log = log1 ++ go_router.EvGetNode (Method r) key None
               :: go_router.EvCall req (go_router.Returns result None) :: post.
Proof. destruct 1 as [key req answer log1 c result req' post]. by exists key, req, c, req', log1, post. Qed.

(** X21: a dispatch of package go_router on a fresh response writer
    answers 200, 404 or 500.  When it answers 200 the method is supported,
    the handler of the route was called with the parameter set the
    pre-dispatch hooks left and returned no error, the pre- and the
    post-dispatch hook of every registered filter ran, and the body is the
    encoding of what the handler returned. *)
Theorem go_success_response ext routes filters ord r w' log :
  go_router.Dispatch ext routes filters ord new_ResponseWriter r = Val (w', log) ->
  (status w' = Some 200 \/ status w' = Some 404 \/ status w' = Some 500) /\
  (status w' = Some 200 ->
   lifecycle.supported (Method r) /\
   exists key req c result data log1 post,
     prefiltered ext filters ord r key req id log1 /\
     go_router.getNode routes (Method r) key = (Some c, None) /\
     go_router.Call c req = go_router.Returns result None /\
     json_Marshal ext result = (data, None) /\
     w' = Write data fresh_writer /\
     body w' = data /\
     log = log1 ++ go_router.EvGetNode (Method r) key None
                :: go_router.EvCall req (go_router.Returns result None)
                :: post ++ [go_router.EvMarshal None] /\
     go_pre_names log1 ≡ₚ (map_to_list filters).*1 /\
     go_post_names post ≡ₚ (map_to_list filters).*1 /\
     Forall (fun e => go_stage e = 6) post).
Proof.
  intros Hrun.
  destruct (go_Dispatch_dispatched ext routes filters ord r new_ResponseWriter)
    as (w1 & log1 & Hrun1 & Hd).
  rewrite Hrun in Hrun1. injection Hrun1 as <- <-.
  destruct Hd as [v answer plog Hp|key req answer plog e Hp Hn|result answer plog data Hp Hm].
  - destruct (go_panics_answer _ _ _ _ _ _ _ _ Hp) as [-> | ->].
    + split; [right; right; reflexivity|]. intros Hs. cbv in Hs. discriminate Hs.
    + split; [right; left; reflexivity|]. intros Hs. cbv in Hs. discriminate Hs.
  - destruct (go_prefiltered_answer _ _ _ _ _ _ _ _ Hp) as [[-> _]|[-> _]];
      (split; [right; left; reflexivity|intros Hs; cbv in Hs; discriminate Hs]).
  - destruct (go_postfiltered_answer _ _ _ _ _ _ _ _ Hp) as [[-> Hsup]|[-> _]].
    2:{ split; [right; left; reflexivity|intros Hs; cbv in Hs; discriminate Hs]. }
    split; [left; reflexivity|]. intros _. split; [done|].
    apply go_postfiltered_inv in Hp
      as (key & req & c & req' & log1 & post & Hpre & Hn & Hc & Hpost & ->).
    exists key, req, c, result, data, log1, post.
    split; [done|]. split; [done|]. split; [done|]. split; [done|].
    split; [reflexivity|]. split; [reflexivity|]. split; [by rewrite <- app_assoc|].
    destruct (go_prefiltered_names _ _ _ _ _ _ _ _ Hpre) as [Hnames _].
    split; [rewrite Hnames; apply range_map_names|].
    split; [rewrite (go_post_ran_all _ _ _ _ _ Hpost); apply range_map_names|].
    by eapply go_post_ran_stage.
Qed.

Lemma go_success_response_witness :
  exists w' log,
    go_router.Dispatch (example_extern ∅) go_example_routes go_example_filters
      go_example_orders new_ResponseWriter (GET "/v1/test/retrieve/id/42") = Val (w', log) /\
    status w' = Some 200 /\
    lifecycle.supported "GET".
Proof.
  eexists _, _. split; [vm_compute; reflexivity|]. split; [reflexivity|].
  edestruct (go_success_response (example_extern ∅) go_example_routes go_example_filters
               go_example_orders (GET "/v1/test/retrieve/id/42")) as (_ & Hok);
    [vm_compute; reflexivity|].
  destruct Hok as [Hsup _]; [reflexivity|]. exact Hsup.
Defined.
